(** * Advanced Deep Learning with Python: attention, transformer and pair construction

    A shallow embedding of two notebooks:
    - [Chapter08/transformer.ipynb]: scaled dot-product attention, multi-head
      attention, layer normalisation, the residual sublayer wrapper and the
      encoder-decoder built from them;
    - the siamese-network notebook: [create_pairs].

    Tensors are a shape together with an indexing function.  Floating-point
    numbers are idealised as real numbers: no rounding, no overflow, no NaN.
    Where the code divides by zero it obtains NaN or an infinity, which
    real arithmetic does not have (a division by zero gives 0 here): this
    happens in [attention] for vectors of no feature and in [LayerNorm] for
    a single feature.
    Python exceptions are values of [exn]; code that draws random numbers
    threads the generator state explicitly. *)

From Stdlib Require Import Reals Lra Lia List ZArith Bool Arith.
From Stdlib Require Import FunctionalExtensionality.
Import ListNotations.

Set Implicit Arguments.

(** ** Exceptions and the state-and-exception monad *)

Inductive exn : Type :=
| AssertionError
| ZeroDivisionError
| IndexError
| RuntimeError.

Inductive result (A : Type) : Type :=
| Ok (a : A)
| Raise (e : exn).

Arguments Ok {A} a.
Arguments Raise {A} e.

Definition is_ok {A} (r : result A) : bool :=
  match r with Ok _ => true | Raise _ => false end.

(** A computation over a state [S] (a random generator) that may raise. *)
Definition M (S A : Type) : Type := S -> result (A * S).

Definition ret {S A} (a : A) : M S A := fun s => Ok (a, s).

Definition bind {S A B} (m : M S A) (f : A -> M S B) : M S B :=
  fun s => match m s with
           | Ok (a, s') => f a s'
           | Raise e => Raise e
           end.

Definition raise {S A} (e : exn) : M S A := fun _ => Raise e.

Definition lift {S A} (r : result A) : M S A :=
  fun s => match r with Ok a => Ok (a, s) | Raise e => Raise e end.

(** Sequencing of plain results. *)
Definition rbind {A B} (r : result A) (f : A -> result B) : result B :=
  match r with Ok a => f a | Raise e => Raise e end.

Declare Scope monad_scope.
Delimit Scope monad_scope with monad.
Notation "x <- m ;; k" := (bind m (fun x => k))
  (at level 61, m at next level, right associativity) : monad_scope.
Notation "x <-- r ;; k" := (rbind r (fun x => k))
  (at level 61, r at next level, right associativity) : monad_scope.
Notation "' p <- m ;; k" := (bind m (fun x => let p := x in k))
  (at level 61, p pattern, m at next level, right associativity) : monad_scope.

(** [for x in l: s = body x s] *)
Fixpoint for_each {S A St} (l : list A) (body : A -> St -> M S St) (st : St)
  : M S St :=
  match l with
  | [] => ret st
  | a :: l' => bind (body a st) (for_each l' body)
  end.

(** Python's [range(n)] for an integer [n]: empty when [n <= 0]. *)
Definition range (n : Z) : list nat := seq 0 (Z.to_nat n).

(** ** The siamese notebook: [create_pairs] *)

Module Siamese.

Open Scope monad_scope.

(** The state of Python's [random] module, as the stream of raw draws it
    will produce. *)
Definition rng : Type := nat -> nat.

(** [random.randrange(lo, hi)]: some integer in [[lo, hi)]; raises
    [ValueError] (here [RuntimeError]) on an empty range. *)
Definition randrange (lo hi : nat) : M rng nat :=
  fun g => if hi <=? lo then Raise RuntimeError
           else Ok (lo + g 0 mod (hi - lo), fun k => g (S k)).

(** [l[i]] on a Python list or a one-dimensional array, for [i >= 0]. *)
Definition getitem {A} (l : list A) (i : nat) : result A :=
  match nth_error l i with
  | Some a => Ok a
  | None => Raise IndexError
  end.

(** [np.where(labels == i)[0]], the positions of [i] in [labels],
    counted from [k]. *)
Fixpoint where_from (k : nat) (labels : list nat) (i : nat) : list nat :=
  match labels with
  | [] => []
  | y :: ys =>
      if y =? i then k :: where_from (S k) ys i else where_from (S k) ys i
  end.

Definition where_eq (labels : list nat) (i : nat) : list nat :=
  where_from 0 labels i.

(** [min(l)] on a non-empty list of lengths. *)
Definition min_list (l : list nat) : result nat :=
  match l with
  | [] => Raise RuntimeError
  | x :: xs => Ok (fold_left Nat.min xs x)
  end.

Definition num_classes : nat := 10.

Section CreatePairs.

Variable X : Type.

(** The loop state: the lists [pairs] and [labels] being built. *)
Definition acc : Type := (list (X * X) * list R)%type.

Definition create_pairs_body (inputs : list X) (digit_indices : list (list nat))
    (d i : nat) (st : acc) : M rng acc :=
  let '(pairs, labels) := st in
  di <- lift (getitem digit_indices d) ;;
  z1 <- lift (getitem di i) ;;
  z2 <- lift (getitem di (i + 1)) ;;
  x1 <- lift (getitem inputs z1) ;;
  x2 <- lift (getitem inputs z2) ;;
  let pairs := pairs ++ [(x1, x2)] in
  inc <- randrange 1 num_classes ;;
  let dn := (d + inc) mod num_classes in
  z1 <- lift (getitem di i) ;;
  dni <- lift (getitem digit_indices dn) ;;
  z2 <- lift (getitem dni i) ;;
  x1 <- lift (getitem inputs z1) ;;
  x2 <- lift (getitem inputs z2) ;;
  let pairs := pairs ++ [(x1, x2)] in
  let labels := (labels ++ [1; 0])%R in
  ret (pairs, labels).

Definition create_pairs (inputs : list X) (labels : list nat)
  : M rng (list (X * X) * list R) :=
  let digit_indices := map (fun i => where_eq labels i) (seq 0 num_classes) in
  let pairs : list (X * X) := [] in
  let labels' : list R := [] in
  m <- lift (min_list (map (fun d => length (nth d digit_indices []))
                           (seq 0 num_classes))) ;;
  let n := (Z.of_nat m - 1)%Z in
  for_each (seq 0 num_classes)
    (fun d => for_each (range n)
                (create_pairs_body inputs digit_indices d))
    (pairs, labels').

(** What the result is expected to contain.  A positive pair of class [d]
    is made of two samples labelled [d]; a negative pair of class [d] of a
    sample labelled [d] and a sample with another label. *)
Definition positive_pair (inputs : list X) (labels : list nat) (d : nat)
    (p : X * X) : Prop :=
  exists z1 z2,
    nth_error inputs z1 = Some (fst p) /\ nth_error inputs z2 = Some (snd p) /\
    nth_error labels z1 = Some d /\ nth_error labels z2 = Some d.

Definition negative_pair (inputs : list X) (labels : list nat) (d : nat)
    (p : X * X) : Prop :=
  exists z1 z2 dn,
    nth_error inputs z1 = Some (fst p) /\ nth_error inputs z2 = Some (snd p) /\
    nth_error labels z1 = Some d /\ nth_error labels z2 = Some dn /\ dn <> d.

(** Step [k] of the loops has left, at positions [2k] and [2k+1], a positive
    pair of class [c] labelled 1 and a negative pair of class [c] labelled
    0. *)
Definition step_done (inputs : list X) (labels : list nat) (c k : nat)
    (st : acc) : Prop :=
  (exists p, nth_error (fst st) (2 * k) = Some p /\
             positive_pair inputs labels c p) /\
  nth_error (snd st) (2 * k) = Some 1%R /\
  (exists p, nth_error (fst st) (2 * k + 1) = Some p /\
             negative_pair inputs labels c p) /\
  nth_error (snd st) (2 * k + 1) = Some 0%R.

(** The first [c] steps are done, [n] steps per class. *)
Definition steps_done (inputs : list X) (labels : list nat) (n c : nat)
    (st : acc) : Prop :=
  length (fst st) = (2 * c)%nat /\ length (snd st) = (2 * c)%nat /\
  forall k, (k < c)%nat -> step_done inputs labels (k / n) k st.

End CreatePairs.

End Siamese.

(** ** A model of the tensor library

    Only what the notebook calls is modelled.  A tensor is its shape and the
    function giving the entry at an index (a list of coordinates, one per
    dimension); entries at indices outside the shape are irrelevant. *)

Module Torch.

Open Scope R_scope.

Definition index : Type := list nat.

Record tensor (A : Type) : Type := Tensor {
  shape : list nat;
  get : index -> A
}.

Arguments Tensor {A} shape get.

(** [t.dim()] and [t.size(-1)] *)
Definition rank {A} (t : tensor A) : nat := length (shape t).
Definition last_dim (s : list nat) : nat := last s 1%nat.

(** The index that differs from [idx] in the last coordinate only. *)
Definition row_of (idx : index) (j : nat) : index := removelast idx ++ [j].

(** Sum of [f 0 .. f (n-1)]. *)
Definition sum_upto (n : nat) (f : nat -> R) : R :=
  fold_right Rplus 0 (map f (seq 0 n)).

(** *** Building tensors *)

Definition of_list1 {A} (d : A) (l : list A) : tensor A :=
  Tensor [length l] (fun idx => nth (nth 0 idx 0%nat) l d).

(** A matrix from its rows; the width is that of the first row. *)
Definition of_list2 {A} (d : A) (l : list (list A)) : tensor A :=
  Tensor [length l; length (nth 0 l [])]
         (fun idx => nth (nth 1 idx 0%nat) (nth (nth 0 idx 0%nat) l []) d).

Definition full {A} (s : list nat) (a : A) : tensor A :=
  Tensor s (fun _ => a).

Definition ones (s : list nat) : tensor R := full s 1.
Definition zeros (s : list nat) : tensor R := full s 0.

(** *** Broadcasting *)

(** Shapes are aligned on their last dimension; the functions below work on
    reversed shapes. *)
Fixpoint broadcast_rev (s1 s2 : list nat) : option (list nat) :=
  match s1, s2 with
  | [], _ => Some s2
  | _, [] => Some s1
  | a :: s1', b :: s2' =>
      match broadcast_rev s1' s2' with
      | None => None
      | Some s =>
          if a =? b then Some (a :: s)
          else if a =? 1 then Some (b :: s)
          else if b =? 1 then Some (a :: s)
          else None
      end
  end%nat.

Definition broadcast_shapes (s1 s2 : list nat) : option (list nat) :=
  option_map (@rev nat) (broadcast_rev (rev s1) (rev s2)).

(** Where in an operand of (reversed) shape [s] the entry for the (reversed)
    result index [idx] is read: dimensions of size 1 are repeated. *)
Fixpoint bcast_rev (s idx : list nat) : list nat :=
  match s, idx with
  | d :: s', i :: idx' => (if d =? 1 then 0 else i)%nat :: bcast_rev s' idx'
  | _, _ => []
  end.

Definition bcast_index (s : list nat) (idx : index) : index :=
  rev (bcast_rev (rev s) (rev idx)).

Fixpoint list_eqb (s1 s2 : list nat) : bool :=
  match s1, s2 with
  | [], [] => true
  | a :: s1', b :: s2' => (a =? b)%nat && list_eqb s1' s2'
  | _, _ => false
  end.

(** Element-wise binary operation with broadcasting. *)
Definition map2 {A B C} (f : A -> B -> C) (a : tensor A) (b : tensor B)
  : result (tensor C) :=
  match broadcast_shapes (shape a) (shape b) with
  | Some s =>
      Ok (Tensor s (fun idx => f (get a (bcast_index (shape a) idx))
                                 (get b (bcast_index (shape b) idx))))
  | None => Raise RuntimeError
  end.

Definition tmap {A B} (f : A -> B) (a : tensor A) : tensor B :=
  Tensor (shape a) (fun idx => f (get a idx)).

Definition add := map2 Rplus.
Definition sub := map2 Rminus.
Definition mul := map2 Rmult.
Definition div := map2 Rdiv.

(** Operations with a Python number. *)
Definition add_scalar (a : tensor R) (c : R) : tensor R := tmap (fun x => x + c) a.
Definition mul_scalar (a : tensor R) (c : R) : tensor R := tmap (fun x => x * c) a.
Definition div_scalar (a : tensor R) (c : R) : tensor R := tmap (fun x => x / c) a.

(** [t == 0] on a boolean tensor *)
Definition eq0 (m : tensor bool) : tensor bool := tmap negb m.

(** [t.masked_fill(m, value)] for a mask [m] that broadcasts to the shape
    of [t].  The library also accepts a mask that enlarges [t] and returns
    a tensor of the common shape; that use is not modelled and is refused
    here. *)
Definition masked_fill (t : tensor R) (m : tensor bool) (value : R)
  : result (tensor R) :=
  match broadcast_shapes (shape t) (shape m) with
  | Some s =>
      if list_eqb s (shape t) then
        Ok (Tensor (shape t)
              (fun idx => if get m (bcast_index (shape m) idx) then value
                          else get t idx))
      else Raise RuntimeError
  | None => Raise RuntimeError
  end.

(** *** Dimensions *)

(** A possibly negative dimension number, for a tensor of rank [r]. *)
Definition norm_dim (r : nat) (d : Z) : option nat :=
  let d' := (if d <? 0 then d + Z.of_nat r else d)%Z in
  if ((0 <=? d') && (d' <? Z.of_nat r))%Z then Some (Z.to_nat d') else None.

(** Exchange positions [i] and [j] of a list. *)
Definition swap (i j : nat) (l : list nat) : list nat :=
  map (fun k => nth (if k =? i then j else if k =? j then i else k)%nat l 0%nat)
      (seq 0 (length l)).

Definition transpose {A} (t : tensor A) (d0 d1 : Z) : result (tensor A) :=
  match norm_dim (rank t) d0, norm_dim (rank t) d1 with
  | Some i, Some j =>
      Ok (Tensor (swap i j (shape t)) (fun idx => get t (swap i j idx)))
  | _, _ => Raise IndexError
  end.

(** Insert [x] at position [k]. *)
Definition insert_at (k : nat) (x : nat) (l : list nat) : list nat :=
  firstn k l ++ x :: skipn k l.

Definition remove_at (k : nat) (l : list nat) : list nat :=
  firstn k l ++ skipn (S k) l.

(** [t.unsqueeze(d)]: a new dimension of size 1 at position [d]. *)
Definition unsqueeze {A} (t : tensor A) (d : Z) : result (tensor A) :=
  match norm_dim (S (rank t)) d with
  | Some k =>
      Ok (Tensor (insert_at k 1%nat (shape t)) (fun idx => get t (remove_at k idx)))
  | None => Raise IndexError
  end.

(** [t.size(d)] *)
Definition size {A} (t : tensor A) (d : Z) : result nat :=
  match norm_dim (rank t) d with
  | Some k => Ok (nth k (shape t) 0%nat)
  | None => Raise IndexError
  end.

(** *** Views *)

Definition numel (s : list nat) : nat := fold_right Nat.mul 1%nat s.

(** Row-major position of an index, and back. *)
Fixpoint flatten_index (s : list nat) (idx : index) : nat :=
  match s, idx with
  | _ :: s', i :: idx' => (i * numel s' + flatten_index s' idx')%nat
  | _, _ => 0%nat
  end.

Fixpoint unflatten_index (s : list nat) (k : nat) : index :=
  match s with
  | [] => []
  | _ :: s' => (k / numel s')%nat :: unflatten_index s' (k mod numel s')%nat
  end.

(** The shape asked of [view], where one entry may be [-1]. *)
Definition infer_shape (n : nat) (dims : list Z) : option (list nat) :=
  if forallb (fun d => (-1 <=? d)%Z) dims then
    let known := numel (map Z.to_nat (filter (fun d => (0 <=? d)%Z) dims)) in
    match length (filter (fun d => (d <? 0)%Z) dims) with
    | O => if (known =? n)%nat then Some (map Z.to_nat dims) else None
    | S O =>
        if (known =? 0)%nat then None
        else if (n mod known =? 0)%nat then
          Some (map (fun d => if (d <? 0)%Z then (n / known)%nat else Z.to_nat d) dims)
        else None
    | _ => None
    end
  else None.

Definition view {A} (t : tensor A) (dims : list Z) : result (tensor A) :=
  match infer_shape (numel (shape t)) dims with
  | Some s =>
      Ok (Tensor s (fun idx =>
                      get t (unflatten_index (shape t) (flatten_index s idx))))
  | None => Raise RuntimeError
  end.

(** [t.contiguous()] changes the memory layout only. *)
Definition contiguous {A} (t : tensor A) : tensor A := t.

(** [t[:, :n]] on a tensor with at least two dimensions *)
Definition slice1_to {A} (t : tensor A) (n : nat) : result (tensor A) :=
  match shape t with
  | b :: l :: s => Ok (Tensor (b :: Nat.min n l :: s) (get t))
  | _ => Raise IndexError
  end.

(** *** Matrix product *)

Definition split_last2 (s : list nat) : option (list nat * nat * nat) :=
  match rev s with
  | j :: i :: p => Some (rev p, i, j)
  | _ => None
  end.

(** The entry of a batched matrix product at [idx]: the row of [a] and the
    column of [b] named by the last two coordinates, in the matrices of the
    batch named by the others. *)
Definition matmul_get (a b : tensor R) (pa pb : list nat) (m : nat)
  : index -> R :=
  fun idx =>
    let ic := removelast (removelast idx) in
    let i := last (removelast idx) 0%nat in
    let j := last idx 0%nat in
    sum_upto m (fun k => get a (bcast_index pa ic ++ [i; k]) *
                         get b (bcast_index pb ic ++ [k; j])).

(** [torch.matmul(a, b)] for operands with at least two dimensions each:
    the leading (batch) dimensions are broadcast and the trailing matrices
    multiplied. *)
Definition matmul_batched (a b : tensor R) : result (tensor R) :=
  match split_last2 (shape a), split_last2 (shape b) with
  | Some (pa, n, m), Some (pb, m', p) =>
      if (m =? m')%nat then
        match broadcast_shapes pa pb with
        | Some pc => Ok (Tensor (pc ++ [n; p]) (matmul_get a b pa pb m))
        | None => Raise RuntimeError
        end
      else Raise RuntimeError
  | _, _ => Raise RuntimeError
  end.

(** [torch.matmul(a, b)].  Two one-dimensional operands give their dot
    product.  A one-dimensional first operand is taken as a row, a
    one-dimensional second operand as a column, and the dimension so added
    is removed from the result.  An operand without dimensions is
    refused. *)
Definition matmul (a b : tensor R) : result (tensor R) :=
  match shape a, shape b with
  | [n], [m] =>
      if (n =? m)%nat then
        Ok (Tensor [] (fun _ => sum_upto n (fun k => get a [k] * get b [k])))
      else Raise RuntimeError
  | [n], _ =>
      match matmul_batched
              (Tensor [1%nat; n] (fun idx => get a [last idx 0%nat])) b with
      | Ok c =>
          Ok (Tensor (removelast (removelast (shape c)) ++ [last_dim (shape c)])
                (fun idx => get c (removelast idx ++ [0%nat; last idx 0%nat])))
      | Raise e => Raise e
      end
  | _, [m] =>
      match matmul_batched
              a (Tensor [m; 1%nat] (fun idx => get b [nth 0 idx 0%nat])) with
      | Ok c =>
          Ok (Tensor (removelast (shape c)) (fun idx => get c (idx ++ [0%nat])))
      | Raise e => Raise e
      end
  | _, _ => matmul_batched a b
  end.

(** *** Reductions over the last dimension *)

(** [torch.nn.functional.softmax(x, dim=-1)] *)
Definition softmax (x : tensor R) : tensor R :=
  Tensor (shape x)
    (fun idx => exp (get x idx) /
                sum_upto (last_dim (shape x)) (fun j => exp (get x (row_of idx j)))).

(** [torch.nn.functional.log_softmax(x, dim=-1)] *)
Definition log_softmax (x : tensor R) : tensor R :=
  Tensor (shape x)
    (fun idx => get x idx -
                ln (sum_upto (last_dim (shape x)) (fun j => exp (get x (row_of idx j))))).

(** [x.mean(-1, keepdim=True)], on a tensor with at least one dimension
    (a tensor without dimensions is not modelled and is refused here) *)
Definition mean_last (x : tensor R) : result (tensor R) :=
  match shape x with
  | [] => Raise IndexError
  | _ =>
      let n := last_dim (shape x) in
      Ok (Tensor (removelast (shape x) ++ [1%nat])
            (fun idx => sum_upto n (fun k => get x (row_of idx k)) / INR n))
  end.

(** [x.std(-1, keepdim=True)]: the unbiased estimate, dividing by [n - 1],
    on a tensor with at least one dimension.  For a single feature the
    library returns NaN, where the division by 0 gives 0 here. *)
Definition std_last (x : tensor R) : result (tensor R) :=
  match shape x with
  | [] => Raise IndexError
  | _ =>
      let n := last_dim (shape x) in
      Ok (Tensor (removelast (shape x) ++ [1%nat])
            (fun idx =>
               let mu := sum_upto n (fun k => get x (row_of idx k)) / INR n in
               sqrt (sum_upto n (fun k => (get x (row_of idx k) - mu) ^ 2)
                     / (INR n - 1))))
  end.

Definition relu (x : tensor R) : tensor R := tmap (fun v => Rmax v 0) x.

(** All the indices of a shape, in row-major order. *)
Fixpoint indices (s : list nat) : list index :=
  match s with
  | [] => [[]]
  | d :: s' => flat_map (fun i => map (cons i) (indices s')) (seq 0 d)
  end.

End Torch.

(** ** The transformer notebook *)

Import Torch.
Open Scope R_scope.
Open Scope monad_scope.

(** The state of the library's random generator: the stream of keep/drop
    decisions that the coming dropout calls will draw, one mask per call.
    A mask stands for any outcome of the independent draws. *)
Definition rng : Type := nat -> index -> bool.

Definition draw_mask : M rng (index -> bool) :=
  fun g => Ok (g 0%nat, fun k => g (S k)).

(** Values for the randomly initialised parameters, by the path of the
    parameter in the module tree. *)
Definition params : Type := list nat -> index -> R.

Definition child (theta : params) (k : nat) : params :=
  fun path => theta (k :: path).

(** [l[i]] on a Python list or a [ModuleList], for [i >= 0]. *)
Definition getitem {A} (l : list A) (i : nat) : result A :=
  match nth_error l i with
  | Some a => Ok a
  | None => Raise IndexError
  end.

(** A tensor dimension given as a Python integer. *)
Definition dim_of (n : Z) : result nat :=
  if (n <? 0)%Z then Raise RuntimeError else Ok (Z.to_nat n).

(** [torch.nn.Dropout]: in training mode an entry is zeroed or scaled by
    [1 / (1 - p)]; in evaluation mode the input is returned.  The library
    refuses a rate [p] outside [[0, 1]] with [ValueError] when the module
    is built; [init] does not check the rate, and stands for the
    constructor on the rates that it accepts. *)
Module Dropout.

Record t : Type := Make { p : R; training : bool }.

Definition init (p : R) : t := Make p true.

Definition forward (self : t) (x : tensor R) : M rng (tensor R) :=
  if training self then
    keep <- draw_mask ;;
    ret (Tensor (shape x)
           (fun idx => if keep idx : bool then get x idx / (1 - p self) else 0))
  else ret x.

(** [module.train(mode)] sets the mode of a module and of all the modules
    inside it. *)
Definition train (mode : bool) (self : t) : t := Make (p self) mode.

End Dropout.

(** [torch.nn.Linear]: [x @ weight.T + bias] over the last dimension. *)
Module Linear.

Record t : Type := Make { weight : tensor R; bias : tensor R }.

Definition init (theta : params) (in_features out_features : Z) : result t :=
  match dim_of in_features, dim_of out_features with
  | Ok i, Ok o =>
      Ok (Make (Tensor [o; i] (theta [0%nat])) (Tensor [o] (theta [1%nat])))
  | _, _ => Raise RuntimeError
  end.

Definition forward (self : t) (x : tensor R) : result (tensor R) :=
  match shape x, shape (weight self) with
  | _ :: _, [o; i] =>
      if (last_dim (shape x) =? i)%nat then
        Ok (Tensor (removelast (shape x) ++ [o])
              (fun idx =>
                 sum_upto i (fun k => get x (row_of idx k) *
                                      get (weight self) [last idx 0%nat; k])
                 + get (bias self) [last idx 0%nat]))
      else Raise RuntimeError
  | _, _ => Raise RuntimeError
  end.

(** The Glorot re-initialisation at the end of [build_model] touches the
    parameters with more than one dimension. *)
Definition xavier (xi : params) (self : t) : t :=
  Make (Tensor (shape (weight self)) (xi [0%nat])) (bias self).

End Linear.

(** [torch.nn.Embedding]: row [x[i]] of the table for every token.  A
    token outside the table is an [IndexError]; on an empty table the
    library reports a [RuntimeError] instead, which is not modelled. *)
Module Embedding.

Record t : Type := Make { weight : tensor R }.

Definition init (theta : params) (num_embeddings embedding_dim : Z) : result t :=
  match dim_of num_embeddings, dim_of embedding_dim with
  | Ok n, Ok d => Ok (Make (Tensor [n; d] (theta [0%nat])))
  | _, _ => Raise RuntimeError
  end.

Definition forward (self : t) (x : tensor Z) : result (tensor R) :=
  match shape (weight self) with
  | [n; d] =>
      if forallb (fun idx => (0 <=? get x idx)%Z && (get x idx <? Z.of_nat n)%Z)
                 (indices (shape x))
      then Ok (Tensor (shape x ++ [d])
                 (fun idx => get (weight self)
                               [Z.to_nat (get x (removelast idx)); last idx 0%nat]))
      else Raise IndexError
  | _ => Raise RuntimeError
  end.

Definition xavier (xi : params) (self : t) : t :=
  Make (Tensor (shape (weight self)) (xi [0%nat])).

End Embedding.

(** [clones(module, n)]: [n] deep copies of [module]. *)
Definition clones {A} (module : A) (n : Z) : list A :=
  repeat module (Z.to_nat n).

(** *** Scaled dot-product attention *)

Definition attention (query key value : tensor R) (mask : option (tensor bool))
    (dropout : option Dropout.t) : M rng (tensor R * tensor R) :=
  d_k <- lift (size query (-1)) ;;
  kt <- lift (transpose key (-2) (-1)) ;;
  qk <- lift (matmul query kt) ;;
  let scores := div_scalar qk (sqrt (INR d_k)) in
  scores <- match mask with
            | Some mask => lift (masked_fill scores (eq0 mask) (-1e9))
            | None => ret scores
            end ;;
  let p_attn := softmax scores in
  p_attn <- match dropout with
            | Some dropout => Dropout.forward dropout p_attn
            | None => ret p_attn
            end ;;
  out <- lift (matmul p_attn value) ;;
  ret (out, p_attn).

(** *** Multi-head attention *)

Module MultiHeadedAttention.

Record t : Type := Make {
  d_k : Z;
  h : Z;
  fc_layers : list Linear.t;
  attn : option (tensor R);
  dropout : Dropout.t
}.

Definition init (theta : params) (h d_model : Z) (dropout : R) : result t :=
  if (h =? 0)%Z then Raise ZeroDivisionError
  else if negb (d_model mod h =? 0)%Z then Raise AssertionError
  else
    let d_k := (d_model / h)%Z in
    match Linear.init theta d_model d_model with
    | Ok l => Ok (Make d_k h (clones l 4) None (Dropout.init dropout))
    | Raise e => Raise e
    end.

(** Returns the output together with the module, whose [attn] now holds the
    weights of this call. *)
Definition forward (self : t) (query key value : tensor R)
    (mask : option (tensor bool)) : M rng (tensor R * t) :=
  mask <- match mask with
          | Some mask => m <- lift (unsqueeze mask 1) ;; ret (Some m)
          | None => ret None
          end ;;
  batch_samples <- lift (size query 0) ;;
  projections <-
    for_each (combine (fc_layers self) [query; key; value])
      (fun lx projections =>
         let '(l, x) := lx in
         y <- lift (Linear.forward l x) ;;
         y <- lift (view y [Z.of_nat batch_samples; -1; h self; d_k self]%Z) ;;
         y <- lift (transpose y 1 2) ;;
         ret (projections ++ [y]))
      [] ;;
  match projections with
  | [query; key; value] =>
      '(x, attn) <- attention query key value mask (Some (dropout self)) ;;
      x <- lift (transpose x 1 2) ;;
      x <- lift (view (contiguous x)
                      [Z.of_nat batch_samples; -1; h self * d_k self]%Z) ;;
      last_layer <- lift (match rev (fc_layers self) with
                          | l :: _ => Ok l
                          | [] => Raise IndexError
                          end) ;;
      y <- lift (Linear.forward last_layer x) ;;
      ret (y, Make (d_k self) (h self) (fc_layers self) (Some attn) (dropout self))
  | _ => raise RuntimeError
  end.

Definition xavier (xi : params) (self : t) : t :=
  Make (d_k self) (h self)
       (map (fun kl => Linear.xavier (child xi (fst kl)) (snd kl))
            (combine (seq 0 (length (fc_layers self))) (fc_layers self)))
       (attn self) (dropout self).

Definition train (mode : bool) (self : t) : t :=
  Make (d_k self) (h self) (fc_layers self) (attn self)
       (Dropout.train mode (dropout self)).

End MultiHeadedAttention.

(** *** Feed-forward network, embeddings, normalisation, residual wrapper *)

Module PositionwiseFFN.

Record t : Type := Make { w_1 : Linear.t; w_2 : Linear.t; dropout : Dropout.t }.

Definition init (theta : params) (d_model d_ff : Z) (dropout : R) : result t :=
  match Linear.init (child theta 0) d_model d_ff,
        Linear.init (child theta 1) d_ff d_model with
  | Ok w_1, Ok w_2 => Ok (Make w_1 w_2 (Dropout.init dropout))
  | Raise e, _ => Raise e
  | _, Raise e => Raise e
  end.

Definition forward (self : t) (x : tensor R) : M rng (tensor R) :=
  y <- lift (Linear.forward (w_1 self) x) ;;
  y <- Dropout.forward (dropout self) (relu y) ;;
  lift (Linear.forward (w_2 self) y).

Definition xavier (xi : params) (self : t) : t :=
  Make (Linear.xavier (child xi 0) (w_1 self))
       (Linear.xavier (child xi 1) (w_2 self)) (dropout self).

Definition train (mode : bool) (self : t) : t :=
  Make (w_1 self) (w_2 self) (Dropout.train mode (dropout self)).

End PositionwiseFFN.

Module Embeddings.

Record t : Type := Make { lut : Embedding.t; d_model : Z }.

Definition init (theta : params) (d_model vocab_size : Z) : result t :=
  match Embedding.init theta vocab_size d_model with
  | Ok lut => Ok (Make lut d_model)
  | Raise e => Raise e
  end.

Definition forward (self : t) (x : tensor Z) : result (tensor R) :=
  match Embedding.forward (lut self) x with
  | Ok y => Ok (mul_scalar y (sqrt (IZR (d_model self))))
  | Raise e => Raise e
  end.

Definition xavier (xi : params) (self : t) : t :=
  Make (Embedding.xavier xi (lut self)) (d_model self).

End Embeddings.

Module LayerNorm.

Record t : Type := Make { a_2 : tensor R; b_2 : tensor R; eps : R }.

Definition init (features : Z) (eps : R) : result t :=
  match dim_of features with
  | Ok n => Ok (Make (ones [n]) (zeros [n]) eps)
  | Raise e => Raise e
  end.

Definition forward (self : t) (x : tensor R) : result (tensor R) :=
  match mean_last x with
  | Raise e => Raise e
  | Ok mean =>
  match std_last x with
  | Raise e => Raise e
  | Ok std =>
  match sub x mean with
  | Raise e => Raise e
  | Ok centred =>
  match mul (a_2 self) centred with
  | Raise e => Raise e
  | Ok scaled =>
  match div scaled (add_scalar std (eps self)) with
  | Raise e => Raise e
  | Ok normed => add normed (b_2 self)
  end end end end end.

End LayerNorm.

Module SublayerConnection.

Record t : Type := Make { norm : LayerNorm.t; dropout : Dropout.t }.

Definition init (size : Z) (dropout : R) : result t :=
  match LayerNorm.init size 1e-6 with
  | Ok norm => Ok (Make norm (Dropout.init dropout))
  | Raise e => Raise e
  end.

Definition forward (self : t) (x : tensor R)
    (sublayer : tensor R -> M rng (tensor R)) : M rng (tensor R) :=
  n <- lift (LayerNorm.forward (norm self) x) ;;
  s <- sublayer n ;;
  d <- Dropout.forward (dropout self) s ;;
  lift (add x d).

Definition train (mode : bool) (self : t) : t :=
  Make (norm self) (Dropout.train mode (dropout self)).

End SublayerConnection.

Module PositionalEncoding.

Record t : Type := Make { dropout : Dropout.t; pe : tensor R }.

(** The table has [sin] in the even columns and [cos] in the odd ones.  The
    assignment to the odd columns fails when their number differs from the
    number of frequencies, that is for an odd [d_model] other than 1. *)
Definition init (d_model : Z) (dropout : R) (max_len : Z) : result t :=
  match dim_of max_len, dim_of d_model with
  | Ok l, Ok d =>
      if (d =? 0)%nat then Raise ZeroDivisionError
      else if Nat.odd d && negb (d =? 1)%nat then Raise RuntimeError
      else
        let div_term (i : nat) := exp (INR (2 * i) * - (ln 10000 / INR d)) in
        Ok (Make (Dropout.init dropout)
              (Tensor [1%nat; l; d]
                 (fun idx =>
                    let position := INR (nth 1 idx 0%nat) in
                    let c := nth 2 idx 0%nat in
                    if Nat.even c then sin (position * div_term (c / 2)%nat)
                    else cos (position * div_term (c / 2)%nat))))
  | _, _ => Raise RuntimeError
  end.

Definition forward (self : t) (x : tensor R) : M rng (tensor R) :=
  n <- lift (size x 1) ;;
  s <- lift (slice1_to (pe self) n) ;;
  x <- lift (add x s) ;;
  Dropout.forward (dropout self) x.

Definition train (mode : bool) (self : t) : t :=
  Make (Dropout.train mode (dropout self)) (pe self).

End PositionalEncoding.

(** *** Encoder and decoder *)

Module EncoderBlock.

Record t : Type := Make {
  self_attn : MultiHeadedAttention.t;
  ffn : PositionwiseFFN.t;
  sublayers : list SublayerConnection.t;
  size : Z
}.

Definition init (size : Z) (self_attn : MultiHeadedAttention.t)
    (ffn : PositionwiseFFN.t) (dropout : R) : result t :=
  match SublayerConnection.init size dropout with
  | Ok s => Ok (Make self_attn ffn (clones s 2) size)
  | Raise e => Raise e
  end.

(** The weights that the attention module keeps in [attn] are never read by
    a forward pass, so the updated module is dropped here. *)
Definition forward (self : t) (x : tensor R) (mask : option (tensor bool))
  : M rng (tensor R) :=
  s0 <- lift (getitem (sublayers self) 0) ;;
  x <- SublayerConnection.forward s0 x
         (fun x => r <- MultiHeadedAttention.forward (self_attn self) x x x mask ;;
                   ret (fst r)) ;;
  s1 <- lift (getitem (sublayers self) 1) ;;
  SublayerConnection.forward s1 x (PositionwiseFFN.forward (ffn self)).

Definition xavier (xi : params) (self : t) : t :=
  Make (MultiHeadedAttention.xavier (child xi 0) (self_attn self))
       (PositionwiseFFN.xavier (child xi 1) (ffn self))
       (sublayers self) (size self).

Definition train (mode : bool) (self : t) : t :=
  Make (MultiHeadedAttention.train mode (self_attn self))
       (PositionwiseFFN.train mode (ffn self))
       (map (SublayerConnection.train mode) (sublayers self)) (size self).

End EncoderBlock.

Module Encoder.

Record t : Type := Make { blocks : list EncoderBlock.t; norm : LayerNorm.t }.

Definition init (block : EncoderBlock.t) (N : Z) : result t :=
  match LayerNorm.init (EncoderBlock.size block) 1e-6 with
  | Ok norm => Ok (Make (clones block N) norm)
  | Raise e => Raise e
  end.

Definition forward (self : t) (x : tensor R) (mask : option (tensor bool))
  : M rng (tensor R) :=
  x <- for_each (blocks self) (fun layer x => EncoderBlock.forward layer x mask) x ;;
  lift (LayerNorm.forward (norm self) x).

Definition xavier (xi : params) (self : t) : t :=
  Make (map (fun kb => EncoderBlock.xavier (child xi (fst kb)) (snd kb))
            (combine (seq 0 (length (blocks self))) (blocks self)))
       (norm self).

Definition train (mode : bool) (self : t) : t :=
  Make (map (EncoderBlock.train mode) (blocks self)) (norm self).

End Encoder.

Module DecoderBlock.

Record t : Type := Make {
  size : Z;
  self_attn : MultiHeadedAttention.t;
  encoder_attn : MultiHeadedAttention.t;
  ffn : PositionwiseFFN.t;
  sublayers : list SublayerConnection.t
}.

Definition init (size : Z) (self_attn encoder_attn : MultiHeadedAttention.t)
    (ffn : PositionwiseFFN.t) (dropout : R) : result t :=
  match SublayerConnection.init size dropout with
  | Ok s => Ok (Make size self_attn encoder_attn ffn (clones s 3))
  | Raise e => Raise e
  end.

Definition forward (self : t) (x encoder_states : tensor R)
    (source_mask target_mask : option (tensor bool)) : M rng (tensor R) :=
  s0 <- lift (getitem (sublayers self) 0) ;;
  x <- SublayerConnection.forward s0 x
         (fun x => r <- MultiHeadedAttention.forward (self_attn self)
                          x x x target_mask ;;
                   ret (fst r)) ;;
  s1 <- lift (getitem (sublayers self) 1) ;;
  x <- SublayerConnection.forward s1 x
         (fun x => r <- MultiHeadedAttention.forward (encoder_attn self)
                          x encoder_states encoder_states source_mask ;;
                   ret (fst r)) ;;
  s2 <- lift (getitem (sublayers self) 2) ;;
  SublayerConnection.forward s2 x (PositionwiseFFN.forward (ffn self)).

Definition xavier (xi : params) (self : t) : t :=
  Make (size self)
       (MultiHeadedAttention.xavier (child xi 0) (self_attn self))
       (MultiHeadedAttention.xavier (child xi 1) (encoder_attn self))
       (PositionwiseFFN.xavier (child xi 2) (ffn self))
       (sublayers self).

Definition train (mode : bool) (self : t) : t :=
  Make (size self)
       (MultiHeadedAttention.train mode (self_attn self))
       (MultiHeadedAttention.train mode (encoder_attn self))
       (PositionwiseFFN.train mode (ffn self))
       (map (SublayerConnection.train mode) (sublayers self)).

End DecoderBlock.

Module Decoder.

Record t : Type := Make {
  blocks : list DecoderBlock.t;
  norm : LayerNorm.t;
  projection : Linear.t
}.

Definition init (theta : params) (block : DecoderBlock.t) (N vocab_size : Z)
  : result t :=
  match LayerNorm.init (DecoderBlock.size block) 1e-6,
        Linear.init theta (DecoderBlock.size block) vocab_size with
  | Ok norm, Ok projection => Ok (Make (clones block N) norm projection)
  | Raise e, _ => Raise e
  | _, Raise e => Raise e
  end.

Definition forward (self : t) (x encoder_states : tensor R)
    (source_mask target_mask : option (tensor bool)) : M rng (tensor R) :=
  x <- for_each (blocks self)
         (fun layer x =>
            DecoderBlock.forward layer x encoder_states source_mask target_mask)
         x ;;
  x <- lift (LayerNorm.forward (norm self) x) ;;
  y <- lift (Linear.forward (projection self) x) ;;
  ret (log_softmax y).

Definition xavier (xi : params) (self : t) : t :=
  Make (map (fun kb => DecoderBlock.xavier (child xi (S (fst kb))) (snd kb))
            (combine (seq 0 (length (blocks self))) (blocks self)))
       (norm self)
       (Linear.xavier (child xi 0) (projection self)).

Definition train (mode : bool) (self : t) : t :=
  Make (map (DecoderBlock.train mode) (blocks self)) (norm self)
       (projection self).

End Decoder.

Module EncoderDecoder.

(** An embedding followed by the positional encoding
    ([torch.nn.Sequential]). *)
Definition embed : Type := (Embeddings.t * PositionalEncoding.t)%type.

Definition embed_forward (e : embed) (x : tensor Z) : M rng (tensor R) :=
  y <- lift (Embeddings.forward (fst e) x) ;;
  PositionalEncoding.forward (snd e) y.

Record t : Type := Make {
  encoder : Encoder.t;
  decoder : Decoder.t;
  source_embeddings : embed;
  target_embeddings : embed
}.

Definition forward (self : t) (source target : tensor Z)
    (source_mask target_mask : option (tensor bool)) : M rng (tensor R) :=
  s <- embed_forward (source_embeddings self) source ;;
  encoder_output <- Encoder.forward (encoder self) s source_mask ;;
  x <- embed_forward (target_embeddings self) target ;;
  Decoder.forward (decoder self) x encoder_output source_mask target_mask.

Definition xavier (xi : params) (self : t) : t :=
  Make (Encoder.xavier (child xi 0) (encoder self))
       (Decoder.xavier (child xi 1) (decoder self))
       (Embeddings.xavier (child xi 2) (fst (source_embeddings self)),
        snd (source_embeddings self))
       (Embeddings.xavier (child xi 3) (fst (target_embeddings self)),
        snd (target_embeddings self)).

Definition train (mode : bool) (self : t) : t :=
  Make (Encoder.train mode (encoder self))
       (Decoder.train mode (decoder self))
       (fst (source_embeddings self),
        PositionalEncoding.train mode (snd (source_embeddings self)))
       (fst (target_embeddings self),
        PositionalEncoding.train mode (snd (target_embeddings self))).

End EncoderDecoder.

(** [build_model]: [theta] gives the values that the constructors draw and
    [xi] those of the final Glorot pass over the matrices. *)
Definition build_model (theta xi : params)
    (source_vocabulary target_vocabulary N d_model d_ff h : Z) (dropout : R)
  : result EncoderDecoder.t :=
  attn <-- MultiHeadedAttention.init (child theta 0) h d_model 0.1 ;;
  ff <-- PositionwiseFFN.init (child theta 1) d_model d_ff dropout ;;
  position <-- PositionalEncoding.init d_model dropout 5000 ;;
  eb <-- EncoderBlock.init d_model attn ff dropout ;;
  enc <-- Encoder.init eb N ;;
  db <-- DecoderBlock.init d_model attn attn ff dropout ;;
  dec <-- Decoder.init (child theta 2) db N target_vocabulary ;;
  se <-- Embeddings.init (child theta 3) d_model source_vocabulary ;;
  te <-- Embeddings.init (child theta 4) d_model target_vocabulary ;;
  let model := EncoderDecoder.Make enc dec (se, position) (te, position) in
  Ok (EncoderDecoder.xavier xi model).

(** *** The causal mask of [RandomDataset] *)

(** [np.triu(m, k)] on a matrix: the entries below the [k]-th diagonal are
    zeroed. *)
Definition triu (m : tensor Z) (k : Z) : tensor Z :=
  Tensor (shape m)
    (fun idx =>
       let i := Z.of_nat (nth 0 idx 0%nat) in
       let j := Z.of_nat (nth 1 idx 0%nat) in
       if (k <=? j - i)%Z then get m idx else 0%Z).

Definition subsequent_mask (size : Z) : result (tensor bool) :=
  n <-- dim_of size ;;
  let attn_shape := [n; n] in
  let subsequent_mask := triu (full attn_shape 1%Z) 1 in
  Ok (tmap (fun v => (v =? 0)%Z) subsequent_mask).

(** ** The attention contract in the words of the specification

    Written entry by entry, without the tensor operations of the code.  An
    entry of the scores and of the weights is named by the batch entry [r]
    (the coordinates before the last two), the query position [i] and the
    key position [j].  The raw score is the dot product of row [i] of the
    query with row [j] of the key, scaled by [1 / sqrt d_k]; where the mask
    is false the score is the sentinel; the weights of a row are its scores
    normalised by the softmax in its max-subtraction form; the output is
    the sum of the values weighted by them. *)

(** The sum of [f 0 .. f (n-1)] and the largest of these (of no account
    when there is none). *)
Fixpoint sum_below (n : nat) (f : nat -> R) : R :=
  match n with
  | O => 0
  | S n' => sum_below n' f + f n'
  end.

Fixpoint max_below (n : nat) (f : nat -> R) : R :=
  match n with
  | O => 0
  | S O => f O
  | S n' => Rmax (max_below n' f) (f n')
  end.

(** The mask broadcasts to the shape [s] of the scores: aligned on the last
    dimension, each of its dimensions is that of the scores or 1. *)
Definition mask_broadcasts (s : list nat) (mask : option (tensor bool)) : Prop :=
  match mask with
  | Some m =>
      (length (shape m) <= length s)%nat /\
      Forall2 (fun dm ds => dm = ds \/ dm = 1%nat)
              (shape m) (skipn (length s - length (shape m)) s)
  | None => True
  end.

(** The entry of the mask for the position [idx] of the scores: a
    dimension of size 1 is repeated. *)
Definition mask_at (mask : tensor bool) (idx : index) : bool :=
  let aligned := skipn (length idx - length (shape mask)) idx in
  get mask (map (fun di => if (fst di =? 1)%nat then 0%nat else snd di)
                (combine (shape mask) aligned)).

(** The score of the key position [j] for the query position [i]. *)
Definition spec_scores (query key : tensor R) (d_k : nat)
    (mask : option (tensor bool)) (r : index) (i j : nat) : R :=
  let raw := sum_below d_k (fun c => get query (r ++ [i; c]) * get key (r ++ [j; c]))
             * (1 / sqrt (INR d_k)) in
  match mask with
  | Some m => if mask_at m (r ++ [i; j]) then raw else -1e9
  | None => raw
  end.

(** The weight of the key position [j] for the query position [i], over
    the [n_keys] key positions. *)
Definition spec_weights (query key : tensor R) (d_k n_keys : nat)
    (mask : option (tensor bool)) (r : index) (i j : nat) : R :=
  let s := spec_scores query key d_k mask r i in
  let m := max_below n_keys s in
  exp (s j - m) / sum_below n_keys (fun j' => exp (s j' - m)).

(** The entry [c] of the output for the query position [i]. *)
Definition spec_output (weights value : tensor R) (n_keys : nat)
    (r : index) (i c : nat) : R :=
  sum_below n_keys (fun j => get weights (r ++ [i; j]) * get value (r ++ [j; c])).

(** Every row of [w] (an index into all dimensions but the last) sums to 1
    over the last dimension. *)
Definition rows_sum_to_one (w : tensor R) : Prop :=
  forall r, In r (indices (removelast (shape w))) ->
            sum_upto (last_dim (shape w)) (fun j => get w (r ++ [j])) = 1.

(** ** Further notions of the specification *)

(** [d_model] is evenly divisible by the head count [h]. *)
Definition evenly_divisible (d_model h : Z) : Prop :=
  h <> 0%Z /\ (h | d_model)%Z.

(** Mean and (unbiased) standard deviation of [f 0 .. f (n-1)]. *)
Definition mean_of (n : nat) (f : nat -> R) : R := sum_upto n f / INR n.

Definition std_of (n : nat) (f : nat -> R) : R :=
  sqrt (sum_upto n (fun k => (f k - mean_of n f) ^ 2) / (INR n - 1)).

(** ** The random data set of the transformer notebook *)

From Stdlib Require String.
From Stdlib Require Import Permutation.
Import String.StringSyntax.
Delimit Scope string_scope with string.

(** [t != c] on a tensor of integers *)
Definition ne_scalar (t : tensor Z) (c : Z) : tensor bool :=
  tmap (fun v => negb (v =? c)%Z) t.

(** [a & b] on boolean tensors, with broadcasting *)
Definition logical_and (a b : tensor bool) : result (tensor bool) :=
  map2 andb a b.

(** [t[0] = v]: every entry whose first coordinate is 0. *)
Definition setitem0 {A} (t : tensor A) (v : A) : result (tensor A) :=
  match shape t with
  | n :: _ =>
      if (n =? 0)%nat then Raise IndexError
      else Ok (Tensor (shape t)
                 (fun idx => if (nth 0 idx 0 =? 0)%nat then v else get t idx))
  | [] => Raise IndexError
  end.

(** A bound of a Python slice over [n] elements: a negative bound counts
    from the end, and the result is clamped to [[0, n]]. *)
Definition slice_bound (n : nat) (i : Z) : nat :=
  let i' := (if i <? 0 then i + Z.of_nat n else i)%Z in
  Z.to_nat (Z.min (Z.max i' 0) (Z.of_nat n)).

(** [t[start:stop]] over the first dimension; a missing bound is [None]. *)
Definition slice0 {A} (t : tensor A) (start stop : option Z) : result (tensor A) :=
  match shape t with
  | n :: s =>
      let a := match start with Some i => slice_bound n i | None => 0%nat end in
      let b := match stop with Some i => slice_bound n i | None => n end in
      Ok (Tensor ((b - a)%nat :: s)
            (fun idx => get t ((a + nth 0 idx 0)%nat :: tl idx)))
  | [] => Raise IndexError
  end.

(** [t.sum()] on a boolean tensor: the number of true entries. *)
Definition count_true (t : tensor bool) : Z :=
  Z.of_nat (length (filter (get t) (indices (shape t)))).

(** [l[idx]] for a Python integer: a negative index counts from the end. *)
Definition getitem_int {A} (l : list A) (idx : Z) : result A :=
  let i := (if idx <? 0 then idx + Z.of_nat (length l) else idx)%Z in
  if (i <? 0)%Z then Raise IndexError else getitem l (Z.to_nat i).

Module RandomDataset.

(** The state of numpy's generator, as the stream of its raw draws. *)
Definition nprng : Type := nat -> nat.

(** [np.random.randint(low, high, size=(size,))]: [size] integers in
    [[low, high)].  A size of 0 gives the empty array before the bounds are
    looked at, and draws nothing; otherwise an empty range or a negative
    size raises [ValueError] (here [RuntimeError]). *)
Definition randint (low high size : Z) : M nprng (tensor Z) :=
  fun g =>
    if (size =? 0)%Z then Ok (Tensor [0%nat] (fun _ => 0%Z), g)
    else if ((high <=? low) || (size <? 0))%Z then Raise RuntimeError
    else
      let n := Z.to_nat size in
      Ok (Tensor [n]
            (fun idx => (low + Z.of_nat (g (nth 0 idx 0%nat)) mod (high - low))%Z),
          fun k => g (n + k)%nat).

(** [make_std_mask(target, pad)]: the padding mask of the target combined
    with the causal mask over its last dimension. *)
Definition make_std_mask (target : tensor Z) (pad : Z) : result (tensor bool) :=
  let target_mask := ne_scalar target pad in
  n <-- size target (-1) ;;
  m <-- subsequent_mask (Z.of_nat n) ;;
  logical_and target_mask m.

(** The values that a sample holds, and a sample as a Python [dict] with
    string keys: the entries in the order of their insertion.  A missing
    key raises [KeyError] (here [IndexError]). *)
Inductive value : Type :=
| Tokens (t : tensor Z)
| Mask (t : tensor bool)
| Count (n : Z).

Definition dict : Type := list (String.string * value).

Definition empty_dict : dict := [].

(** [d[k]] *)
Fixpoint lookup (d : dict) (k : String.string) : option value :=
  match d with
  | [] => None
  | (k', v) :: d' => if String.eqb k' k then Some v else lookup d' k
  end.

(** [d[k] = v]: the value of an existing key is replaced in place, a new
    key is added at the end. *)
Fixpoint setitem (d : dict) (k : String.string) (v : value) : dict :=
  match d with
  | [] => [(k, v)]
  | (k', v') :: d' =>
      if String.eqb k' k then (k', v) :: d' else (k', v') :: setitem d' k v
  end.

(** Dictionaries are objects: the heap holds them and the list of samples
    holds references to them. *)
Definition ref : Type := nat.
Definition heap : Type := list dict.

Definition alloc (d : dict) (h : heap) : ref * heap := (length h, h ++ [d]).

Definition deref (h : heap) (r : ref) : result dict := getitem h r.

(** [obj[k] = v] on the dictionary at [r] *)
Definition assign (h : heap) (r : ref) (k : String.string) (v : value)
  : result heap :=
  d <-- deref h r ;;
  Ok (firstn r h ++ setitem d k v :: skipn (S r) h).

(** [obj[k]] where a tensor of tokens is expected *)
Definition lookup_tokens (h : heap) (r : ref) (k : String.string)
  : result (tensor Z) :=
  d <-- deref h r ;;
  match lookup d k with
  | Some (Tokens t) => Ok t
  | Some _ => Raise RuntimeError
  | None => Raise IndexError
  end.

Record t : Type := Make { samples : list ref }.

(** One round of the loop of [__init__].  The dictionary [sample] was
    created once, before the loop: every round writes into it and appends
    the same reference. *)
Definition init_body (V sample_length : Z) (sample : ref) (i : nat)
    (st : list ref * heap) : M nprng (list ref * heap) :=
  let '(samples, h) := st in
  data <- randint 1 V sample_length ;;
  data <- lift (setitem0 data 1%Z) ;;
  let source := data in
  let target := data in
  h <- lift (assign h sample "source"%string (Tokens source)) ;;
  t <- lift (slice0 target None (Some (-1)%Z)) ;;
  h <- lift (assign h sample "target"%string (Tokens t)) ;;
  t <- lift (slice0 target (Some 1%Z) None) ;;
  h <- lift (assign h sample "target_y"%string (Tokens t)) ;;
  m <- lift (unsqueeze (ne_scalar source 0) (-2)) ;;
  h <- lift (assign h sample "source_mask"%string (Mask m)) ;;
  t <- lift (lookup_tokens h sample "target"%string) ;;
  m <- lift (make_std_mask t 0) ;;
  h <- lift (assign h sample "target_mask"%string (Mask m)) ;;
  t <- lift (lookup_tokens h sample "target_y"%string) ;;
  h <- lift (assign h sample "tokens_count"%string (Count (count_true (ne_scalar t 0)))) ;;
  ret (samples ++ [sample], h).

Definition init (V total_samples sample_length : Z) (h : heap)
  : M nprng (t * heap) :=
  let '(sample, h) := alloc empty_dict h in
  st <- for_each (range total_samples) (init_body V sample_length sample)
          ([], h) ;;
  ret (Make (fst st), snd st).

(** [__len__] and [__getitem__] *)
Definition len (self : t) : Z := Z.of_nat (length (samples self)).

Definition getitem (self : t) (idx : Z) : result ref :=
  getitem_int (samples self) idx.

(** What a sample made from the tokens [tok 0 .. tok (L-1)], none of them
    the padding token 0, holds under its six keys. *)
Definition is_sample (L : nat) (tok : nat -> Z) (d : dict) : Prop :=
  (exists t, lookup d "source"%string = Some (Tokens t) /\ shape t = [L] /\
             forall i, (i < L)%nat -> get t [i] = tok i) /\
  (exists t, lookup d "target"%string = Some (Tokens t) /\ shape t = [(L - 1)%nat] /\
             forall i, (i < L - 1)%nat -> get t [i] = tok i) /\
  (exists t, lookup d "target_y"%string = Some (Tokens t) /\ shape t = [(L - 1)%nat] /\
             forall i, (i < L - 1)%nat -> get t [i] = tok (S i)) /\
  (exists m, lookup d "source_mask"%string = Some (Mask m) /\ shape m = [1%nat; L] /\
             forall i, (i < L)%nat -> get m [0%nat; i] = true) /\
  (exists m, lookup d "target_mask"%string = Some (Mask m) /\
             shape m = [(L - 1)%nat; (L - 1)%nat] /\
             forall i j, (i < L - 1)%nat -> (j < L - 1)%nat ->
                         get m [i; j] = (j <=? i)%nat) /\
  lookup d "tokens_count"%string = Some (Count (Z.of_nat (L - 1))).

End RandomDataset.

(** The keys of a sample, in the order in which [__init__] writes them. *)
Definition sample_keys : list String.string :=
  ["source"; "target"; "target_y"; "source_mask"; "target_mask";
   "tokens_count"]%string.

(** ** The data loader

    [torch.utils.data.DataLoader(dataset, batch_size)] with its defaults:
    the items are taken in order, [batch_size] at a time (the last batch
    may be shorter), and the dictionaries of a batch are merged key by key
    ([default_collate]), stacking the tensors along a new first dimension.
    The loader is modelled by the list of the batches that it yields. *)

Fixpoint mapM {A B} (f : A -> result B) (l : list A) : result (list B) :=
  match l with
  | [] => Ok []
  | a :: l' =>
      match f a with
      | Ok b =>
          match mapM f l' with
          | Ok bs => Ok (b :: bs)
          | Raise e => Raise e
          end
      | Raise e => Raise e
      end
  end.

(** [torch.stack(ts)]: tensors of one shape along a new first dimension. *)
Definition stack {A} (ts : list (tensor A)) : result (tensor A) :=
  match ts with
  | [] => Raise RuntimeError
  | t0 :: _ =>
      if forallb (fun t => list_eqb (shape t) (shape t0)) ts then
        Ok (Tensor (length ts :: shape t0)
              (fun idx => get (nth (nth 0 idx 0%nat) ts t0) (tl idx)))
      else Raise RuntimeError
  end.

(** The values of one key over the samples of a batch, merged: tensors are
    stacked, and the token counts, tensors without dimension, become one
    vector.  Values of different kinds are refused. *)
Definition collate_values (vs : list RandomDataset.value)
  : result RandomDataset.value :=
  match vs with
  | [] => Raise IndexError
  | RandomDataset.Tokens _ :: _ =>
      ts <-- mapM (fun v => match v with
                            | RandomDataset.Tokens t => Ok t
                            | _ => Raise RuntimeError
                            end) vs ;;
      t <-- stack ts ;;
      Ok (RandomDataset.Tokens t)
  | RandomDataset.Mask _ :: _ =>
      ts <-- mapM (fun v => match v with
                            | RandomDataset.Mask t => Ok t
                            | _ => Raise RuntimeError
                            end) vs ;;
      t <-- stack ts ;;
      Ok (RandomDataset.Mask t)
  | RandomDataset.Count _ :: _ =>
      ns <-- mapM (fun v => match v with
                            | RandomDataset.Count n => Ok n
                            | _ => Raise RuntimeError
                            end) vs ;;
      Ok (RandomDataset.Tokens
            (Tensor [length ns] (fun idx => nth (nth 0 idx 0%nat) ns 0%Z)))
  end.

(** [default_collate] on a list of dictionaries: the keys are those of the
    first one. *)
Definition collate (batch : list RandomDataset.dict)
  : result RandomDataset.dict :=
  match batch with
  | [] => Raise IndexError
  | elem :: _ =>
      mapM (fun kv : String.string * RandomDataset.value =>
              vs <-- mapM (fun d => match RandomDataset.lookup d (fst kv) with
                                    | Some v => Ok v
                                    | None => Raise IndexError
                                    end) batch ;;
              v <-- collate_values vs ;;
              Ok (fst kv, v))
           elem
  end.

(** [l] cut into pieces of [b] elements; [fuel] bounds the number of
    pieces. *)
Fixpoint chunks {A} (fuel b : nat) (l : list A) : list (list A) :=
  match fuel, l with
  | _, [] => []
  | O, _ => []
  | S fuel', _ => firstn b l :: chunks fuel' b (skipn b l)
  end.

(** The batches of a loader over [dataset]; the heap gives the
    dictionaries that the items refer to.  A batch size of 0 is refused
    ([ValueError], here [RuntimeError]). *)
Definition data_loader (dataset : RandomDataset.t) (h : RandomDataset.heap)
    (batch_size : nat) : result (list RandomDataset.dict) :=
  if (batch_size =? 0)%nat then Raise RuntimeError
  else
    let n := Z.to_nat (RandomDataset.len dataset) in
    mapM (fun indices =>
            samples <-- mapM (fun i =>
                                r <-- RandomDataset.getitem dataset (Z.of_nat i) ;;
                                RandomDataset.deref h r) indices ;;
            collate samples)
         (chunks n batch_size (seq 0 n)).

(** ** Training the transformer *)

(** [batch[k]] on a batch, a dictionary of tensors *)
Definition dict_tokens (d : RandomDataset.dict) (k : String.string)
  : result (tensor Z) :=
  match RandomDataset.lookup d k with
  | Some (RandomDataset.Tokens t) => Ok t
  | Some _ => Raise RuntimeError
  | None => Raise IndexError
  end.

Definition dict_mask (d : RandomDataset.dict) (k : String.string)
  : result (tensor bool) :=
  match RandomDataset.lookup d k with
  | Some (RandomDataset.Mask t) => Ok t
  | Some _ => Raise RuntimeError
  | None => Raise IndexError
  end.

(** [torch.nn.CrossEntropyLoss()] on scores of shape [[n; c]] and classes of
    shape [[n]]: the mean, over the rows whose class is not the ignored
    index -100, of minus the log-softmax of the row at its class.  (The
    mean over no row is NaN, which real numbers do not have.) *)
Definition cross_entropy_loss (input : tensor R) (target : tensor Z)
  : result R :=
  match shape input, shape target with
  | [n; c], [n'] =>
      if negb (n =? n')%nat then Raise RuntimeError
      else
        let kept := filter (fun i => negb (get target [i] =? -100)%Z) (seq 0 n) in
        if forallb (fun i => (0 <=? get target [i])%Z &&
                             (get target [i] <? Z.of_nat c)%Z) kept
        then Ok (fold_right Rplus 0
                   (map (fun i => - get (log_softmax input)
                                      [i; Z.to_nat (get target [i])]) kept)
                 / INR (length kept))
        else Raise IndexError
  | _, _ => Raise RuntimeError
  end.

Module Training.

Definition get_state {S} : M S S := fun s => Ok (s, s).

Section TrainModel.

(** The loss function is an argument of [train_model].  So is the
    optimizer, whose inner state has some type [O]: one call of
    [loss.backward(); optimizer.step(); optimizer.zero_grad()] gives the
    new optimizer state and the new parameters from what the round has
    seen, the model, the batch and the dropout draws. *)
Variable O : Type.
Variable loss_function : tensor R -> tensor Z -> result R.
Variable optimizer_step :
  O -> EncoderDecoder.t -> RandomDataset.dict -> rng -> O * EncoderDecoder.t.

(** The variables of the loop, and the lines printed so far: the batch
    number and the average loss. *)
Record state : Type := State {
  model : EncoderDecoder.t;
  optimizer : O;
  current_loss : R;
  counter : Z;
  printed : list (Z * R)
}.

Definition train_body (ib : nat * RandomDataset.dict) (st : state)
  : M rng state :=
  let '(i, batch) := ib in
  g <- get_state ;;
  source <- lift (dict_tokens batch "source"%string) ;;
  target <- lift (dict_tokens batch "target"%string) ;;
  source_mask <- lift (dict_mask batch "source_mask"%string) ;;
  target_mask <- lift (dict_mask batch "target_mask"%string) ;;
  out <- EncoderDecoder.forward (model st) source target
           (Some source_mask) (Some target_mask) ;;
  classes <- lift (size out (-1)) ;;
  scores <- lift (view (contiguous out) [-1; Z.of_nat classes]%Z) ;;
  target_y <- lift (dict_tokens batch "target_y"%string) ;;
  expected <- lift (view (contiguous target_y) [-1]%Z) ;;
  loss <- lift (loss_function scores expected) ;;
  let '(optimizer', model') := optimizer_step (optimizer st) (model st) batch g in
  let current_loss := current_loss st + loss in
  let counter := (counter st + 1)%Z in
  if (counter mod 5 =? 0)%Z then
    ret (State model' optimizer' 0 0
           (printed st ++ [((Z.of_nat i + 1)%Z, current_loss / IZR counter)]))
  else
    ret (State model' optimizer' current_loss counter (printed st)).

Definition train_model (model : EncoderDecoder.t) (optimizer : O)
    (data_loader : list RandomDataset.dict) : M rng state :=
  let model := EncoderDecoder.train true model in
  let current_loss := 0 in
  let counter := 0%Z in
  for_each (combine (seq 0 (length data_loader)) data_loader) train_body
    (State model optimizer current_loss counter []).

End TrainModel.

End Training.

(** ** The siamese network

    The layers of [tf.keras] that the notebook uses, on batches of
    samples.  The parameters of the layer at position [k] of a network with
    parameters [w] are [child w k]: kernel [child w k [0]] and bias
    [child w k [1]]. *)

Module SiameseNet.

Definition sigmoid (x : R) : R := 1 / (1 + exp (- x)).

Definition relu (x : R) : R := Rmax x 0.

Inductive layer : Type :=
| Flatten
| Dense (units : nat) (activation : R -> R)
| Dropout (rate : R).

(** [Flatten]: the dimensions after the first become one, in row-major
    order. *)
Definition flatten (x : tensor R) : result (tensor R) :=
  match shape x with
  | n :: s =>
      Ok (Tensor [n; numel s]
            (fun idx => get x (nth 0 idx 0%nat :: unflatten_index s (nth 1 idx 0%nat))))
  | [] => Raise RuntimeError
  end.

(** [Dense(units, activation)]: [activation (x @ kernel + bias)] over the
    last dimension of an input with at least two dimensions. *)
Definition dense (w : params) (units : nat) (activation : R -> R)
    (x : tensor R) : result (tensor R) :=
  match shape x with
  | _ :: _ :: _ =>
      Ok (Tensor (removelast (shape x) ++ [units])
            (fun idx =>
               activation
                 (sum_upto (last_dim (shape x))
                    (fun k => get x (row_of idx k) * w [0%nat] [k; last idx 0%nat])
                  + w [1%nat] [last idx 0%nat])))
  | _ => Raise RuntimeError
  end.

Definition apply_layer (w : params) (training : bool) (l : layer)
    (x : tensor R) : M rng (tensor R) :=
  match l with
  | Flatten => lift (flatten x)
  | Dense units activation => lift (dense w units activation x)
  | Dropout rate => Dropout.forward (Dropout.Make rate training) x
  end.

(** [Sequential(layers)(x)], the layers counted from [k]. *)
Fixpoint sequential (w : params) (training : bool) (k : nat)
    (layers : list layer) (x : tensor R) : M rng (tensor R) :=
  match layers with
  | [] => ret x
  | l :: layers' =>
      y <- apply_layer (child w k) training l x ;;
      sequential w training (S k) layers' y
  end.

Definition create_base_network : list layer :=
  [Flatten; Dense 128 relu; Dropout 0.1; Dense 128 relu; Dropout 0.1;
   Dense 64 relu].

(** The model of the notebook on two batches of samples of shape
    [input_shape]: both go through the one base network (parameters
    [child w 0]), and the absolute differences of the two encodings through
    a dense layer with one sigmoid unit (parameters [child w 1]).  Batches
    of other sample shapes are refused ([ValueError], here
    [RuntimeError]).  Only two batches of the same size are modelled: a
    batch of one against a larger one, which a direct call broadcasts, is
    refused here. *)
Definition model (w : params) (input_shape : list nat) (training : bool)
    (input_a input_b : tensor R) : M rng (tensor R) :=
  match shape input_a, shape input_b with
  | na :: sa, nb :: sb =>
      if list_eqb sa input_shape && list_eqb sb input_shape && (na =? nb)%nat
      then
        encoder_a <- sequential (child w 0) training 0 create_base_network input_a ;;
        encoder_b <- sequential (child w 0) training 0 create_base_network input_b ;;
        d <- lift (sub encoder_a encoder_b) ;;
        let l1_dist := tmap Rabs d in
        lift (dense (child w 1) 1 sigmoid l1_dist)
      else raise RuntimeError
  | _, _ => raise RuntimeError
  end.

End SiameseNet.

(** ** Vocabulary for the properties of the modules *)

(** A computation that returns from every state, with a result in [P]. *)
Definition runs {S A} (m : M S A) (P : A -> Prop) : Prop :=
  forall s, exists a s', m s = Ok (a, s') /\ P a.

(** A computation that neither reads nor changes the state. *)
Definition stateless {S A} (m : M S A) : Prop :=
  exists r : result A, forall s, m s = lift r s.

(** A mask with three dimensions that, once the dimension of the heads is
    inserted, broadcasts to scores of [b] samples, [nq] query positions and
    [nk] key positions. *)
Definition mask_fits (b nq nk : nat) (mask : option (tensor bool)) : Prop :=
  match mask with
  | None => True
  | Some m =>
      exists b' q' k',
        shape m = [b'; q'; k'] /\ (b' = b \/ b' = 1%nat) /\
        (q' = nq \/ q' = 1%nat) /\ (k' = nk \/ k' = 1%nat)
  end.

(** The shapes of the parameters of the modules. *)
Definition linear_shape (i o : nat) (l : Linear.t) : Prop :=
  shape (Linear.weight l) = [o; i].

Definition mha_shape (h d_k : nat) (m : MultiHeadedAttention.t) : Prop :=
  MultiHeadedAttention.h m = Z.of_nat h /\
  MultiHeadedAttention.d_k m = Z.of_nat d_k /\
  (0 < h)%nat /\ (0 < d_k)%nat /\
  length (MultiHeadedAttention.fc_layers m) = 4%nat /\
  Forall (linear_shape (h * d_k) (h * d_k)) (MultiHeadedAttention.fc_layers m).

Definition ffn_shape (d d_ff : nat) (f : PositionwiseFFN.t) : Prop :=
  linear_shape d d_ff (PositionwiseFFN.w_1 f) /\
  linear_shape d_ff d (PositionwiseFFN.w_2 f).

Definition norm_shape (d : nat) (n : LayerNorm.t) : Prop :=
  shape (LayerNorm.a_2 n) = [d] /\ shape (LayerNorm.b_2 n) = [d].

Definition sublayers_shape (d k : nat) (l : list SublayerConnection.t) : Prop :=
  length l = k /\ Forall (fun s => norm_shape d (SublayerConnection.norm s)) l.

Definition encoder_block_shape (h d_k d_ff : nat) (b : EncoderBlock.t) : Prop :=
  mha_shape h d_k (EncoderBlock.self_attn b) /\
  ffn_shape (h * d_k) d_ff (EncoderBlock.ffn b) /\
  sublayers_shape (h * d_k) 2 (EncoderBlock.sublayers b).

Definition decoder_block_shape (h d_k d_ff : nat) (b : DecoderBlock.t) : Prop :=
  mha_shape h d_k (DecoderBlock.self_attn b) /\
  mha_shape h d_k (DecoderBlock.encoder_attn b) /\
  ffn_shape (h * d_k) d_ff (DecoderBlock.ffn b) /\
  sublayers_shape (h * d_k) 3 (DecoderBlock.sublayers b).

Definition encoder_shape (h d_k d_ff : nat) (e : Encoder.t) : Prop :=
  Forall (encoder_block_shape h d_k d_ff) (Encoder.blocks e) /\
  norm_shape (h * d_k) (Encoder.norm e).

Definition decoder_shape (h d_k d_ff v : nat) (d : Decoder.t) : Prop :=
  Forall (decoder_block_shape h d_k d_ff) (Decoder.blocks d) /\
  norm_shape (h * d_k) (Decoder.norm d) /\
  linear_shape (h * d_k) v (Decoder.projection d).

Definition embed_shape (d v l : nat) (e : EncoderDecoder.embed) : Prop :=
  shape (Embedding.weight (Embeddings.lut (fst e))) = [v; d] /\
  shape (PositionalEncoding.pe (snd e)) = [1%nat; l; d].

Definition model_shape (h d_k d_ff vs vt l : nat) (m : EncoderDecoder.t) : Prop :=
  encoder_shape h d_k d_ff (EncoderDecoder.encoder m) /\
  decoder_shape h d_k d_ff vt (EncoderDecoder.decoder m) /\
  embed_shape (h * d_k) vs l (EncoderDecoder.source_embeddings m) /\
  embed_shape (h * d_k) vt l (EncoderDecoder.target_embeddings m).

(** Every token of [x] is in a vocabulary of size [v]. *)
Definition in_vocabulary (v : nat) (x : tensor Z) : Prop :=
  forall idx, Forall2 lt idx (shape x) -> (0 <= get x idx < Z.of_nat v)%Z.

(** ** The module tree of [build_model]

    What [build_model] returns for arguments that it accepts, written out
    before the Glorot pass: the lemma [build_model_result] derives it from
    the constructors.  Every attention module is a copy of one module, and
    so are the feed-forward networks and the residual wrappers. *)
Definition linear_of (theta : params) (i o : nat) : Linear.t :=
  Linear.Make (Tensor [o; i] (theta [0%nat])) (Tensor [o] (theta [1%nat])).

Definition built_model (theta : params) (vs vt N d_model d_ff h : Z)
    (dropout : R) (position : PositionalEncoding.t) : EncoderDecoder.t :=
  let d := Z.to_nat d_model in
  let attn :=
    MultiHeadedAttention.Make (d_model / h) h
      (clones (linear_of (child theta 0) d d) 4) None (Dropout.init 0.1) in
  let ff :=
    PositionwiseFFN.Make
      (linear_of (child (child theta 1) 0) d (Z.to_nat d_ff))
      (linear_of (child (child theta 1) 1) (Z.to_nat d_ff) d)
      (Dropout.init dropout) in
  let norm := LayerNorm.Make (ones [d]) (zeros [d]) 1e-6 in
  let sublayer := SublayerConnection.Make norm (Dropout.init dropout) in
  let eb := EncoderBlock.Make attn ff (clones sublayer 2) d_model in
  let db := DecoderBlock.Make d_model attn attn ff (clones sublayer 3) in
  EncoderDecoder.Make
    (Encoder.Make (clones eb N) norm)
    (Decoder.Make (clones db N) norm (linear_of (child theta 2) d (Z.to_nat vt)))
    (Embeddings.Make
       (Embedding.Make (Tensor [Z.to_nat vs; d] (child theta 3 [0%nat]))) d_model,
     position)
    (Embeddings.Make
       (Embedding.Make (Tensor [Z.to_nat vt; d] (child theta 4 [0%nat]))) d_model,
     position).

(** What the loop of [train_model] reports for the losses of the rounds:
    line [k] is for the batches [5 k + 1 .. 5 k + 5]. *)
Definition report (losses : list R) (k : nat) : Z * R :=
  (Z.of_nat (5 * k + 5),
   sum_upto 5 (fun j => nth (5 * k + j) losses 0) / 5).

(** A batch of [B > 0] pairs of sequences of tokens of the vocabularies,
    with masks that fit them. *)
Definition is_batch (vs vt : nat) (batch : RandomDataset.dict) : Prop :=
  exists source target target_y source_mask target_mask B Ls Lt,
    RandomDataset.lookup batch "source"%string = Some (RandomDataset.Tokens source) /\
    RandomDataset.lookup batch "target"%string = Some (RandomDataset.Tokens target) /\
    RandomDataset.lookup batch "target_y"%string = Some (RandomDataset.Tokens target_y) /\
    RandomDataset.lookup batch "source_mask"%string = Some (RandomDataset.Mask source_mask) /\
    RandomDataset.lookup batch "target_mask"%string = Some (RandomDataset.Mask target_mask) /\
    (0 < B)%nat /\ (Ls <= 5000)%nat /\ (Lt <= 5000)%nat /\
    shape source = [B; Ls] /\ shape target = [B; Lt] /\
    shape target_y = [B; Lt] /\
    in_vocabulary vs source /\ in_vocabulary vt target /\
    in_vocabulary vt target_y /\
    mask_fits B 1 Ls (Some source_mask) /\
    mask_fits B Lt Lt (Some target_mask).


Unset Implicit Arguments.

(** * Properties *)

(** ** Reasoning about monadic code *)

Lemma bind_Ok {S A B} (m : M S A) (f : A -> M S B) s r :
  bind m f s = Ok r -> exists a s', m s = Ok (a, s') /\ f a s' = Ok r.
Proof.
  unfold bind. destruct (m s) as [[a s']|e]; [eauto | discriminate].
Qed.

Lemma lift_Ok {S A} (r : result A) (s s' : S) a :
  lift r s = Ok (a, s') -> r = Ok a /\ s' = s.
Proof.
  unfold lift. destruct r; [|discriminate]. intros H; inversion H; auto.
Qed.

Lemma ret_Ok {S A} (a b : A) (s s' : S) :
  ret a s = Ok (b, s') -> b = a /\ s' = s.
Proof. unfold ret. intros H; inversion H; auto. Qed.

Lemma bind_lift_Ok {S A B} (r : result A) a (H : r = Ok a) (f : A -> M S B) s :
  bind (lift r) f s = f a s.
Proof. subst r. reflexivity. Qed.

(** A loop over [0 .. n-1] that maintains an invariant runs to its end. *)
Lemma bind_run {S A B} (m : M S A) (f : A -> M S B) s a s' :
  m s = Ok (a, s') -> bind m f s = f a s'.
Proof. intros E. unfold bind. now rewrite E. Qed.

Lemma for_each_seq_from {S St} (Inv : nat -> St -> Prop)
    (body : nat -> St -> M S St) (n : nat) :
  (forall i st s, (i < n)%nat -> Inv i st ->
     exists st' s', body i st s = Ok (st', s') /\ Inv (Datatypes.S i) st') ->
  forall m k st s, (k + m = n)%nat -> Inv k st ->
     exists st' s', for_each (seq k m) body st s = Ok (st', s') /\ Inv n st'.
Proof.
  intros Hbody m. induction m as [|m IH]; intros k st s Hk HI; simpl.
  - exists st, s. split; [reflexivity|]. replace n with k by lia. exact HI.
  - destruct (Hbody k st s) as (st1 & s1 & E1 & HI1); [lia | exact HI |].
    unfold bind. rewrite E1. apply IH; [lia | exact HI1].
Qed.

Lemma for_each_seq {S St} (Inv : nat -> St -> Prop)
    (body : nat -> St -> M S St) (n : nat) :
  (forall i st s, (i < n)%nat -> Inv i st ->
     exists st' s', body i st s = Ok (st', s') /\ Inv (Datatypes.S i) st') ->
  forall st s, Inv 0%nat st ->
     exists st' s', for_each (seq 0 n) body st s = Ok (st', s') /\ Inv n st'.
Proof. intros Hbody st s HI. eapply for_each_seq_from; eauto. Qed.


(** ** The operations on small inputs *)

Example broadcast_over_heads :
  broadcast_shapes [1; 2; 3; 3]%nat [1; 1; 3; 3]%nat = Some [1; 2; 3; 3]%nat.
Proof. reflexivity. Qed.

Example broadcast_refused :
  broadcast_shapes [2; 3]%nat [4; 3]%nat = None.
Proof. reflexivity. Qed.

Example view_infers_length :
  infer_shape 24 [1; -1; 2; 4]%Z = Some [1; 3; 2; 4]%nat.
Proof. reflexivity. Qed.

Example view_refused : infer_shape 24 [5; -1]%Z = None.
Proof. reflexivity. Qed.

Example index_round_trip :
  unflatten_index [2; 3; 4]%nat (flatten_index [2; 3; 4]%nat [1; 2; 3]%nat)
  = [1; 2; 3]%nat.
Proof. reflexivity. Qed.

(** Splitting 8 features into 2 heads of 4: feature [h * 4 + d] of position
    [l] becomes entry [d] of position [l] of head [h]. *)
Example split_heads (f : index -> R) :
  match view (Tensor [1; 3; 8]%nat f) [1; -1; 2; 4]%Z with
  | Ok y => match transpose y 1 2 with
            | Ok z => shape z = [1; 2; 3; 4]%nat /\
                      get z [0; 1; 2; 3]%nat = f [0; 2; 7]%nat
            | Raise _ => False
            end
  | Raise _ => False
  end.
Proof. split; reflexivity. Qed.

Example subsequent_mask_3 :
  match subsequent_mask 3 with
  | Ok mask =>
      shape mask = [3; 3]%nat /\
      map (fun i => map (fun j => get mask [i; j]) [0; 1; 2]%nat) [0; 1; 2]%nat
      = [[true; false; false]; [true; true; false]; [true; true; true]]
  | Raise _ => False
  end.
Proof. split; reflexivity. Qed.

Example where_eq_positions :
  Siamese.where_eq [1; 0; 1; 2]%nat 1 = [0; 2]%nat.
Proof. reflexivity. Qed.

Example dot_product (a b : index -> R) :
  match matmul (Tensor [2%nat] a) (Tensor [2%nat] b) with
  | Ok c => shape c = [] /\
            get c [] = a [0%nat] * b [0%nat] + (a [1%nat] * b [1%nat] + 0)
  | Raise _ => False
  end.
Proof. split; reflexivity. Qed.

(** Multi-head attention keeps the shape [[batch, length, d_model]]. *)
Example multi_head_forward_shape (theta : params) (x : index -> R) (g : rng) :
  match MultiHeadedAttention.init theta 2 8 0.1 with
  | Ok self =>
      match MultiHeadedAttention.forward self
              (Tensor [2; 3; 8]%nat x) (Tensor [2; 3; 8]%nat x)
              (Tensor [2; 3; 8]%nat x) (Some (full [2; 3; 3]%nat true)) g with
      | Ok ((y, self'), _) =>
          shape y = [2; 3; 8]%nat /\
          option_map (@shape R) (MultiHeadedAttention.attn self')
          = Some [2; 2; 3; 3]%nat
      | Raise _ => False
      end
  | Raise _ => False
  end.
Proof. vm_compute. split; reflexivity. Qed.

(** A head count that does not divide the model dimension is refused when
    the model is built. *)
Example build_model_refused theta xi :
  build_model theta xi 5 5 1 8 16 3 0.1 = Raise AssertionError.
Proof. reflexivity. Qed.

(** A token outside the vocabulary is refused by the embedding. *)
Example token_out_of_vocabulary theta xi g :
  match build_model theta xi 5 5 1 8 16 2 0.1 with
  | Ok model =>
      EncoderDecoder.forward model (of_list2 0%Z [[1; 2; 5; 4]]%Z)
        (of_list2 0%Z [[1; 2; 3]]%Z)
        (Some (full [1; 1; 4]%nat true)) (Some (full [1; 3; 3]%nat true)) g
      = Raise IndexError
  | Raise _ => False
  end.
Proof. vm_compute. reflexivity. Qed.

Module SiameseFacts.

Import Siamese.

Lemma where_from_nth k labels i j z :
  nth_error (where_from k labels i) j = Some z ->
  (k <= z)%nat /\ nth_error labels (z - k) = Some i.
Proof.
  revert k j. induction labels as [|y ys IH]; intros k j H; simpl in H.
  - destruct j; discriminate.
  - destruct (Nat.eqb_spec y i) as [->|Hne].
    + destruct j as [|j]; simpl in H.
      * inversion H; subst. split; [lia|]. now rewrite Nat.sub_diag.
      * apply IH in H as [Hle Hn]. split; [lia|].
        replace (z - k)%nat with (Datatypes.S (z - Datatypes.S k)) by lia. exact Hn.
    + apply IH in H as [Hle Hn]. split; [lia|].
      replace (z - k)%nat with (Datatypes.S (z - Datatypes.S k)) by lia. exact Hn.
Qed.

Lemma where_eq_nth labels i j z :
  nth_error (where_eq labels i) j = Some z -> nth_error labels z = Some i.
Proof.
  intros H. apply where_from_nth in H as [_ H]. now rewrite Nat.sub_0_r in H.
Qed.

Lemma where_from_length k labels i :
  length (where_from k labels i) = count_occ Nat.eq_dec labels i.
Proof.
  revert k. induction labels as [|y ys IH]; intros k; simpl; [reflexivity|].
  destruct (Nat.eqb_spec y i) as [->|Hne].
  - destruct (Nat.eq_dec i i); [|congruence]. simpl. now rewrite IH.
  - destruct (Nat.eq_dec y i); [congruence|]. apply IH.
Qed.

Lemma getitem_lt {A} (l : list A) i :
  (i < length l)%nat -> exists a, getitem l i = Ok a /\ nth_error l i = Some a.
Proof.
  intros H. unfold getitem. destruct (nth_error l i) eqn:E; [eauto|].
  apply nth_error_None in E. lia.
Qed.

Section Pairs.

Variable X : Type.
Variables (inputs : list X) (labels : list nat).

Local Abbreviation step_done := (step_done inputs labels).
Local Abbreviation steps_done := (steps_done inputs labels).

Lemma step_done_app c k (ps ps' : list (X * X)) (ls ls' : list R) :
  (2 * k + 1 < length ps)%nat -> (2 * k + 1 < length ls)%nat ->
  step_done c k (ps, ls) -> step_done c k (ps ++ ps', ls ++ ls').
Proof.
  intros Hp Hl ((p & Hp1 & Hp2) & Hl1 & (q & Hq1 & Hq2) & Hl2). simpl in *.
  repeat split; simpl.
  - exists p. split; [|exact Hp2]. rewrite nth_error_app1 by lia. exact Hp1.
  - rewrite nth_error_app1 by lia. exact Hl1.
  - exists q. split; [|exact Hq2]. rewrite nth_error_app1 by lia. exact Hq1.
  - rewrite nth_error_app1 by lia. exact Hl2.
Qed.

Hypothesis enough_inputs : (length labels <= length inputs)%nat.

Let digit_indices := map (fun i => where_eq labels i) (seq 0 num_classes).

Lemma digit_indices_nth d :
  (d < num_classes)%nat -> nth_error digit_indices d = Some (where_eq labels d).
Proof.
  intros H. unfold digit_indices.
  rewrite nth_error_map, nth_error_seq.
  apply Nat.ltb_lt in H. now rewrite H.
Qed.

Lemma inputs_at d j z :
  nth_error (where_eq labels d) j = Some z ->
  exists x, getitem inputs z = Ok x /\ nth_error inputs z = Some x /\
            nth_error labels z = Some d.
Proof.
  intros H. apply where_eq_nth in H.
  assert (z < length inputs)%nat as Hz.
  { apply Nat.lt_le_trans with (length labels); [|exact enough_inputs].
    apply nth_error_Some. congruence. }
  destruct (getitem_lt inputs z Hz) as (x & E1 & E2). eauto.
Qed.

(** One iteration of the inner loop. *)
Lemma create_pairs_body_step n d i st g :
  (forall c, c < num_classes -> n + 1 <= length (where_eq labels c))%nat ->
  (d < num_classes)%nat -> (i < n)%nat ->
  steps_done n (d * n + i) st ->
  exists st' g',
    create_pairs_body inputs digit_indices d i st g = Ok (st', g') /\
    steps_done n (d * n + Datatypes.S i) st'.
Proof.
  intros Hn Hd Hi (Lp & Ll & Hdone). destruct st as [ps ls]. simpl in Lp, Ll.
  unfold create_pairs_body.
  assert (Hdi := digit_indices_nth d Hd).
  pose proof (Hn d Hd) as Hlen.
  assert (i < length (where_eq labels d))%nat as T1 by (clear - Hlen Hi; lia).
  assert (i + 1 < length (where_eq labels d))%nat as T2 by (clear - Hlen Hi; lia).
  destruct (getitem_lt (where_eq labels d) i T1) as (z1 & Ez1 & Nz1).
  destruct (getitem_lt (where_eq labels d) (i + 1) T2) as (z2 & Ez2 & Nz2).
  destruct (inputs_at _ _ _ Nz1) as (x1 & Ex1 & Nx1 & Lz1).
  destruct (inputs_at _ _ _ Nz2) as (x2 & Ex2 & Nx2 & Lz2).
  set (inc := (1 + g 0%nat mod (num_classes - 1))%nat).
  set (dn := ((d + inc) mod num_classes)%nat).
  assert (1 <= inc <= 9)%nat as Hinc.
  { unfold inc, num_classes. simpl (10 - 1)%nat.
    assert (g 0%nat mod 9 < 9)%nat as B by (apply Nat.mod_upper_bound; discriminate).
    clear - B. revert B. generalize (g 0%nat mod 9)%nat. intros r B. lia. }
  assert (dn < num_classes)%nat as Hdn.
  { unfold dn, num_classes. apply Nat.mod_upper_bound. discriminate. }
  assert (dn <> d) as Hne.
  { unfold dn, num_classes in *. intros E.
    pose proof (Nat.div_mod_eq (d + inc) 10) as Q. rewrite E in Q.
    clear - Q Hinc Hd. revert Q. generalize ((d + inc) / 10)%nat. intros q Q. lia. }
  assert (Hdni := digit_indices_nth dn Hdn).
  pose proof (Hn dn Hdn) as Hlen'.
  assert (i < length (where_eq labels dn))%nat as T3 by (clear - Hlen' Hi; lia).
  destruct (getitem_lt (where_eq labels dn) i T3) as (z3 & Ez3 & Nz3).
  destruct (inputs_at _ _ _ Nz3) as (x3 & Ex3 & Nx3 & Lz3).
  exists (ps ++ [(x1, x2)] ++ [(x1, x3)], (ls ++ [1; 0])%R), (fun k => g (Datatypes.S k)).
  split.
  - assert (getitem digit_indices d = Ok (where_eq labels d)) as Gd
      by (unfold getitem; now rewrite Hdi).
    assert (getitem digit_indices dn = Ok (where_eq labels dn)) as Gdn
      by (unfold getitem; now rewrite Hdni).
    rewrite (bind_lift_Ok _ _ Gd), (bind_lift_Ok _ _ Ez1),
      (bind_lift_Ok _ _ Ez2), (bind_lift_Ok _ _ Ex1), (bind_lift_Ok _ _ Ex2).
    unfold bind at 1. unfold randrange. simpl (num_classes <=? 1)%nat. cbv iota.
    fold inc. fold dn.
    rewrite (bind_lift_Ok _ _ Ez1), (bind_lift_Ok _ _ Gdn),
      (bind_lift_Ok _ _ Ez3), (bind_lift_Ok _ _ Ex1), (bind_lift_Ok _ _ Ex3).
    unfold ret. rewrite <- app_assoc. reflexivity.
  - unfold steps_done. simpl fst; simpl snd.
    rewrite !length_app. simpl length.
    split; [clear - Lp; lia | split; [clear - Ll; lia |]].
    intros k Hk.
    destruct (Nat.eq_dec k (d * n + i)) as [->|Hk'].
    + assert ((d * n + i) / n = d)%nat as ->.
      { rewrite Nat.div_add_l by lia. rewrite Nat.div_small by lia. lia. }
      repeat split; simpl fst; simpl snd.
      * exists (x1, x2). split.
        -- rewrite nth_error_app2 by lia.
           replace (2 * (d * n + i) - length ps)%nat with 0%nat by lia. reflexivity.
        -- exists z1, z2. simpl. auto.
      * rewrite nth_error_app2 by lia.
        replace (2 * (d * n + i) - length ls)%nat with 0%nat by lia. reflexivity.
      * exists (x1, x3). split.
        -- rewrite nth_error_app2 by lia.
           replace (2 * (d * n + i) + 1 - length ps)%nat with 1%nat by lia. reflexivity.
        -- exists z1, z3, dn. simpl. auto.
      * rewrite nth_error_app2 by lia.
        replace (2 * (d * n + i) + 1 - length ls)%nat with 1%nat by lia. reflexivity.
    + apply step_done_app; [lia | lia |]. apply Hdone. lia.
Qed.

Lemma fold_min_le xs : forall x y,
  In y (x :: xs) -> (fold_left Nat.min xs x <= y)%nat.
Proof.
  induction xs as [|a xs IH]; intros x y [<-|Hy]; simpl.
  - lia.
  - destruct Hy.
  - etransitivity; [apply IH; left; reflexivity | lia].
  - destruct Hy as [<-|Hy].
    + etransitivity; [apply IH; left; reflexivity | lia].
    + apply IH. right. exact Hy.
Qed.

Lemma fold_min_in xs : forall x, In (fold_left Nat.min xs x) (x :: xs).
Proof.
  induction xs as [|a xs IH]; intros x; simpl; [auto|].
  destruct (IH (Nat.min x a)) as [E|E].
  - rewrite <- E. destruct (Nat.min_spec x a) as [[_ Q]|[_ Q]]; rewrite Q; auto.
  - auto.
Qed.

(** C10: when every one of the 10 classes occurs at least twice,
    [create_pairs] returns [2 * n * 10] pairs and as many labels, where [n]
    is one less than the size of the smallest class; for every class [d]
    and every [i < n], positions [2 (d n + i)] and [2 (d n + i) + 1] hold a
    positive pair of class [d] labelled 1 and a negative pair of class [d]
    labelled 0. *)
Theorem create_pairs_balanced (g : rng) :
  (forall d, d < 10 -> 2 <= count_occ Nat.eq_dec labels d)%nat ->
  exists n pairs lbls g',
    create_pairs inputs labels g = Ok ((pairs, lbls), g') /\
    (forall d, d < 10 -> n + 1 <= count_occ Nat.eq_dec labels d)%nat /\
    (exists d, d < 10 /\ count_occ Nat.eq_dec labels d = n + 1)%nat /\
    length pairs = (2 * n * 10)%nat /\ length lbls = (2 * n * 10)%nat /\
    forall d i, (d < 10)%nat -> (i < n)%nat ->
      step_done d (d * n + i) (pairs, lbls).
Proof.
  intros Htwice.
  set (cnt := fun d => length (nth d digit_indices [])).
  assert (Hcnt : forall d, (d < 10)%nat -> cnt d = count_occ Nat.eq_dec labels d).
  { intros d Hd. unfold cnt.
    rewrite (nth_error_nth _ _ _ (digit_indices_nth d Hd)).
    apply where_from_length. }
  set (m := fold_left Nat.min (map cnt (seq 1 9)) (cnt 0%nat)).
  assert (Hm_le : forall d, (d < 10)%nat -> (m <= cnt d)%nat).
  { intros d Hd. apply fold_min_le.
    change (cnt 0%nat :: map cnt (seq 1 9)) with (map cnt (seq 0 10)).
    apply in_map, in_seq. lia. }
  assert (Hm_in : exists d, (d < 10)%nat /\ cnt d = m).
  { pose proof (fold_min_in (map cnt (seq 1 9)) (cnt 0%nat)) as Hin.
    change (cnt 0%nat :: map cnt (seq 1 9)) with (map cnt (seq 0 10)) in Hin.
    apply in_map_iff in Hin as (d & E & Hd). apply in_seq in Hd.
    exists d. split; [lia | exact E]. }
  assert (Hm2 : (2 <= m)%nat).
  { destruct Hm_in as (d & Hd & <-). rewrite Hcnt by exact Hd. now apply Htwice. }
  set (n := (m - 1)%nat).
  assert (Hn : forall c, (c < num_classes)%nat ->
                         (n + 1 <= length (where_eq labels c))%nat).
  { intros c Hc. unfold where_eq. rewrite where_from_length, <- Hcnt by exact Hc.
    specialize (Hm_le c Hc). unfold n. lia. }
  destruct (for_each_seq (fun d st => steps_done n (d * n) st)
              (fun d => for_each (range (Z.of_nat m - 1))
                          (create_pairs_body inputs digit_indices d))
              num_classes) with (st := (@nil (X * X), @nil R)) (s := g)
    as ((pairs & lbls) & g' & Erun & Lp & Ll & Hdone).
  - intros d st s Hd HI.
    unfold range. replace (Z.to_nat (Z.of_nat m - 1)) with n by (unfold n; lia).
    destruct (for_each_seq (fun i st => steps_done n (d * n + i) st)
                (create_pairs_body inputs digit_indices d) n) with (st := st) (s := s)
      as (st' & s' & E & HI').
    + intros i st0 s0 Hi HI0. now apply create_pairs_body_step.
    + now rewrite Nat.add_0_r.
    + exists st', s'. split; [exact E|].
      replace (Datatypes.S d * n)%nat with (d * n + n)%nat by lia. exact HI'.
  - split; [reflexivity | split; [reflexivity|]]. intros k Hk. inversion Hk.
  - exists n, pairs, lbls, g'. simpl in Lp, Ll.
    split.
    { unfold create_pairs. fold digit_indices.
      change (lift (min_list (map (fun d : nat => length (nth d digit_indices []))
                                  (seq 0 num_classes))))
        with (@lift rng _ (Ok m)).
      exact Erun. }
    split.
    { intros d Hd. rewrite <- Hcnt by exact Hd. specialize (Hm_le d Hd).
      unfold n. lia. }
    split.
    { destruct Hm_in as (d & Hd & E). exists d. split; [exact Hd|].
      rewrite <- Hcnt by exact Hd. unfold n. lia. }
    unfold num_classes in *.
    split; [lia | split; [lia|]].
    intros d i Hd Hi.
    assert (Q : ((d * n + i) / n = d)%nat).
    { rewrite Nat.div_add_l by lia. rewrite Nat.div_small by lia. lia. }
    rewrite <- Q at 1. apply Hdone. nia.
Qed.

End Pairs.

Lemma create_pairs_balanced_witness :
  let labels := ([0; 1; 2; 3; 4; 5; 6; 7; 8; 9] ++ [0; 1; 2; 3; 4; 5; 6; 7; 8; 9])%nat in
  exists n pairs lbls g',
    create_pairs labels labels (fun _ => 0%nat) = Ok ((pairs, lbls), g') /\
    (forall d, d < 10 -> n + 1 <= count_occ Nat.eq_dec labels d)%nat /\
    (exists d, d < 10 /\ count_occ Nat.eq_dec labels d = n + 1)%nat /\
    length pairs = (2 * n * 10)%nat /\ length lbls = (2 * n * 10)%nat /\
    forall d i, (d < 10)%nat -> (i < n)%nat ->
      step_done labels labels d (d * n + i) (pairs, lbls).
Proof.
  intros labels.
  apply (create_pairs_balanced nat labels labels).
  - simpl. lia.
  - intros d Hd.
    do 10 (destruct d as [|d]; [simpl; lia|]). lia.
Defined.

End SiameseFacts.

(** ** Sums *)

Lemma sum_upto_S n f : sum_upto (S n) f = sum_upto n f + f n.
Proof.
  unfold sum_upto. rewrite seq_S, map_app, fold_right_app. simpl.
  generalize (map f (seq 0 n)) as l. intros l.
  induction l as [|a l IH]; simpl; [lra | rewrite IH; lra].
Qed.

Lemma sum_upto_ext n f g :
  (forall j, (j < n)%nat -> f j = g j) -> sum_upto n f = sum_upto n g.
Proof.
  induction n as [|n IH]; intros H; [reflexivity|].
  rewrite !sum_upto_S, IH, H; auto.
Qed.

Lemma sum_upto_scale n f c :
  sum_upto n (fun j => f j * c) = sum_upto n f * c.
Proof.
  induction n as [|n IH]; [unfold sum_upto; simpl; lra|].
  rewrite !sum_upto_S, IH. lra.
Qed.

Lemma sum_upto_div n f c :
  sum_upto n (fun j => f j / c) = sum_upto n f / c.
Proof. unfold Rdiv. apply sum_upto_scale. Qed.

Lemma sum_upto_nonneg n f : (forall j, 0 <= f j) -> 0 <= sum_upto n f.
Proof.
  intros H. induction n as [|n IH]; [unfold sum_upto; simpl; lra|].
  rewrite sum_upto_S. specialize (H n). lra.
Qed.

Lemma sum_upto_term_le n f i :
  (forall j, 0 <= f j) -> (i < n)%nat -> f i <= sum_upto n f.
Proof.
  intros H. induction n as [|n IH]; intros Hi; [lia|].
  rewrite sum_upto_S.
  destruct (Nat.eq_dec i n) as [->|Hne].
  - pose proof (sum_upto_nonneg n f H). lra.
  - specialize (H n). assert (i < n)%nat as Hi' by lia. specialize (IH Hi'). lra.
Qed.

Lemma sum_upto_pos n f : (0 < n)%nat -> (forall j, 0 < f j) -> 0 < sum_upto n f.
Proof.
  intros Hn H.
  apply Rlt_le_trans with (f 0%nat); [apply H|].
  apply sum_upto_term_le; [|exact Hn]. intros j. left. apply H.
Qed.

Lemma sum_upto_plus n f g :
  sum_upto n (fun j => f j + g j) = sum_upto n f + sum_upto n g.
Proof.
  induction n as [|n IH]; [unfold sum_upto; simpl; lra|].
  rewrite !sum_upto_S, IH. lra.
Qed.

Lemma sum_upto_const n c : sum_upto n (fun _ => c) = INR n * c.
Proof.
  induction n as [|n IH]; [unfold sum_upto; simpl; lra|].
  rewrite sum_upto_S, IH, S_INR. lra.
Qed.

(** ** Shapes and indices *)

Lemma row_of_app r j k : row_of (r ++ [j]) k = r ++ [k].
Proof. unfold row_of. now rewrite removelast_last. Qed.

Lemma last_dim_app p a : last_dim (p ++ [a]) = a.
Proof. unfold last_dim. apply last_last. Qed.

Lemma split_last2_app p a b : split_last2 (p ++ [a; b]) = Some (p, a, b).
Proof.
  unfold split_last2. rewrite rev_app_distr. simpl. now rewrite rev_involutive.
Qed.

Lemma split_last2_Some s p a b :
  split_last2 s = Some (p, a, b) -> s = p ++ [a; b].
Proof.
  unfold split_last2. destruct (rev s) as [|j [|i q]] eqn:E; try discriminate.
  intros H. inversion H; subst.
  rewrite <- (rev_involutive s), E. simpl. now rewrite <- app_assoc.
Qed.

Lemma last2_decompose (s : list nat) :
  (2 <= length s)%nat -> exists p a b, s = p ++ [a; b].
Proof.
  intros H. destruct (rev s) as [|j [|i q]] eqn:E.
  - apply (f_equal (@length nat)) in E. rewrite length_rev in E. simpl in E. lia.
  - apply (f_equal (@length nat)) in E. rewrite length_rev in E. simpl in E. lia.
  - exists (rev q), i, j. rewrite <- (rev_involutive s), E. simpl.
    now rewrite <- app_assoc.
Qed.

Lemma map_nth_prefix (p q : list nat) :
  map (fun k => nth k (p ++ q) 0%nat) (seq 0 (length p)) = p.
Proof.
  induction p as [|x p IH]; [reflexivity|].
  simpl. f_equal. rewrite <- seq_shift, map_map. exact IH.
Qed.

Lemma swap_last2 p a b :
  swap (length p) (S (length p)) (p ++ [a; b]) = p ++ [b; a].
Proof.
  unfold swap. rewrite length_app. simpl length.
  replace (length p + 2)%nat with (S (S (length p))) by lia.
  rewrite !seq_S, !map_app, !Nat.add_0_l. cbn [map].
  rewrite !Nat.eqb_refl.
  assert ((S (length p) =? length p)%nat = false) as -> by (apply Nat.eqb_neq; lia).
  rewrite <- app_assoc. cbn [app]. f_equal.
  - transitivity (map (fun k => nth k (p ++ [a; b]) 0%nat) (seq 0 (length p)));
      [|apply map_nth_prefix].
    apply map_ext_in. intros k Hk. apply in_seq in Hk.
    assert ((k =? length p)%nat = false) as -> by (apply Nat.eqb_neq; lia).
    assert ((k =? S (length p))%nat = false) as -> by (apply Nat.eqb_neq; lia).
    reflexivity.
  - rewrite !app_nth2 by lia.
    replace (S (length p) - length p)%nat with 1%nat by lia.
    rewrite Nat.sub_diag. reflexivity.
Qed.

Lemma norm_dim_last2 r :
  (2 <= r)%nat ->
  norm_dim r (-2) = Some (r - 2)%nat /\ norm_dim r (-1) = Some (r - 1)%nat.
Proof.
  intros H. split; unfold norm_dim; cbv zeta;
    match goal with |- context [(?d <? 0)%Z] => change (d <? 0)%Z with true end;
    cbv iota;
    match goal with |- (if ?c then _ else _) = _ => destruct c eqn:E end;
    try (f_equal; lia);
    exfalso; apply andb_false_iff in E; destruct E as [E|E];
    first [apply Z.leb_gt in E | apply Z.ltb_ge in E]; lia.
Qed.

Lemma norm_dim_Some r d k : norm_dim r d = Some k -> (k < r)%nat.
Proof.
  unfold norm_dim.
  destruct (d <? 0)%Z eqn:Ed;
    match goal with |- (if ?c then _ else _) = _ -> _ => destruct c eqn:Ec end;
    try discriminate;
    intros H; inversion H; subst;
    apply andb_prop in Ec as [E1 E2];
    apply Z.leb_le in E1; apply Z.ltb_lt in E2; lia.
Qed.

(** [t.transpose(-2, -1)] exchanges the last two dimensions. *)
Lemma transpose_last2_run {A} (t : tensor A) p a b :
  shape t = p ++ [a; b] ->
  transpose t (-2) (-1) =
    Ok (Tensor (p ++ [b; a])
          (fun idx => get t (swap (length p) (S (length p)) idx))).
Proof.
  intros Hs. unfold transpose, rank. rewrite Hs.
  destruct (norm_dim_last2 (length (p ++ [a; b]))) as [-> ->].
  { rewrite length_app. simpl. lia. }
  rewrite length_app. simpl length.
  replace (length p + 2 - 2)%nat with (length p) by lia.
  replace (length p + 2 - 1)%nat with (S (length p)) by lia.
  now rewrite swap_last2.
Qed.

Lemma transpose_last2_Ok {A} (t kt : tensor A) :
  transpose t (-2) (-1) = Ok kt ->
  exists p a b, shape t = p ++ [a; b] /\ shape kt = p ++ [b; a].
Proof.
  intros H.
  assert (2 <= rank t)%nat as Hr.
  { unfold transpose in H.
    destruct (norm_dim (rank t) (-2)) as [i|] eqn:E; [|discriminate].
    apply norm_dim_Some in E as Hi.
    unfold norm_dim in E. cbv zeta in E. change (-2 <? 0)%Z with true in E.
    cbv iota in E.
    match type of E with (if ?c then _ else _) = _ => destruct c eqn:Ec end;
      [|discriminate].
    apply andb_prop in Ec as [E1 _]. apply Z.leb_le in E1. lia. }
  destruct (last2_decompose (shape t) Hr) as (p & a & b & Hs).
  exists p, a, b. split; [exact Hs|].
  rewrite (transpose_last2_run t p a b Hs) in H. inversion H. reflexivity.
Qed.

Lemma size_last_run {A} (t : tensor A) p a :
  shape t = p ++ [a] -> size t (-1) = Ok a.
Proof.
  intros Hs. unfold size, rank. rewrite Hs.
  destruct (norm_dim_last2 (length (p ++ [a; 0%nat]))) as [_ E].
  { rewrite length_app. simpl. lia. }
  rewrite length_app in *. simpl length in *.
  replace (length p + 2 - 1)%nat with (S (length p)) in E by lia.
  assert (norm_dim (length p + 1) (-1) = Some (length p)) as ->.
  { revert E. unfold norm_dim. cbv zeta. change (-1 <? 0)%Z with true. cbv iota.
    do 2 match goal with |- context [if ?c then _ else _] => destruct c eqn:? end;
      try discriminate; intros _; try (f_equal; lia).
    exfalso.
    match goal with H : (_ && _)%bool = false |- _ =>
      apply andb_false_iff in H; destruct H as [H|H];
      [apply Z.leb_gt in H | apply Z.ltb_ge in H]; lia end. }
  f_equal. now rewrite nth_middle.
Qed.

Lemma size_m2_run {A} (t : tensor A) p a b :
  shape t = p ++ [a; b] -> size t (-2) = Ok a.
Proof.
  intros Hs. unfold size, rank. rewrite Hs.
  destruct (norm_dim_last2 (length (p ++ [a; b]))) as [-> _].
  { rewrite length_app. simpl. lia. }
  f_equal. rewrite length_app. simpl length.
  replace (length p + 2 - 2)%nat with (length p) by lia.
  now rewrite nth_middle.
Qed.

(** ** Softmax *)

Lemma softmax_row_sum (x : tensor R) r :
  (0 < last_dim (shape x))%nat ->
  sum_upto (last_dim (shape x)) (fun j => get (softmax x) (r ++ [j])) = 1.
Proof.
  intros Hn. unfold softmax. simpl get.
  rewrite (sum_upto_ext _ _
             (fun j => exp (get x (r ++ [j])) /
                       sum_upto (last_dim (shape x)) (fun j => exp (get x (r ++ [j]))))).
  - rewrite sum_upto_div. apply Rdiv_diag.
    apply Rgt_not_eq. apply sum_upto_pos; [exact Hn|]. intros j. apply exp_pos.
  - intros j _. f_equal. apply sum_upto_ext. intros k _. now rewrite row_of_app.
Qed.

Lemma softmax_rows (x : tensor R) :
  (0 < last_dim (shape x))%nat -> rows_sum_to_one (softmax x).
Proof.
  intros Hn r _. change (shape (softmax x)) with (shape x).
  apply softmax_row_sum. exact Hn.
Qed.

(** ** Matrix product *)

Lemma app_last2_inj (p p' : list nat) a b a' b' :
  p ++ [a; b] = p' ++ [a'; b'] -> p = p' /\ a = a' /\ b = b'.
Proof.
  intros H.
  replace (p ++ [a; b]) with ((p ++ [a]) ++ [b]) in H by now rewrite <- app_assoc.
  replace (p' ++ [a'; b']) with ((p' ++ [a']) ++ [b']) in H
    by now rewrite <- app_assoc.
  apply app_inj_tail in H as [H ->]. apply app_inj_tail in H as [-> ->]. auto.
Qed.

Lemma matmul_batched_run a b pa n m pb p pc :
  shape a = pa ++ [n; m] -> shape b = pb ++ [m; p] ->
  broadcast_shapes pa pb = Some pc ->
  matmul_batched a b = Ok (Tensor (pc ++ [n; p]) (matmul_get a b pa pb m)).
Proof.
  intros Ha Hb Hc. unfold matmul_batched.
  rewrite Ha, Hb, !split_last2_app, Nat.eqb_refl, Hc. reflexivity.
Qed.

Lemma matmul_batched_Ok a b c :
  matmul_batched a b = Ok c ->
  exists pa n m pb p pc,
    shape a = pa ++ [n; m] /\ shape b = pb ++ [m; p] /\
    broadcast_shapes pa pb = Some pc /\
    c = Tensor (pc ++ [n; p]) (matmul_get a b pa pb m).
Proof.
  unfold matmul_batched.
  destruct (split_last2 (shape a)) as [[[pa n] m]|] eqn:Ea; [|discriminate].
  destruct (split_last2 (shape b)) as [[[pb m'] p]|] eqn:Eb; [|discriminate].
  destruct (Nat.eqb_spec m m') as [<-|]; [|discriminate].
  destruct (broadcast_shapes pa pb) as [pc|] eqn:Ec; [|discriminate].
  intros H. inversion H. subst c.
  apply split_last2_Some in Ea, Eb.
  exists pa, n, m, pb, p, pc. auto.
Qed.

Lemma not_vector_app (p : list nat) a b :
  exists x y s, p ++ [a; b] = x :: y :: s.
Proof. destruct p as [|x [|y p]]; simpl; eauto. Qed.

(** On operands with at least two dimensions [matmul] is the batched
    product. *)
Lemma matmul_is_batched a b pa n m pb m' p :
  shape a = pa ++ [n; m] -> shape b = pb ++ [m'; p] ->
  matmul a b = matmul_batched a b.
Proof.
  intros Ha Hb. unfold matmul.
  destruct (not_vector_app pa n m) as (x & y & s & Ea).
  destruct (not_vector_app pb m' p) as (x' & y' & s' & Eb).
  now rewrite Ha, Hb, Ea, Eb.
Qed.

Lemma matmul_run a b pa n m pb p pc :
  shape a = pa ++ [n; m] -> shape b = pb ++ [m; p] ->
  broadcast_shapes pa pb = Some pc ->
  matmul a b = Ok (Tensor (pc ++ [n; p]) (matmul_get a b pa pb m)).
Proof.
  intros Ha Hb Hc. rewrite (matmul_is_batched a b pa n m pb m p Ha Hb).
  now apply matmul_batched_run.
Qed.

(** The last dimension of a product is that of its second operand, when
    this one has at least two dimensions. *)
Lemma matmul_last_dim a b c pb m p :
  matmul a b = Ok c -> shape b = pb ++ [m; p] -> last_dim (shape c) = p.
Proof.
  intros H Hb.
  assert (Hbatched : forall a' c', matmul_batched a' b = Ok c' ->
                                   last_dim (shape c') = p).
  { intros a' c' H'.
    apply matmul_batched_Ok in H'
      as (pa & n & m1 & pb1 & p1 & pc & _ & Hb1 & _ & ->).
    rewrite Hb in Hb1. apply app_last2_inj in Hb1 as (_ & _ & <-).
    cbn [shape].
    replace (pc ++ [n; p]) with ((pc ++ [n]) ++ [p]) by now rewrite <- app_assoc.
    apply last_dim_app. }
  unfold matmul in H.
  destruct (not_vector_app pb m p) as (x' & y' & s' & Eb).
  destruct (shape b) as [|x1 [|y1 s1]] eqn:Esb;
    try (rewrite Eb in Hb; discriminate).
  destruct (shape a) as [|x [|y s]].
  - now apply Hbatched in H.
  - destruct (matmul_batched _ b) as [c'|e] eqn:E; [|discriminate].
    apply Hbatched in E. inversion H. cbn [shape]. now rewrite last_dim_app.
  - now apply Hbatched in H.
Qed.

Lemma matmul_get_at a b pa pb m ic i j :
  matmul_get a b pa pb m (ic ++ [i; j]) =
  sum_upto m (fun k => get a (bcast_index pa ic ++ [i; k]) *
                       get b (bcast_index pb ic ++ [k; j])).
Proof.
  unfold matmul_get.
  replace (ic ++ [i; j]) with ((ic ++ [i]) ++ [j]) by now rewrite <- app_assoc.
  now rewrite removelast_last, removelast_last, !last_last.
Qed.

Lemma broadcast_rev_refl s : broadcast_rev s s = Some s.
Proof.
  induction s as [|a s IH]; [reflexivity|].
  simpl. now rewrite IH, Nat.eqb_refl.
Qed.

Lemma broadcast_shapes_refl s : broadcast_shapes s s = Some s.
Proof.
  unfold broadcast_shapes. rewrite broadcast_rev_refl. simpl.
  now rewrite rev_involutive.
Qed.

(** ** What a call of [attention] that returns has computed *)

Lemma attention_Ok q k v mask dropout g out w g' :
  attention q k v mask dropout g = Ok ((out, w), g') ->
  exists d_k kt qk scores,
    size q (-1) = Ok d_k /\
    transpose k (-2) (-1) = Ok kt /\
    matmul q kt = Ok qk /\
    match mask with
    | Some mask =>
        masked_fill (div_scalar qk (sqrt (INR d_k))) (eq0 mask) (-1e9) = Ok scores
    | None => scores = div_scalar qk (sqrt (INR d_k))
    end /\
    match dropout with
    | Some dropout => Dropout.forward dropout (softmax scores) g = Ok (w, g')
    | None => w = softmax scores /\ g' = g
    end /\
    matmul w v = Ok out.
Proof.
  unfold attention. intros H.
  apply bind_Ok in H as (d_k & g1 & E1 & H). apply lift_Ok in E1 as [E1 ->].
  apply bind_Ok in H as (kt & g1 & E2 & H). apply lift_Ok in E2 as [E2 ->].
  apply bind_Ok in H as (qk & g1 & E3 & H). apply lift_Ok in E3 as [E3 ->].
  apply bind_Ok in H as (scores & g1 & E4 & H).
  apply bind_Ok in H as (p_attn & g2 & E5 & H).
  apply bind_Ok in H as (o & g3 & E6 & H). apply lift_Ok in E6 as [E6 ->].
  apply ret_Ok in H as [H ->]. inversion H; subst o p_attn.
  exists d_k, kt, qk, scores. repeat split; try assumption.
  - destruct mask as [m|].
    + apply lift_Ok in E4 as [E4 _]. exact E4.
    + apply ret_Ok in E4 as [-> _]. reflexivity.
  - destruct mask as [m|].
    + apply lift_Ok in E4 as [_ ->]. destruct dropout; [exact E5|].
      apply ret_Ok in E5 as [-> ->]. auto.
    + apply ret_Ok in E4 as [_ ->]. destruct dropout; [exact E5|].
      apply ret_Ok in E5 as [-> ->]. auto.
Qed.

(** The weights have one entry per query position and key position. *)
Lemma attention_scores_shape (q k kt qk : tensor R) n :
  transpose k (-2) (-1) = Ok kt -> matmul q kt = Ok qk ->
  size k (-2) = Ok n ->
  last_dim (shape qk) = n.
Proof.
  intros Et Em Es.
  apply transpose_last2_Ok in Et as (pk & a & b & Hk & Hkt).
  rewrite (size_m2_run k pk a b Hk) in Es. inversion Es; subst a.
  apply (matmul_last_dim q kt qk pk b n Em Hkt).
Qed.

(** With matching shapes the call returns. *)
Lemma attention_plain_run q k v pq nq d pk nk pv dv pc pc' g :
  shape q = pq ++ [nq; d] -> shape k = pk ++ [nk; d] ->
  shape v = pv ++ [nk; dv] ->
  broadcast_shapes pq pk = Some pc -> broadcast_shapes pc pv = Some pc' ->
  exists kt qk out,
    transpose k (-2) (-1) = Ok kt /\
    matmul q kt = Ok qk /\ shape qk = pc ++ [nq; nk] /\
    matmul (softmax (div_scalar qk (sqrt (INR d)))) v = Ok out /\
    shape out = pc' ++ [nq; dv] /\
    attention q k v None None g =
      Ok ((out, softmax (div_scalar qk (sqrt (INR d)))), g).
Proof.
  intros Hq Hk Hv Hc Hc'.
  pose proof (transpose_last2_run k pk nk d Hk) as Et.
  set (kt := Tensor (pk ++ [d; nk])
                    (fun idx => get k (swap (length pk) (S (length pk)) idx))) in *.
  pose proof (matmul_run q kt pq nq d pk nk pc Hq eq_refl Hc) as Em.
  set (qk := Tensor (pc ++ [nq; nk]) (matmul_get q kt pq pk d)) in *.
  set (w := softmax (div_scalar qk (sqrt (INR d)))).
  pose proof (matmul_run w v pc nq nk pv dv pc' eq_refl Hv Hc') as Eo.
  exists kt, qk, (Tensor (pc' ++ [nq; dv]) (matmul_get w v pc pv nk)).
  repeat split; try assumption.
  unfold attention.
  assert (size q (-1) = Ok d) as Es.
  { apply (size_last_run q (pq ++ [nq])). now rewrite <- app_assoc. }
  rewrite (bind_lift_Ok _ _ Es), (bind_lift_Ok _ _ Et), (bind_lift_Ok _ _ Em).
  unfold bind at 1. unfold ret at 1. unfold bind at 1. unfold ret at 1.
  fold w. rewrite (bind_lift_Ok _ _ Eo). reflexivity.
Qed.

(** C1, as amended: without mask and dropout, for vectors of at least one
    feature and when there is at least one key position, every row of the
    weights that [attention] returns sums to 1 (exactly, in real
    arithmetic).  With vectors of no feature the scores are [0 / sqrt 0],
    which is not a number in floating point: that case is left out. *)
Theorem attention_weights_rows_sum_to_one q k v g out w g' d n :
  attention q k v None None g = Ok ((out, w), g') ->
  size q (-1) = Ok d -> (0 < d)%nat ->
  size k (-2) = Ok n -> (0 < n)%nat ->
  last_dim (shape w) = n /\ rows_sum_to_one w.
Proof.
  intros H _ _ Hn Hpos.
  apply attention_Ok in H as (d_k & kt & qk & scores & _ & Et & Em & -> & [-> _] & _).
  assert (last_dim (shape (softmax (div_scalar qk (sqrt (INR d_k))))) = n) as Hl
    by apply (attention_scores_shape q k kt qk n Et Em Hn).
  split; [exact Hl|].
  apply softmax_rows. simpl in Hl. simpl. rewrite Hl. exact Hpos.
Qed.

(** C1 fails without a key position: the rows of the weights are empty
    and sum to 0. *)
Lemma attention_empty_key_rows :
  let q := zeros [1; 1]%nat in
  let k := zeros [0; 1]%nat in
  exists out w g',
    attention q k k None None (fun _ _ => true) = Ok ((out, w), g') /\
    ~ rows_sum_to_one w.
Proof.
  do 3 eexists. split; [vm_compute; reflexivity|].
  intros H. specialize (H [0%nat]). simpl in H.
  assert (0 = 1) as E by (apply H; left; reflexivity). lra.
Qed.

Lemma attention_weights_rows_sum_to_one_witness :
  exists out w g',
    attention (ones [1; 2]%nat) (ones [3; 2]%nat) (ones [3; 2]%nat) None None
              (fun _ _ => true) = Ok ((out, w), g') /\
    last_dim (shape w) = 3%nat /\ rows_sum_to_one w.
Proof.
  do 3 eexists. split; [vm_compute; reflexivity|].
  eapply (attention_weights_rows_sum_to_one
            (ones [1; 2]%nat) (ones [3; 2]%nat) (ones [3; 2]%nat)
            (fun _ _ => true) _ _ _ 2%nat 3%nat).
  - vm_compute; reflexivity.
  - reflexivity.
  - lia.
  - reflexivity.
  - lia.
Defined.

(** ** The causal mask *)

Lemma list_eqb_eq s1 : forall s2, list_eqb s1 s2 = true -> s1 = s2.
Proof.
  induction s1 as [|a s1 IH]; intros [|b s2] H; simpl in H;
    try discriminate; [reflexivity|].
  apply andb_prop in H as [E1 E2]. apply Nat.eqb_eq in E1. subst b.
  f_equal. apply IH. exact E2.
Qed.

Lemma list_eqb_refl s : list_eqb s s = true.
Proof.
  induction s as [|a s IH]; [reflexivity|]. cbn [list_eqb].
  now rewrite Nat.eqb_refl, IH.
Qed.

Lemma dim_of_nat n : dim_of (Z.of_nat n) = Ok n.
Proof.
  unfold dim_of.
  assert ((Z.of_nat n <? 0)%Z = false) as -> by (apply Z.ltb_ge; lia).
  now rewrite Nat2Z.id.
Qed.

(** The mask is true at [(i, j)] exactly when [j <= i]. *)
Lemma subsequent_mask_spec n mask :
  subsequent_mask (Z.of_nat n) = Ok mask ->
  shape mask = [n; n] /\ forall i j, get mask [i; j] = (j <=? i)%nat.
Proof.
  unfold subsequent_mask. rewrite dim_of_nat. simpl. intros H. inversion H.
  split; [reflexivity|]. intros i j. simpl.
  destruct (Z.leb_spec 1 (Z.of_nat j - Z.of_nat i)) as [L|L];
    destruct (Nat.leb_spec j i) as [L'|L']; try reflexivity; lia.
Qed.

Lemma bcast_index_square n r i j :
  (2 <= n)%nat -> bcast_index [n; n] (r ++ [i; j]) = [i; j].
Proof.
  intros Hn. unfold bcast_index. rewrite rev_app_distr. simpl.
  assert ((n =? 1)%nat = false) as -> by (apply Nat.eqb_neq; lia).
  reflexivity.
Qed.

Lemma broadcast_rev_nil_r s : broadcast_rev s [] = Some s.
Proof. now destruct s. Qed.

(** A shape onto which a square mask of side at least 2 broadcasts without
    enlarging it ends with that side. *)
Lemma broadcast_square_last s n s' :
  broadcast_shapes s [n; n] = Some s' -> list_eqb s' s = true ->
  (2 <= n)%nat -> exists p a, s = p ++ [a; n].
Proof.
  intros Hb He Hn. apply list_eqb_eq in He. subst s'.
  unfold broadcast_shapes in Hb. simpl rev in Hb.
  assert ((n =? 1)%nat = false) as N1 by (apply Nat.eqb_neq; lia).
  destruct (rev s) as [|b [|a p]] eqn:E.
  - simpl in Hb. inversion Hb as [Hs]. rewrite <- Hs in E. discriminate.
  - simpl in Hb. exfalso.
    assert (length s = 1%nat) as L
      by (rewrite <- length_rev, E; reflexivity).
    destruct (b =? n)%nat; [|destruct (b =? 1)%nat; [|rewrite N1 in Hb]];
      try discriminate; inversion Hb as [Hs]; rewrite <- Hs in L; discriminate.
  - simpl in Hb. rewrite broadcast_rev_nil_r in Hb.
    assert (s = rev p ++ [a; b]) as Hs.
    { rewrite <- (rev_involutive s), E. simpl. now rewrite <- app_assoc. }
    destruct (Nat.eqb_spec b n) as [->|Hne].
    { exists (rev p), a. exact Hs. }
    exfalso.
    assert (forall x y, Some (rev (x :: y :: p)) = Some s -> x = b) as Hhead.
    { intros x y Q. inversion Q as [Q']. rewrite Hs in Q'. simpl in Q'.
      rewrite <- app_assoc in Q'. simpl in Q'.
      apply app_last2_inj in Q' as (_ & _ & Q'). exact Q'. }
    destruct (a =? n)%nat; [|destruct (a =? 1)%nat; [|rewrite N1 in Hb]];
      try discriminate;
      (destruct (Nat.eqb_spec b 1) as [->|Hb1];
       [|rewrite N1 in Hb; discriminate]);
      simpl in Hb; apply Hhead in Hb; lia.
Qed.

(** The weight right of the diagonal, under the causal mask. *)
Lemma causal_mask_weight q k v n mask g out w g' d_k kt qk :
  subsequent_mask (Z.of_nat n) = Ok mask ->
  attention q k v (Some mask) None g = Ok ((out, w), g') ->
  size q (-1) = Ok d_k ->
  transpose k (-2) (-1) = Ok kt ->
  matmul q kt = Ok qk ->
  forall r i j, (i < j)%nat -> (j < n)%nat ->
    get w (r ++ [i; j]) =
    exp (-1e9) /
    sum_upto n (fun l => exp (if (l <=? i)%nat
                              then get (div_scalar qk (sqrt (INR d_k))) (r ++ [i; l])
                              else -1e9)).
Proof.
  intros Hmask H Es Et Em r i j Hij Hjn.
  destruct (subsequent_mask_spec n mask Hmask) as [Hsh Hget].
  apply attention_Ok in H
    as (d' & kt' & qk' & scores & Es' & Et' & Em' & Hfill & [-> _] & _).
  rewrite Es in Es'. inversion Es'; subst d'.
  rewrite Et in Et'. inversion Et'; subst kt'.
  rewrite Em in Em'. inversion Em'; subst qk'.
  set (s := div_scalar qk (sqrt (INR d_k))) in *.
  unfold masked_fill in Hfill. simpl shape in Hfill. rewrite Hsh in Hfill.
  destruct (broadcast_shapes (shape qk) [n; n]) as [s'|] eqn:Eb; [|discriminate].
  destruct (list_eqb s' (shape qk)) eqn:Ee; [|discriminate].
  destruct (broadcast_square_last _ _ _ Eb Ee) as (p & a & Hqk); [lia|].
  inversion Hfill as [Hscores]. clear Hfill.
  set (filled := fun idx : index =>
         if get (eq0 mask) (bcast_index [n; n] idx) then -1e9 else get s idx) in *.
  assert (Hfilled : forall l, filled (r ++ [i; l]) =
                              if (l <=? i)%nat then get s (r ++ [i; l]) else -1e9).
  { intros l. unfold filled. rewrite bcast_index_square by lia. simpl.
    rewrite Hget. now destruct (l <=? i)%nat. }
  assert (Hrow : forall l, filled (row_of (r ++ [i; j]) l) = filled (r ++ [i; l])).
  { intros l. f_equal.
    replace (r ++ [i; j]) with ((r ++ [i]) ++ [j]) by now rewrite <- app_assoc.
    rewrite row_of_app. now rewrite <- app_assoc. }
  assert (last_dim (shape qk) = n) as Hlast.
  { rewrite Hqk.
    replace (p ++ [a; n]) with ((p ++ [a]) ++ [n]) by now rewrite <- app_assoc.
    apply last_dim_app. }
  subst scores.
  change (exp (filled (r ++ [i; j])) /
          sum_upto (last_dim (shape qk))
            (fun l => exp (filled (row_of (r ++ [i; j]) l))) =
          exp (-1e9) /
          sum_upto n (fun l => exp (if (l <=? i)%nat then get s (r ++ [i; l])
                                    else -1e9))).
  rewrite Hlast, Hfilled.
  assert ((j <=? i)%nat = false) as -> by (apply Nat.leb_gt; lia).
  f_equal. apply sum_upto_ext. intros l _. now rewrite Hrow, Hfilled.
Qed.

(** C3, as amended: under the causal mask and for vectors of at least one
    feature, the weight at a position [(i, j)] with [j > i] lies between 0
    and [exp (-1e9 - s)], for [s] the scaled score on the diagonal of that
    row: negligible unless that score is itself hugely negative.  With
    vectors of no feature the scores are [0 / sqrt 0], which is not a
    number in floating point: that case is left out. *)
Theorem causal_mask_weights_negligible q k v n mask g out w g' d_k kt qk :
  subsequent_mask (Z.of_nat n) = Ok mask ->
  attention q k v (Some mask) None g = Ok ((out, w), g') ->
  size q (-1) = Ok d_k -> (0 < d_k)%nat ->
  transpose k (-2) (-1) = Ok kt ->
  matmul q kt = Ok qk ->
  (forall i j, get mask [i; j] = (j <=? i)%nat) /\
  forall r i j, (i < j)%nat -> (j < n)%nat ->
    0 <= get w (r ++ [i; j]) <=
      exp (-1e9 - get (div_scalar qk (sqrt (INR d_k))) (r ++ [i; i])).
Proof.
  intros Hmask H Es _ Et Em.
  split; [apply (subsequent_mask_spec n mask Hmask)|]. intros r i j Hij Hjn.
  rewrite (causal_mask_weight q k v n mask g out w g' d_k kt qk
             Hmask H Es Et Em r i j Hij Hjn).
  set (s := div_scalar qk (sqrt (INR d_k))).
  set (f := fun l => exp (if (l <=? i)%nat then get s (r ++ [i; l]) else -1e9)).
  assert (exp (get s (r ++ [i; i])) <= sum_upto n f) as Hle.
  { assert (f i = exp (get s (r ++ [i; i]))) as <-
      by (unfold f; now rewrite Nat.leb_refl).
    apply sum_upto_term_le; [|lia]. intros l. left. apply exp_pos. }
  pose proof (exp_pos (get s (r ++ [i; i]))) as Hpos.
  pose proof (exp_pos (-1e9)) as Hsent.
  split.
  - left. apply Rdiv_lt_0_compat; lra.
  - unfold Rminus. rewrite exp_plus, exp_Ropp.
    unfold Rdiv. apply Rmult_le_compat_l; [lra|].
    apply Rinv_le_contravar; lra.
Qed.

(** C3 fails as stated: with a diagonal score of [-2e9], below the
    sentinel, the masked position right of the diagonal receives more than
    half of the weight. *)
Lemma causal_mask_weight_not_zero :
  let q := of_list2 0 [[100000]; [0]] in
  let k := of_list2 0 [[-20000]; [0]] in
  exists mask out w g',
    subsequent_mask 2 = Ok mask /\
    attention q k k (Some mask) None (fun _ _ => true) = Ok ((out, w), g') /\
    1 / 2 < get w [0; 1]%nat /\ get w [0; 1]%nat <> 0.
Proof.
  intros q k.
  set (m := tmap (fun v => (v =? 0)%Z) (triu (full [2; 2]%nat 1%Z) 1)).
  assert (Hm : subsequent_mask (Z.of_nat 2) = Ok m) by reflexivity.
  destruct (attention q k k (Some m) None (fun _ _ => true))
    as [[[out w] g']|e] eqn:Ha; [|vm_compute in Ha; discriminate].
  exists m.
  exists out, w, g'. split; [reflexivity|]. split; [exact Ha|].
  assert (1 / 2 < get w [0; 1]%nat) as Hw; [|split; [exact Hw | lra]].
  pose proof (transpose_last2_run k [] 2%nat 1%nat eq_refl) as Et.
  match type of Et with _ = Ok ?t => set (kt := t) in Et end.
  pose proof (matmul_run q kt [] 2%nat 1%nat [] 2%nat [] eq_refl eq_refl eq_refl)
    as Em.
  match type of Em with _ = Ok ?t => set (qk := t) in Em end.
  assert (size q (-1) = Ok 1%nat) as Es by reflexivity.
  change [0; 1]%nat with ([] ++ [0; 1])%nat.
  rewrite (causal_mask_weight q k k 2 _ _ out w g' 1%nat kt qk
             Hm Ha Es Et Em [] 0%nat 1%nat) by lia.
  unfold sum_upto. simpl fold_right.
  assert (matmul_get q kt [] [] 1 [0; 0]%nat = -2e9) as ->.
  { change [0; 0]%nat with ([] ++ [0; 0])%nat.
    rewrite (matmul_get_at q kt [] [] 1 [] 0 0).
    unfold sum_upto. simpl. lra. }
  rewrite sqrt_1.
  assert (exp (-2e9 / 1) < exp (-1e9)) as Hlt by (apply exp_increasing; lra).
  pose proof (exp_pos (-2e9 / 1)) as P1. pose proof (exp_pos (-1e9)) as P2.
  apply Rmult_lt_reg_r with (exp (-2e9 / 1) + (exp (-1e9) + 0)); [lra|].
  replace (exp (-1e9) / (exp (-2e9 / 1) + (exp (-1e9) + 0)) *
           (exp (-2e9 / 1) + (exp (-1e9) + 0)))
    with (exp (-1e9)) by (field; lra).
  lra.
Qed.

Lemma causal_mask_weights_negligible_witness :
  let q := ones [2; 1]%nat in
  exists mask out w g' kt qk,
    subsequent_mask 2 = Ok mask /\
    attention q q q (Some mask) None (fun _ _ => true) = Ok ((out, w), g') /\
    transpose q (-2) (-1) = Ok kt /\ matmul q kt = Ok qk /\
    (forall i j, get mask [i; j] = (j <=? i)%nat) /\
    forall r i j, (i < j)%nat -> (j < 2)%nat ->
      0 <= get w (r ++ [i; j]) <=
        exp (-1e9 - get (div_scalar qk (sqrt (INR 1))) (r ++ [i; i])).
Proof.
  intros q. do 6 eexists.
  split; [vm_compute; reflexivity|].
  split; [vm_compute; reflexivity|].
  split; [vm_compute; reflexivity|].
  split; [vm_compute; reflexivity|].
  eapply (causal_mask_weights_negligible q q q 2 _ (fun _ _ => true)).
  - vm_compute; reflexivity.
  - vm_compute; reflexivity.
  - vm_compute; reflexivity.
  - lia.
  - vm_compute; reflexivity.
  - vm_compute; reflexivity.
Defined.

(** ** Indices within a shape *)

Lemma indices_spec s : forall idx, In idx (indices s) <-> Forall2 lt idx s.
Proof.
  induction s as [|d s IH]; intros idx; simpl.
  - split.
    + intros [<-|[]]. constructor.
    + intros H. inversion H. now left.
  - rewrite in_flat_map. split.
    + intros (i & Hi & Hin). apply in_map_iff in Hin as (tl & <- & Htl).
      apply in_seq in Hi. constructor; [lia | now apply IH].
    + intros H. inversion H as [|i d' tl s' Hi Htl]; subst.
      exists i. split; [apply in_seq; lia|].
      apply in_map. now apply IH.
Qed.

Lemma Forall2_lt_rev idx s : Forall2 lt idx s -> Forall2 lt (rev idx) (rev s).
Proof.
  induction 1 as [|i d idx s Hi H IH]; simpl; [constructor|].
  apply Forall2_app; [exact IH | repeat constructor; exact Hi].
Qed.

Lemma bcast_rev_in_range s : forall idx, Forall2 lt idx s -> bcast_rev s idx = idx.
Proof.
  induction s as [|d s IH]; intros idx H; inversion H as [|i d' tl s' Hi Htl]; subst;
    simpl; [reflexivity|].
  rewrite (IH tl Htl). f_equal.
  destruct (Nat.eqb_spec d 1); [lia | reflexivity].
Qed.

(** Broadcasting leaves an index that is within the shape where it is. *)
Lemma bcast_index_in_range s idx : Forall2 lt idx s -> bcast_index s idx = idx.
Proof.
  intros H. unfold bcast_index.
  rewrite bcast_rev_in_range by now apply Forall2_lt_rev.
  apply rev_involutive.
Qed.

(** C8: attention of a single vector to itself, without mask or dropout,
    returns that vector: the call succeeds, the output has the shape of the
    input, and it has the same entries. *)
Theorem attention_single_vector (x : tensor R) p d g :
  shape x = p ++ [1%nat; d] ->
  exists out w,
    attention x x x None None g = Ok ((out, w), g) /\
    shape out = shape x /\
    forall idx, In idx (indices (shape x)) -> get out idx = get x idx.
Proof.
  intros Hx.
  destruct (attention_plain_run x x x p 1%nat d p 1%nat p d p p g Hx Hx Hx
              (broadcast_shapes_refl p) (broadcast_shapes_refl p))
    as (kt & qk & out & Et & Em & Hqk & Eo & Hout & Ha).
  set (w := softmax (div_scalar qk (sqrt (INR d)))) in *.
  exists out, w. split; [exact Ha|]. split; [now rewrite Hout, Hx|].
  intros idx Hin. rewrite Hx in Hin. apply indices_spec in Hin.
  apply Forall2_app_inv_r in Hin as (ic & tl & Hic & Htl & ->).
  inversion Htl as [|i d1 tl1 s1 Hi Htl1]; subst.
  inversion Htl1 as [|j d2 tl2 s2 Hj Htl2]; subst.
  inversion Htl2; subst.
  assert (i = 0%nat) as -> by lia.
  rewrite (matmul_run w x p 1%nat 1%nat p d p Hqk Hx (broadcast_shapes_refl p))
    in Eo.
  inversion Eo as [Eout]. cbn [get].
  rewrite matmul_get_at, (bcast_index_in_range p ic Hic).
  unfold sum_upto. cbn [fold_right map seq].
  assert (get w (ic ++ [0%nat; 0%nat]) = 1) as ->.
  { unfold w, softmax. cbn [get shape div_scalar tmap]. rewrite Hqk.
    replace (p ++ [1%nat; 1%nat]) with ((p ++ [1%nat]) ++ [1%nat])
      by now rewrite <- app_assoc.
    rewrite last_dim_app. unfold sum_upto. cbn [fold_right map seq].
    replace (ic ++ [0%nat; 0%nat]) with ((ic ++ [0%nat]) ++ [0%nat])
      by now rewrite <- app_assoc.
    rewrite row_of_app, Rplus_0_r.
    apply Rdiv_diag. apply Rgt_not_eq, exp_pos. }
  lra.
Qed.

Lemma attention_single_vector_witness :
  let x := of_list2 0 [[3; 4]] in
  exists out w,
    attention x x x None None (fun _ _ => true) = Ok ((out, w), fun _ _ => true) /\
    shape out = shape x /\
    forall idx, In idx (indices (shape x)) -> get out idx = get x idx.
Proof.
  intros x. apply (attention_single_vector x [] 2%nat). reflexivity.
Defined.

(** ** Dropout on the attention weights *)




(** ** Construction of the multi-head attention module *)

Lemma linear_init_nonneg theta i o :
  (0 <= i)%Z -> (0 <= o)%Z ->
  exists l, Linear.init theta i o = Ok l /\
            shape (Linear.weight l) = [Z.to_nat o; Z.to_nat i] /\
            shape (Linear.bias l) = [Z.to_nat o].
Proof.
  intros Hi Ho. unfold Linear.init, dim_of.
  assert ((i <? 0)%Z = false) as -> by (apply Z.ltb_ge; lia).
  assert ((o <? 0)%Z = false) as -> by (apply Z.ltb_ge; lia).
  eexists. split; [reflexivity|]. split; reflexivity.
Qed.

(** C4: for a head count [h], a model dimension [d_model] (a natural
    number) and a dropout rate between 0 and 1 (the rates that
    [torch.nn.Dropout] accepts), constructing [MultiHeadedAttention] raises
    (an [AssertionError], or a [ZeroDivisionError] when [h] is 0) exactly
    when [d_model] is not evenly divisible by [h]; otherwise it returns a
    module with [d_k = d_model / h]. *)
Theorem multi_head_init_divisible theta (h : Z) (d_model : nat) dropout :
  0 <= dropout <= 1 ->
  let init := MultiHeadedAttention.init theta h (Z.of_nat d_model) dropout in
  (is_ok init = false <-> ~ evenly_divisible (Z.of_nat d_model) h) /\
  (~ evenly_divisible (Z.of_nat d_model) h ->
   init = Raise AssertionError \/ init = Raise ZeroDivisionError) /\
  (evenly_divisible (Z.of_nat d_model) h ->
   exists self,
     init = Ok self /\
     MultiHeadedAttention.h self = h /\
     MultiHeadedAttention.d_k self = (Z.of_nat d_model / h)%Z /\
     (MultiHeadedAttention.d_k self * h = Z.of_nat d_model)%Z /\
     length (MultiHeadedAttention.fc_layers self) = 4%nat /\
     MultiHeadedAttention.attn self = None).
Proof.
  intros _ init. subst init.
  assert (Hd : (0 <= Z.of_nat d_model)%Z) by lia.
  revert Hd. generalize (Z.of_nat d_model). intros d Hd.
  unfold evenly_divisible, MultiHeadedAttention.init.
  destruct (Z.eqb_spec h 0) as [->|Hh].
  - split; [|split].
    + split; [intros _ [H _]; now apply H | reflexivity].
    + intros _. now right.
    + intros [H _]. now contradiction H.
  - destruct (Z.eqb_spec (d mod h) 0) as [Hm|Hm]; simpl negb; cbv iota.
    + assert (h | d)%Z as Hdiv by (apply Z.mod_divide; assumption).
      destruct (linear_init_nonneg theta d d Hd Hd) as (l & -> & _).
      split; [|split].
      * split; [discriminate | intros H; exfalso; apply H; auto].
      * intros H. exfalso. apply H. auto.
      * intros _. eexists. split; [reflexivity|]. simpl.
        repeat split; try reflexivity.
        destruct Hdiv as [c ->]. now rewrite Z.div_mul.
    + assert (~ (h | d)%Z) as Hdiv
        by (intros H; apply Hm; apply Z.mod_divide; assumption).
      split; [|split].
      * split; [intros _ [_ H]; now apply Hdiv | reflexivity].
      * intros _. now left.
      * intros [_ H]. now contradiction Hdiv.
Qed.

Lemma multi_head_init_divisible_witness :
  let theta : params := fun _ _ => 0 in
  let init := MultiHeadedAttention.init theta 2 (Z.of_nat 8) 0.1 in
  (is_ok init = false <-> ~ evenly_divisible (Z.of_nat 8) 2) /\
  (~ evenly_divisible (Z.of_nat 8) 2 ->
   init = Raise AssertionError \/ init = Raise ZeroDivisionError) /\
  (evenly_divisible (Z.of_nat 8) 2 ->
   exists self,
     init = Ok self /\
     MultiHeadedAttention.h self = 2%Z /\
     MultiHeadedAttention.d_k self = (Z.of_nat 8 / 2)%Z /\
     (MultiHeadedAttention.d_k self * 2 = Z.of_nat 8)%Z /\
     length (MultiHeadedAttention.fc_layers self) = 4%nat /\
     MultiHeadedAttention.attn self = None).
Proof.
  intros theta.
  apply (multi_head_init_divisible theta 2 8 0.1). lra.
Defined.

(** The two ways of failing and the success, on examples. *)
Example multi_head_init_8_3 theta :
  MultiHeadedAttention.init theta 3 8 0.1 = Raise AssertionError.
Proof. reflexivity. Qed.

Example multi_head_init_8_0 theta :
  MultiHeadedAttention.init theta 0 8 0.1 = Raise ZeroDivisionError.
Proof. reflexivity. Qed.

Example multi_head_init_8_2 theta :
  option_map MultiHeadedAttention.d_k
    (match MultiHeadedAttention.init theta 2 8 0.1 with
     | Ok self => Some self
     | Raise _ => None
     end) = Some 4%Z.
Proof. reflexivity. Qed.

(** ** Layer normalisation *)

Lemma broadcast_rev_cons a b s1 s2 s :
  broadcast_rev s1 s2 = Some s ->
  broadcast_rev (a :: s1) (b :: s2) =
  if (a =? b)%nat then Some (a :: s)
  else if (a =? 1)%nat then Some (b :: s)
  else if (b =? 1)%nat then Some (a :: s) else None.
Proof. intros H. cbn [broadcast_rev]. now rewrite H. Qed.

Lemma rev_cons_rev (d : nat) p : rev (d :: rev p) = p ++ [d].
Proof. cbn [rev]. now rewrite rev_involutive. Qed.

Lemma broadcast_keep_last p d :
  broadcast_shapes (p ++ [d]) (p ++ [1%nat]) = Some (p ++ [d]).
Proof.
  unfold broadcast_shapes. rewrite !rev_app_distr. cbn [rev app].
  rewrite (broadcast_rev_cons d 1 _ _ _ (broadcast_rev_refl (rev p))).
  destruct (Nat.eqb_spec d 1) as [->|_]; cbn [Nat.eqb option_map];
    now rewrite rev_cons_rev.
Qed.

Lemma broadcast_vector_l p d :
  broadcast_shapes [d] (p ++ [d]) = Some (p ++ [d]).
Proof.
  unfold broadcast_shapes. rewrite rev_app_distr. cbn [rev app].
  rewrite (broadcast_rev_cons d d [] (rev p) (rev p) eq_refl), Nat.eqb_refl.
  cbn [option_map]. now rewrite rev_cons_rev.
Qed.

Lemma broadcast_vector_r p d :
  broadcast_shapes (p ++ [d]) [d] = Some (p ++ [d]).
Proof.
  unfold broadcast_shapes. rewrite rev_app_distr. cbn [rev app].
  rewrite (broadcast_rev_cons d d (rev p) [] (rev p) (broadcast_rev_nil_r _)),
    Nat.eqb_refl.
  cbn [option_map]. now rewrite rev_cons_rev.
Qed.

Lemma bcast_index_app_last p a r j :
  bcast_index (p ++ [a]) (r ++ [j]) =
  bcast_index p r ++ [if (a =? 1)%nat then 0%nat else j].
Proof.
  unfold bcast_index. rewrite !rev_app_distr. reflexivity.
Qed.

Lemma bcast_index_vector d r j :
  (j < d)%nat -> bcast_index [d] (r ++ [j]) = [j].
Proof.
  intros H. unfold bcast_index. rewrite rev_app_distr. cbn.
  destruct (Nat.eqb_spec d 1); [|reflexivity]. f_equal. lia.
Qed.

Lemma in_range_last d j : (j < d)%nat -> (if (d =? 1)%nat then 0%nat else j) = j.
Proof. intros H. destruct (Nat.eqb_spec d 1); [lia | reflexivity]. Qed.

Lemma shape_nonempty_app (p : list nat) d :
  exists a s, p ++ [d] = a :: s.
Proof. destruct p; simpl; eauto. Qed.

(** What [LayerNorm.forward] returns on an input whose last dimension is
    the number of features. *)
Lemma layer_norm_run (self : LayerNorm.t) x p d :
  shape x = p ++ [d] ->
  shape (LayerNorm.a_2 self) = [d] -> shape (LayerNorm.b_2 self) = [d] ->
  exists y,
    LayerNorm.forward self x = Ok y /\ shape y = shape x /\
    forall r j, Forall2 lt r p -> (j < d)%nat ->
      get y (r ++ [j]) =
      get (LayerNorm.a_2 self) [j] *
        (get x (r ++ [j]) - mean_of d (fun k => get x (r ++ [k]))) /
        (std_of d (fun k => get x (r ++ [k])) + LayerNorm.eps self) +
      get (LayerNorm.b_2 self) [j].
Proof.
  intros Hx Ha Hb. unfold LayerNorm.forward, mean_last, std_last.
  destruct (shape_nonempty_app p d) as (a0 & s0 & Hne).
  rewrite Hx, Hne, <- Hne, last_dim_app, removelast_last.
  unfold sub, mul, div, add, map2. cbn [shape add_scalar tmap].
  rewrite Hx, broadcast_keep_last. cbn [shape].
  rewrite Ha, broadcast_vector_l. cbn [shape].
  rewrite broadcast_keep_last. cbn [shape].
  rewrite Hb, broadcast_vector_r.
  eexists. split; [reflexivity|]. split; [reflexivity|].
  intros r j Hr Hj. cbn [get add_scalar tmap].
  rewrite !bcast_index_app_last, !(bcast_index_in_range p r Hr).
  cbn [Nat.eqb]. rewrite !(in_range_last d j Hj), (bcast_index_vector d r j Hj).
  unfold std_of, mean_of.
  rewrite (sum_upto_ext d (fun k => get x (row_of (r ++ [0%nat]) k))
             (fun k => get x (r ++ [k]))) by (intros; now rewrite row_of_app).
  rewrite (sum_upto_ext d
             (fun k => (get x (row_of (r ++ [0%nat]) k) -
                        sum_upto d (fun k0 => get x (r ++ [k0])) / INR d) ^ 2)
             (fun k => (get x (r ++ [k]) -
                        sum_upto d (fun k0 => get x (r ++ [k0])) / INR d) ^ 2))
    by (intros; now rewrite row_of_app).
  reflexivity.
Qed.

(** Statistics of a normalised row. *)

Lemma sum_centred n f :
  (0 < n)%nat -> sum_upto n (fun k => f k - mean_of n f) = 0.
Proof.
  intros Hn. unfold Rminus. rewrite sum_upto_plus, sum_upto_const.
  unfold mean_of. assert (0 < INR n) by (apply lt_0_INR; exact Hn).
  field. lra.
Qed.

Lemma mean_normalised n f c :
  (0 < n)%nat -> mean_of n (fun k => (f k - mean_of n f) / c) = 0.
Proof.
  intros Hn. unfold mean_of at 1. rewrite sum_upto_div, sum_centred by exact Hn.
  unfold Rdiv. ring.
Qed.

Lemma sum_squares_nonneg n (f : nat -> R) : 0 <= sum_upto n (fun k => f k ^ 2).
Proof. apply sum_upto_nonneg. intros j. apply pow2_ge_0. Qed.

Lemma std_nonneg n f : 0 <= std_of n f.
Proof. unfold std_of. apply sqrt_pos. Qed.

Lemma std_normalised n f c :
  (2 <= n)%nat -> 0 < c ->
  std_of n (fun k => (f k - mean_of n f) / c) = std_of n f / c.
Proof.
  intros Hn Hc. unfold std_of at 1. rewrite mean_normalised by lia.
  assert (1 < INR n) as Hn1 by (change 1 with (INR 1); apply lt_INR; lia).
  rewrite (sum_upto_ext n _ (fun k => (f k - mean_of n f) ^ 2 * / (c ^ 2))).
  2:{ intros k _. field. lra. }
  rewrite sum_upto_scale.
  replace (sum_upto n (fun k => (f k - mean_of n f) ^ 2) * / c ^ 2 / (INR n - 1))
    with (sum_upto n (fun k => (f k - mean_of n f) ^ 2) / (INR n - 1) / (c ^ 2))
    by (field; split; lra).
  rewrite sqrt_div_alt by (apply pow_lt; exact Hc).
  unfold std_of. f_equal.
  rewrite <- Rsqr_pow2. apply sqrt_Rsqr. lra.
Qed.

(** C6, as amended: [LayerNorm.forward] returns
    [a_2 * (x - mean) / (std + eps) + b_2] with the mean and the (unbiased)
    standard deviation of each position taken over the features and [eps]
    added to the standard deviation; the normalised value
    [(x - mean) / (std + eps)] has mean 0 and standard deviation
    [std / (std + eps)], which is below 1. *)
Theorem layer_norm_forward_normalises (self : LayerNorm.t) x p d :
  shape x = p ++ [d] ->
  shape (LayerNorm.a_2 self) = [d] -> shape (LayerNorm.b_2 self) = [d] ->
  (2 <= d)%nat -> 0 < LayerNorm.eps self ->
  exists y,
    LayerNorm.forward self x = Ok y /\ shape y = shape x /\
    forall r j, Forall2 lt r p -> (j < d)%nat ->
      let mean := mean_of d (fun k => get x (r ++ [k])) in
      let std := std_of d (fun k => get x (r ++ [k])) in
      let z := fun k => (get x (r ++ [k]) - mean) / (std + LayerNorm.eps self) in
      get y (r ++ [j]) =
        get (LayerNorm.a_2 self) [j] * (get x (r ++ [j]) - mean) /
          (std + LayerNorm.eps self) + get (LayerNorm.b_2 self) [j] /\
      mean_of d z = 0 /\
      std_of d z = std / (std + LayerNorm.eps self) /\
      0 <= std_of d z < 1.
Proof.
  intros Hx Ha Hb Hd He.
  destruct (layer_norm_run self x p d Hx Ha Hb) as (y & Hy & Hs & Hget).
  exists y. split; [exact Hy|]. split; [exact Hs|].
  intros r j Hr Hj mean std z.
  pose proof (std_nonneg d (fun k => get x (r ++ [k]))) as Hstd. fold std in Hstd.
  assert (std_of d z = std / (std + LayerNorm.eps self)) as Hz
    by (apply std_normalised; [exact Hd | lra]).
  split; [apply Hget; assumption|].
  split; [apply mean_normalised; lia|].
  split; [exact Hz|].
  rewrite Hz. split.
  - unfold Rdiv. apply Rmult_le_pos; [lra|].
    left. apply Rinv_0_lt_compat. lra.
  - apply Rmult_lt_reg_r with (std + LayerNorm.eps self); [lra|].
    replace (std / (std + LayerNorm.eps self) * (std + LayerNorm.eps self))
      with std by (field; lra).
    lra.
Qed.

Lemma layer_norm_forward_normalises_witness :
  let self := LayerNorm.Make (ones [2%nat]) (zeros [2%nat]) 1e-6 in
  let x := of_list2 0 [[1; 3]] in
  exists y,
    LayerNorm.forward self x = Ok y /\ shape y = shape x /\
    forall r j, Forall2 lt r [1%nat] -> (j < 2)%nat ->
      let mean := mean_of 2 (fun k => get x (r ++ [k])) in
      let std := std_of 2 (fun k => get x (r ++ [k])) in
      let z := fun k => (get x (r ++ [k]) - mean) / (std + LayerNorm.eps self) in
      get y (r ++ [j]) =
        get (LayerNorm.a_2 self) [j] * (get x (r ++ [j]) - mean) /
          (std + LayerNorm.eps self) + get (LayerNorm.b_2 self) [j] /\
      mean_of 2 z = 0 /\
      std_of 2 z = std / (std + LayerNorm.eps self) /\
      0 <= std_of 2 z < 1.
Proof.
  intros self x.
  apply (layer_norm_forward_normalises self x [1%nat] 2%nat).
  - reflexivity.
  - reflexivity.
  - reflexivity.
  - lia.
  - simpl. lra.
Defined.

(** C6 fails as stated for a constant feature vector: a freshly built
    [LayerNorm], whose scale is 1 and shift 0, returns the normalised value,
    and its standard deviation is 0, not about 1. *)
Lemma layer_norm_constant_row :
  exists self y,
    LayerNorm.init 2 1e-6 = Ok self /\
    LayerNorm.forward self (of_list2 0 [[1; 1]]) = Ok y /\
    std_of 2 (fun k => get y [0%nat; k]) = 0.
Proof.
  eexists. 
  destruct (layer_norm_run (LayerNorm.Make (ones [2%nat]) (zeros [2%nat]) 1e-6)
              (of_list2 0 [[1; 1]]) [1%nat] 2%nat eq_refl eq_refl eq_refl)
    as (y & Hy & _ & Hget).
  exists y. split; [reflexivity|]. split; [exact Hy|].
  assert (Hrow : forall k, (k < 2)%nat -> get y [0%nat; k] = 0).
  { intros k Hk.
    change [0%nat; k] with ([0%nat] ++ [k]).
    rewrite Hget by (try exact Hk; repeat constructor).
    assert (mean_of 2 (fun k0 => get (of_list2 0 [[1; 1]]) ([0%nat] ++ [k0])) = 1)
      as -> by (unfold mean_of, sum_upto; simpl; lra).
    assert (get (of_list2 0 [[1; 1]]) ([0%nat] ++ [k]) = 1) as ->
      by (destruct k as [|[|k]]; [reflexivity | reflexivity | lia]).
    unfold Rdiv. simpl. ring. }
  unfold std_of.
  assert (mean_of 2 (fun k => get y [0%nat; k]) = 0) as ->.
  { unfold mean_of, sum_upto. simpl. rewrite !Hrow by lia. lra. }
  unfold sum_upto. simpl. rewrite !Hrow by lia.
  replace ((0 - 0) * ((0 - 0) * 1) + ((0 - 0) * ((0 - 0) * 1) + 0)) with 0 by ring.
  unfold Rdiv. rewrite Rmult_0_l. apply sqrt_0.
Qed.

(** ** The residual wrapper *)

Lemma dropout_run d x g :
  exists y g', Dropout.forward d x g = Ok (y, g') /\ shape y = shape x.
Proof.
  unfold Dropout.forward. destruct (Dropout.training d).
  - unfold bind, draw_mask, ret. eexists. eexists. split; reflexivity.
  - unfold ret. eexists. eexists. split; reflexivity.
Qed.

Lemma add_same_shape x y :
  shape y = shape x ->
  exists z, add x y = Ok z /\ shape z = shape x /\
            forall idx, In idx (indices (shape x)) ->
                        get z idx = get x idx + get y idx.
Proof.
  intros H. unfold add, map2. rewrite H, broadcast_shapes_refl.
  eexists. split; [reflexivity|]. split; [reflexivity|].
  intros idx Hin. apply indices_spec in Hin. cbn [get].
  now rewrite (bcast_index_in_range _ _ Hin).
Qed.

(** Whenever the wrapper returns, it has normalised the input, applied the
    inner transform to the normalised input, then dropout, and added the
    result to the original input. *)
Lemma sublayer_connection_forward_Ok (self : SublayerConnection.t) x sublayer
    g y g' :
  SublayerConnection.forward self x sublayer g = Ok (y, g') ->
  exists n s dr g1,
    LayerNorm.forward (SublayerConnection.norm self) x = Ok n /\
    sublayer n g = Ok (s, g1) /\
    Dropout.forward (SublayerConnection.dropout self) s g1 = Ok (dr, g') /\
    add x dr = Ok y.
Proof.
  unfold SublayerConnection.forward. intros H.
  apply bind_Ok in H as (n & g0 & E1 & H). apply lift_Ok in E1 as [E1 ->].
  apply bind_Ok in H as (s & g1 & E2 & H).
  apply bind_Ok in H as (dr & g2 & E3 & H).
  apply lift_Ok in H as [E4 ->].
  exists n, s, dr, g1. auto.
Qed.

(** C5, as amended: on an input whose last dimension is the size of the
    layer, and for an inner transform that returns a tensor of the shape of
    its argument, [SublayerConnection.forward] applies the transform to the
    normalised input, then dropout, and adds the result to the original
    input; the output has the shape of the input. *)
Theorem sublayer_connection_forward (self : SublayerConnection.t) x sublayer g p d :
  shape x = p ++ [d] ->
  shape (LayerNorm.a_2 (SublayerConnection.norm self)) = [d] ->
  shape (LayerNorm.b_2 (SublayerConnection.norm self)) = [d] ->
  (forall n g0, shape n = shape x ->
     exists s g1, sublayer n g0 = Ok (s, g1) /\ shape s = shape n) ->
  exists n s dr y g1 g',
    LayerNorm.forward (SublayerConnection.norm self) x = Ok n /\
    sublayer n g = Ok (s, g1) /\
    Dropout.forward (SublayerConnection.dropout self) s g1 = Ok (dr, g') /\
    add x dr = Ok y /\
    SublayerConnection.forward self x sublayer g = Ok (y, g') /\
    shape y = shape x /\
    forall idx, In idx (indices (shape x)) -> get y idx = get x idx + get dr idx.
Proof.
  intros Hx Ha Hb Hsub.
  destruct (layer_norm_run (SublayerConnection.norm self) x p d Hx Ha Hb)
    as (n & Hn & Hns & _).
  destruct (Hsub n g Hns) as (s & g1 & Hs & Hss).
  destruct (dropout_run (SublayerConnection.dropout self) s g1)
    as (dr & g' & Hd & Hds).
  destruct (add_same_shape x dr) as (y & Hy & Hys & Hyv).
  { now rewrite Hds, Hss, Hns. }
  exists n, s, dr, y, g1, g'.
  repeat split; try assumption.
  unfold SublayerConnection.forward.
  rewrite (bind_lift_Ok _ _ Hn). unfold bind at 1. rewrite Hs.
  unfold bind at 1. rewrite Hd. unfold lift. now rewrite Hy.
Qed.

Lemma sublayer_connection_forward_witness :
  let self := SublayerConnection.Make
                (LayerNorm.Make (ones [2%nat]) (zeros [2%nat]) 1e-6)
                (Dropout.init 0.1) in
  let x := of_list2 0 [[1; 3]] in
  let sublayer := fun t : tensor R => ret (S := rng) (relu t) in
  let g := fun (_ : nat) (_ : index) => true in
  exists n s dr y g1 g',
    LayerNorm.forward (SublayerConnection.norm self) x = Ok n /\
    sublayer n g = Ok (s, g1) /\
    Dropout.forward (SublayerConnection.dropout self) s g1 = Ok (dr, g') /\
    add x dr = Ok y /\
    SublayerConnection.forward self x sublayer g = Ok (y, g') /\
    shape y = shape x /\
    forall idx, In idx (indices (shape x)) -> get y idx = get x idx + get dr idx.
Proof.
  intros self x sublayer g.
  apply (sublayer_connection_forward self x sublayer g [1%nat] 2%nat).
  - reflexivity.
  - reflexivity.
  - reflexivity.
  - intros n g0 Hn. exists (relu n), g0. split; reflexivity.
Defined.

(** C5 fails as stated for an inner transform that changes the shape: the
    sum is broadcast, and the output has the larger shape. *)
Lemma sublayer_connection_shape_changes :
  let x := ones [1; 2]%nat in
  let sublayer := fun _ : tensor R => ret (S := rng) (zeros [3; 2]%nat) in
  exists self y g',
    SublayerConnection.init 2 0.1 = Ok self /\
    SublayerConnection.forward self x sublayer (fun _ _ => true) = Ok (y, g') /\
    shape x = [1; 2]%nat /\ shape y = [3; 2]%nat.
Proof.
  do 3 eexists. split; [vm_compute; reflexivity|].
  split; [vm_compute; reflexivity|]. split; reflexivity.
Qed.

(** ** End to end *)

Lemma log_softmax_row_sum (y : tensor R) r :
  (0 < last_dim (shape y))%nat ->
  sum_upto (last_dim (shape y)) (fun j => exp (get (log_softmax y) (r ++ [j]))) = 1.
Proof.
  intros Hn. unfold log_softmax. cbn [get].
  set (total := sum_upto (last_dim (shape y)) (fun j => exp (get y (r ++ [j])))).
  assert (0 < total) as Ht
    by (apply sum_upto_pos; [exact Hn | intros; apply exp_pos]).
  rewrite (sum_upto_ext _ _ (fun j => exp (get y (r ++ [j])) / total)).
  - rewrite sum_upto_div. fold total. apply Rdiv_diag. lra.
  - intros j _.
    rewrite (sum_upto_ext _ (fun j0 => exp (get y (row_of (r ++ [j]) j0)))
               (fun j0 => exp (get y (r ++ [j0]))))
      by (intros; now rewrite row_of_app).
    fold total. unfold Rminus. rewrite exp_plus, exp_Ropp, exp_ln by exact Ht.
    reflexivity.
Qed.

(** The decoder ends with a log-softmax over the vocabulary. *)
Lemma decoder_forward_Ok self x enc sm tm g out g' :
  Decoder.forward self x enc sm tm g = Ok (out, g') ->
  exists h y,
    Linear.forward (Decoder.projection self) h = Ok y /\ out = log_softmax y.
Proof.
  unfold Decoder.forward. intros H.
  apply bind_Ok in H as (x1 & g1 & _ & H).
  apply bind_Ok in H as (x2 & g2 & _ & H).
  apply bind_Ok in H as (y & g3 & E & H). apply lift_Ok in E as [E _].
  apply ret_Ok in H as [-> _]. eauto.
Qed.

Lemma encoder_decoder_forward_Ok self src tgt sm tm g out g' :
  EncoderDecoder.forward self src tgt sm tm g = Ok (out, g') ->
  exists h y,
    Linear.forward (Decoder.projection (EncoderDecoder.decoder self)) h = Ok y /\
    out = log_softmax y.
Proof.
  unfold EncoderDecoder.forward. intros H.
  apply bind_Ok in H as (s & g1 & _ & H).
  apply bind_Ok in H as (e & g2 & _ & H).
  apply bind_Ok in H as (x & g3 & _ & H).
  now apply decoder_forward_Ok in H.
Qed.

(** C7: the model built with [d_model = 8], [h = 2], [N = 1], [d_ff = 16]
    over a vocabulary of 5 and with a dropout rate between 0 and 1 (the
    rates that [torch.nn.Dropout] accepts), whatever its parameter values,
    its mode and the dropout draws, maps the source [[1,2,3,4]] and the target [[1,2,3]]
    under all-true masks to a tensor of shape [[1, 3, 5]], the log-softmax
    of the projected decoder state: the exponentials of each row sum to 1. *)
Theorem encoder_decoder_end_to_end (theta xi : params) (dropout : R)
    (mode : bool) (g : rng) :
  0 <= dropout <= 1 ->
  let source := of_list2 0%Z [[1; 2; 3; 4]]%Z in
  let target := of_list2 0%Z [[1; 2; 3]]%Z in
  let source_mask := full [1; 1; 4]%nat true in
  let target_mask := full [1; 3; 3]%nat true in
  exists model out g',
    build_model theta xi 5 5 1 8 16 2 dropout = Ok model /\
    EncoderDecoder.forward (EncoderDecoder.train mode model) source target
      (Some source_mask) (Some target_mask) g = Ok (out, g') /\
    shape out = [1; 3; 5]%nat /\
    (exists h y,
       Linear.forward
         (Decoder.projection (EncoderDecoder.decoder model)) h = Ok y /\
       out = log_softmax y) /\
    forall r, In r (indices [1; 3]%nat) ->
      sum_upto 5 (fun v => exp (get out (r ++ [v]))) = 1.
Proof.
  intros _ source target source_mask target_mask.
  destruct (build_model theta xi 5 5 1 8 16 2 dropout) as [model|e] eqn:Hb.
  2:{ exfalso.
      assert (is_ok (build_model theta xi 5 5 1 8 16 2 dropout) = true)
        by (vm_compute; reflexivity).
      rewrite Hb in H. discriminate. }
  assert (Hshape :
    match
      rbind (build_model theta xi 5 5 1 8 16 2 dropout)
        (fun m => match EncoderDecoder.forward (EncoderDecoder.train mode m)
                          source target (Some source_mask) (Some target_mask) g with
                  | Ok (o, _) => Ok (shape o)
                  | Raise e => Raise e
                  end)
    with
    | Ok s => s
    | Raise _ => []
    end = [1; 3; 5]%nat).
  { destruct mode; vm_compute; reflexivity. }
  rewrite Hb in Hshape. cbn [rbind] in Hshape.
  destruct (EncoderDecoder.forward (EncoderDecoder.train mode model) source target
              (Some source_mask) (Some target_mask) g) as [[out g']|e] eqn:Hf;
    [|discriminate].
  exists model, out, g'. split; [reflexivity|]. split; [exact Hf|].
  split; [exact Hshape|].
  destruct (encoder_decoder_forward_Ok _ _ _ _ _ _ _ _ Hf) as (h & y & Hy & ->).
  split; [exists h, y; split; [exact Hy | reflexivity]|].
  intros r _.
  assert (last_dim (shape y) = 5%nat) as Hl
    by (change (shape y) with (shape (log_softmax y)); now rewrite Hshape).
  rewrite <- Hl. apply log_softmax_row_sum. rewrite Hl. lia.
Qed.

Lemma encoder_decoder_end_to_end_witness :
  let theta : params := fun _ _ => 0 in
  let xi : params := fun _ _ => 0 in
  let g : rng := fun _ _ => true in
  let source := of_list2 0%Z [[1; 2; 3; 4]]%Z in
  let target := of_list2 0%Z [[1; 2; 3]]%Z in
  let source_mask := full [1; 1; 4]%nat true in
  let target_mask := full [1; 3; 3]%nat true in
  exists model out g',
    build_model theta xi 5 5 1 8 16 2 0.1 = Ok model /\
    EncoderDecoder.forward (EncoderDecoder.train true model) source target
      (Some source_mask) (Some target_mask) g = Ok (out, g') /\
    shape out = [1; 3; 5]%nat /\
    (exists h y,
       Linear.forward
         (Decoder.projection (EncoderDecoder.decoder model)) h = Ok y /\
       out = log_softmax y) /\
    forall r, In r (indices [1; 3]%nat) ->
      sum_upto 5 (fun v => exp (get out (r ++ [v]))) = 1.
Proof.
  intros theta xi g.
  apply (encoder_decoder_end_to_end theta xi 0.1 true g). lra.
Defined.

(** ** The contract of the specification against the code *)

(** Softmax is invariant under a shift of its row, so that subtracting the
    maximum changes nothing. *)
Lemma softmax_shift n (f : nat -> R) a m :
  exp (a - m) / sum_upto n (fun j => exp (f j - m)) =
  exp a / sum_upto n (fun j => exp (f j)).
Proof.
  rewrite (sum_upto_ext n (fun j => exp (f j - m)) (fun j => exp (f j) * exp (- m))).
  2:{ intros j _. unfold Rminus. apply exp_plus. }
  rewrite sum_upto_scale.
  unfold Rminus. rewrite exp_plus.
  destruct n as [|n].
  - unfold sum_upto. simpl. unfold Rdiv. rewrite Rmult_0_l, Rinv_0. ring.
  - assert (0 < sum_upto (S n) (fun j => exp (f j))) as Hs
      by (apply sum_upto_pos; [lia | intros; apply exp_pos]).
    pose proof (exp_pos (- m)). field. split; lra.
Qed.

(** The sums of the specification are those of the library. *)
Lemma sum_upto_below n f : sum_upto n f = sum_below n f.
Proof.
  induction n as [|n IH]; [reflexivity|].
  rewrite sum_upto_S, IH. reflexivity.
Qed.

(** *** Broadcasting of the mask, dimension by dimension *)

Lemma bcast_rev_combine s : forall idx,
  bcast_rev s idx =
  map (fun di => if (fst di =? 1)%nat then 0%nat else snd di) (combine s idx).
Proof.
  induction s as [|d s IH]; intros [|i idx]; cbn [bcast_rev combine map];
    try reflexivity.
  now rewrite IH.
Qed.

Lemma combine_app_same {A B} (l1 l2 : list A) (k1 k2 : list B) :
  length l1 = length k1 ->
  combine (l1 ++ l2) (k1 ++ k2) = combine l1 k1 ++ combine l2 k2.
Proof.
  revert k1. induction l1 as [|a l1 IH]; intros [|b k1] H; try discriminate;
    cbn [app combine]; [reflexivity|].
  f_equal. apply IH. now inversion H.
Qed.

Lemma combine_rev_same {A B} (l : list A) (k : list B) :
  length l = length k -> combine (rev l) (rev k) = rev (combine l k).
Proof.
  revert k. induction l as [|a l IH]; intros [|b k] H; try discriminate;
    [reflexivity|].
  cbn [rev combine]. inversion H as [H'].
  rewrite combine_app_same by now rewrite !length_rev.
  now rewrite IH.
Qed.

Lemma combine_shorter {A B} (l : list A) (k1 k2 : list B) :
  length l = length k1 -> combine l (k1 ++ k2) = combine l k1.
Proof.
  revert k1. induction l as [|a l IH]; intros [|b k1] H; try discriminate;
    [reflexivity|].
  cbn [app combine]. f_equal. apply IH. now inversion H.
Qed.

(** Aligned on the last dimension: the shape [s] faces the last
    [length s] coordinates of the index. *)
Lemma combine_rev_aligned (s idx : list nat) :
  (length s <= length idx)%nat ->
  rev (combine (rev s) (rev idx)) =
  combine s (skipn (length idx - length s) idx).
Proof.
  intros H. set (n := (length idx - length s)%nat).
  rewrite <- (firstn_skipn n idx) at 1.
  rewrite rev_app_distr, combine_shorter.
  - rewrite combine_rev_same, rev_involutive; [reflexivity|].
    rewrite length_skipn. unfold n. lia.
  - rewrite !length_rev, length_skipn. unfold n. lia.
Qed.

Lemma bcast_index_mask_at (m : tensor bool) idx :
  (length (shape m) <= length idx)%nat ->
  get m (bcast_index (shape m) idx) = mask_at m idx.
Proof.
  intros H. unfold mask_at, bcast_index. f_equal.
  rewrite bcast_rev_combine, <- map_rev. f_equal.
  now apply combine_rev_aligned.
Qed.

Lemma broadcast_rev_fits sm : forall s,
  Forall2 (fun dm ds => dm = ds \/ dm = 1%nat) sm (firstn (length sm) s) ->
  broadcast_rev s sm = Some s.
Proof.
  induction sm as [|b sm IH]; intros [|a s] H.
  - reflexivity.
  - reflexivity.
  - inversion H.
  - cbn [length firstn] in H. inversion H as [|? ? ? ? Hab Hrest]; subst.
    cbn [broadcast_rev]. rewrite (IH s Hrest).
    destruct (Nat.eqb_spec a b) as [|Hne]; [reflexivity|].
    destruct Hab as [-> | ->]; [now contradiction Hne|].
    destruct (Nat.eqb_spec a 1) as [->|]; [now contradiction Hne|].
    reflexivity.
Qed.

Lemma Forall2_rev {A B} (P : A -> B -> Prop) l k :
  Forall2 P l k -> Forall2 P (rev l) (rev k).
Proof.
  induction 1 as [|a b l k Hab H IH]; cbn [rev]; [constructor|].
  apply Forall2_app; [exact IH | repeat constructor; exact Hab].
Qed.

(** A mask that broadcasts to the scores is accepted, and leaves their
    shape as it is. *)
Lemma mask_broadcasts_shapes s m :
  mask_broadcasts s (Some m) -> broadcast_shapes s (shape m) = Some s.
Proof.
  intros [Hlen H]. unfold broadcast_shapes.
  rewrite broadcast_rev_fits; [cbn; now rewrite rev_involutive|].
  rewrite length_rev, firstn_rev. now apply Forall2_rev.
Qed.

(** *** The scores, entry by entry *)

Lemma last_dim_app2 p a b : last_dim (p ++ [a; b]) = b.
Proof.
  replace (p ++ [a; b]) with ((p ++ [a]) ++ [b]) by now rewrite <- app_assoc.
  apply last_dim_app.
Qed.

Lemma row_of_app2 r i j j' : row_of (r ++ [i; j]) j' = r ++ [i; j'].
Proof.
  replace (r ++ [i; j]) with ((r ++ [i]) ++ [j]) by now rewrite <- app_assoc.
  rewrite row_of_app, <- app_assoc. reflexivity.
Qed.

(** The scaled (and masked) scores that [attention] computes. *)
Lemma attention_scores_run q k mask p nq d nk :
  shape q = p ++ [nq; d] -> shape k = p ++ [nk; d] ->
  mask_broadcasts (p ++ [nq; nk]) mask ->
  exists kt qk scores,
    size q (-1) = Ok d /\
    transpose k (-2) (-1) = Ok kt /\
    matmul q kt = Ok qk /\
    match mask with
    | Some m => masked_fill (div_scalar qk (sqrt (INR d))) (eq0 m) (-1e9) = Ok scores
    | None => scores = div_scalar qk (sqrt (INR d))
    end /\
    shape scores = p ++ [nq; nk] /\
    forall r i j, Forall2 lt r p ->
      get scores (r ++ [i; j]) = spec_scores q k d mask r i j.
Proof.
  intros Hq Hk Hm.
  pose proof (transpose_last2_run k p nk d Hk) as Et.
  set (kt := Tensor (p ++ [d; nk])
                    (fun idx => get k (swap (length p) (S (length p)) idx))) in *.
  pose proof (matmul_run q kt p nq d p nk p Hq eq_refl (broadcast_shapes_refl p))
    as Em.
  set (qk := Tensor (p ++ [nq; nk]) (matmul_get q kt p p d)) in *.
  assert (Es : size q (-1) = Ok d)
    by (apply (size_last_run q (p ++ [nq])); now rewrite <- app_assoc).
  assert (Hraw : forall r i j, Forall2 lt r p ->
    get (div_scalar qk (sqrt (INR d))) (r ++ [i; j])
    = sum_below d (fun c => get q (r ++ [i; c]) * get k (r ++ [j; c]))
      * (1 / sqrt (INR d))).
  { intros r i j Hr.
    assert (Hlen : length r = length p) by (eapply Forall2_length; exact Hr).
    unfold div_scalar, tmap, qk. cbn [get].
    rewrite matmul_get_at, (bcast_index_in_range p r Hr).
    rewrite (sum_upto_ext d _
               (fun c => get q (r ++ [i; c]) * get k (r ++ [j; c]))).
    - rewrite sum_upto_below. unfold Rdiv. ring.
    - intros c _. f_equal. unfold kt. cbn [get].
      now rewrite <- Hlen, swap_last2. }
  destruct mask as [m|].
  - pose proof (mask_broadcasts_shapes _ _ Hm) as Hb.
    destruct Hm as [Hlen _].
    eexists kt, qk, _. split; [exact Es|]. split; [exact Et|].
    split; [exact Em|]. split.
    { unfold masked_fill. cbn [shape div_scalar tmap eq0 qk].
      rewrite Hb, list_eqb_refl. reflexivity. }
    split; [reflexivity|].
    intros r i j Hr. cbn [get]. fold (div_scalar qk (sqrt (INR d))).
    rewrite (Hraw r i j Hr). unfold spec_scores.
    change (shape (eq0 m)) with (shape m).
    change (get (eq0 m)) with (fun idx => negb (get m idx)). cbv beta.
    rewrite bcast_index_mask_at.
    + now destruct (mask_at m (r ++ [i; j])).
    + assert (Hl : length r = length p) by (eapply Forall2_length; exact Hr).
      rewrite !length_app in *. cbn [length] in *. lia.
  - exists kt, qk, (div_scalar qk (sqrt (INR d))).
    split; [exact Es|]. split; [exact Et|]. split; [exact Em|].
    split; [reflexivity|]. split; [reflexivity|].
    intros r i j Hr. now rewrite (Hraw r i j Hr).
Qed.

(** C2: for query, key and value with the same leading dimensions and
    vectors of at least one feature, and a mask that broadcasts to the
    scores, [attention] returns what the specification describes.  The
    weights before dropout are, entry by entry, the max-subtraction softmax
    over the key positions of the dot products of query and key rows
    scaled by [1 / sqrt d_k], with the sentinel where the mask is false,
    and each of their rows sums to 1; the weights returned are these after
    the optional dropout, and the output is the sum of the values weighted
    by the weights returned. *)
Theorem attention_meets_spec q k v mask dropout p nq d nk dv g :
  shape q = p ++ [nq; d] -> shape k = p ++ [nk; d] -> shape v = p ++ [nk; dv] ->
  (0 < d)%nat ->
  mask_broadcasts (p ++ [nq; nk]) mask ->
  exists out w g' weights,
    attention q k v mask dropout g = Ok ((out, w), g') /\
    shape weights = p ++ [nq; nk] /\
    (forall r i j, Forall2 lt r p -> (i < nq)%nat -> (j < nk)%nat ->
       get weights (r ++ [i; j]) = spec_weights q k d nk mask r i j) /\
    (forall r i, Forall2 lt r p -> (i < nq)%nat -> (0 < nk)%nat ->
       sum_below nk (fun j => get weights (r ++ [i; j])) = 1) /\
    match dropout with
    | Some dr => Dropout.forward dr weights g = Ok (w, g')
    | None => w = weights /\ g' = g
    end /\
    shape w = p ++ [nq; nk] /\ shape out = p ++ [nq; dv] /\
    forall r i c, Forall2 lt r p -> (i < nq)%nat -> (c < dv)%nat ->
      get out (r ++ [i; c]) = spec_output w v nk r i c.
Proof.
  intros Hq Hk Hv _ Hm.
  destruct (attention_scores_run q k mask p nq d nk Hq Hk Hm)
    as (kt & qk & scores & Es & Et & Em & Hs & Hsh & Hent).
  set (weights := softmax scores).
  assert (Hwsh : shape weights = p ++ [nq; nk]) by exact Hsh.
  assert (Hdrop : exists w g',
    match dropout with
    | Some dr => Dropout.forward dr weights g = Ok (w, g')
    | None => w = weights /\ g' = g
    end /\ shape w = p ++ [nq; nk]).
  { destruct dropout as [dr|].
    - destruct (dropout_run dr weights g) as (w & g' & E & Hw).
      exists w, g'. split; [exact E|]. now rewrite Hw.
    - exists weights, g. auto. }
  destruct Hdrop as (w & g' & Hd & Hw).
  pose proof (matmul_run w v p nq nk p dv p Hw Hv (broadcast_shapes_refl p)) as Eo.
  exists (Tensor (p ++ [nq; dv]) (matmul_get w v p p nk)), w, g', weights.
  split.
  { unfold attention.
    rewrite (bind_lift_Ok _ _ Es), (bind_lift_Ok _ _ Et), (bind_lift_Ok _ _ Em).
    assert (Hscores : forall (f : tensor R -> M rng (tensor R * tensor R)),
      bind match mask with
           | Some mask => lift (masked_fill (div_scalar qk (sqrt (INR d)))
                                  (eq0 mask) (-1e9))
           | None => ret (div_scalar qk (sqrt (INR d)))
           end f g = f scores g).
    { intros f. destruct mask as [m|].
      - now rewrite (bind_lift_Ok _ _ Hs).
      - subst scores. reflexivity. }
    rewrite Hscores. fold weights.
    destruct dropout as [dr|].
    - rewrite (bind_run _ _ _ _ _ Hd), (bind_lift_Ok _ _ Eo). reflexivity.
    - destruct Hd as [-> ->]. unfold bind at 1. unfold ret at 1.
      rewrite (bind_lift_Ok _ _ Eo). reflexivity. }
  split; [exact Hwsh|].
  assert (Hweight : forall r i j, Forall2 lt r p ->
    get weights (r ++ [i; j]) =
    exp (spec_scores q k d mask r i j) /
    sum_upto nk (fun j' => exp (spec_scores q k d mask r i j'))).
  { intros r i j Hr. unfold weights, softmax. cbn [get].
    rewrite Hsh, last_dim_app2, (Hent r i j Hr). f_equal.
    apply sum_upto_ext. intros j' _. now rewrite row_of_app2, (Hent r i j' Hr). }
  split.
  { intros r i j Hr _ _. rewrite (Hweight r i j Hr). unfold spec_weights.
    cbv zeta. now rewrite <- sum_upto_below, softmax_shift. }
  split.
  { intros r i Hr _ Hnk. rewrite <- sum_upto_below.
    rewrite (sum_upto_ext nk _
               (fun j => exp (spec_scores q k d mask r i j) /
                         sum_upto nk (fun j' => exp (spec_scores q k d mask r i j'))))
      by (intros j _; apply (Hweight r i j Hr)).
    rewrite sum_upto_div. apply Rdiv_diag.
    assert (0 < sum_upto nk (fun j' => exp (spec_scores q k d mask r i j')))
      by (apply sum_upto_pos; [exact Hnk | intros; apply exp_pos]).
    lra. }
  split; [exact Hd|]. split; [exact Hw|]. split; [reflexivity|].
  intros r i c Hr _ _. cbn [get]. unfold spec_output.
  now rewrite matmul_get_at, (bcast_index_in_range p r Hr), sum_upto_below.
Qed.

Lemma attention_meets_spec_witness :
  let q := of_list2 0 [[1; 0]; [0; 1]] in
  let k := of_list2 0 [[1; 2]; [3; 4]; [5; 6]] in
  let v := of_list2 0 [[1; 0]; [0; 1]; [1; 1]] in
  let mask := Some (of_list2 true [[true; true; false]]) in
  let dropout := Some (Dropout.Make 0.1 true) in
  let g : rng := fun _ _ => true in
  exists out w g' weights,
    attention q k v mask dropout g = Ok ((out, w), g') /\
    shape weights = [] ++ [2; 3]%nat /\
    (forall r i j, Forall2 lt r [] -> (i < 2)%nat -> (j < 3)%nat ->
       get weights (r ++ [i; j]) = spec_weights q k 2 3 mask r i j) /\
    (forall r i, Forall2 lt r [] -> (i < 2)%nat -> (0 < 3)%nat ->
       sum_below 3 (fun j => get weights (r ++ [i; j])) = 1) /\
    match dropout with
    | Some dr => Dropout.forward dr weights g = Ok (w, g')
    | None => w = weights /\ g' = g
    end /\
    shape w = [] ++ [2; 3]%nat /\ shape out = [] ++ [2; 2]%nat /\
    forall r i c, Forall2 lt r [] -> (i < 2)%nat -> (c < 2)%nat ->
      get out (r ++ [i; c]) = spec_output w v 3 r i c.
Proof.
  intros q k v mask dropout g.
  apply (attention_meets_spec q k v mask dropout [] 2 2 3 2 g).
  - reflexivity.
  - reflexivity.
  - reflexivity.
  - lia.
  - split; [cbn; lia|]. cbn.
    apply Forall2_cons; [now right|].
    apply Forall2_cons; [now left | apply Forall2_nil].
Defined.

(** * Further properties of the code *)

(** ** Attention under an arbitrary mask *)

Lemma masked_fill_Ok t m v t' :
  masked_fill t m v = Ok t' ->
  t' = Tensor (shape t)
         (fun idx => if get m (bcast_index (shape m) idx) then v else get t idx).
Proof.
  unfold masked_fill.
  destruct (broadcast_shapes (shape t) (shape m)); [|discriminate].
  destruct (list_eqb l (shape t)); [|discriminate].
  intros H. now inversion H.
Qed.

(** Without dropout the weights are the softmax of the (masked) scores,
    which have the shape of the product of query and transposed key. *)
Lemma attention_weights_softmax q k v mask g out w g' n :
  attention q k v mask None g = Ok ((out, w), g') ->
  size k (-2) = Ok n ->
  exists scores,
    w = softmax scores /\ last_dim (shape scores) = n /\ matmul w v = Ok out /\
    (forall m, mask = Some m ->
       forall idx, get m (bcast_index (shape m) idx) = false ->
                   get scores idx = -1e9).
Proof.
  intros H Hn.
  apply attention_Ok in H as (d_k & kt & qk & scores & _ & Et & Em & Hs & [-> _] & Ho).
  pose proof (attention_scores_shape q k kt qk n Et Em Hn) as Hl.
  exists scores. split; [reflexivity|].
  destruct mask as [m|].
  - apply masked_fill_Ok in Hs. subst scores. cbn [shape div_scalar tmap].
    split; [exact Hl|]. split; [exact Ho|].
    intros m' Hm' idx Hidx. inversion Hm'; subst m'. cbn [get shape eq0 tmap].
    now rewrite Hidx.
  - subst scores. split; [exact Hl|]. split; [exact Ho|]. discriminate.
Qed.

Lemma softmax_entry_bounds (x : tensor R) r j :
  (j < last_dim (shape x))%nat ->
  0 < get (softmax x) (r ++ [j]) <= 1.
Proof.
  intros Hj. unfold softmax. cbn [get].
  rewrite (sum_upto_ext _ (fun j0 => exp (get x (row_of (r ++ [j]) j0)))
             (fun j0 => exp (get x (r ++ [j0]))))
    by (intros; now rewrite row_of_app).
  set (total := sum_upto _ _).
  assert (exp (get x (r ++ [j])) <= total) as Hle.
  { apply (sum_upto_term_le _ (fun j0 => exp (get x (r ++ [j0])))); [|exact Hj].
    intros. left. apply exp_pos. }
  pose proof (exp_pos (get x (r ++ [j]))) as Hp.
  split.
  - apply Rdiv_lt_0_compat; lra.
  - apply Rmult_le_reg_r with total; [lra|].
    replace (exp (get x (r ++ [j])) / total * total) with (exp (get x (r ++ [j])))
      by (field; lra).
    lra.
Qed.

(** X1: whatever the mask, without dropout, for vectors of at least one
    feature and with at least one key position, every row of the weights
    that [attention] returns sums to 1, and every weight lies between 0
    and 1. *)
Theorem attention_masked_weights_distribution q k v mask g out w g' d n :
  attention q k v mask None g = Ok ((out, w), g') ->
  size q (-1) = Ok d -> (0 < d)%nat ->
  size k (-2) = Ok n -> (0 < n)%nat ->
  rows_sum_to_one w /\
  forall r j, (j < n)%nat -> 0 <= get w (r ++ [j]) <= 1.
Proof.
  intros H _ _ Hn Hpos.
  destruct (attention_weights_softmax q k v mask g out w g' n H Hn)
    as (scores & -> & Hl & _ & _).
  split.
  - apply softmax_rows. now rewrite Hl.
  - intros r j Hj.
    destruct (softmax_entry_bounds scores r j) as [H0 H1]; [now rewrite Hl|].
    split; [now apply Rlt_le | exact H1].
Qed.

Lemma attention_masked_weights_distribution_witness :
  let q := ones [2; 1]%nat in
  let mask := full [2; 2]%nat false in
  exists out w g',
    attention q q q (Some mask) None (fun _ _ => true) = Ok ((out, w), g') /\
    rows_sum_to_one w /\
    forall r j, (j < 2)%nat -> 0 <= get w (r ++ [j]) <= 1.
Proof.
  intros q mask. do 3 eexists. split; [vm_compute; reflexivity|].
  eapply (attention_masked_weights_distribution q q q (Some mask) (fun _ _ => true)
            _ _ _ 1%nat 2%nat).
  - vm_compute; reflexivity.
  - reflexivity.
  - lia.
  - reflexivity.
  - lia.
Defined.

(** X2: a row whose key positions are all masked receives uniform weights:
    every score of the row is the sentinel, and the softmax gives [1 / n]
    to each of the [n] key positions. *)
Theorem attention_fully_masked_row_uniform q k v mask g out w g' n r :
  attention q k v (Some mask) None g = Ok ((out, w), g') ->
  size k (-2) = Ok n ->
  (forall j, (j < n)%nat -> get mask (bcast_index (shape mask) (r ++ [j])) = false) ->
  forall j, (j < n)%nat -> get w (r ++ [j]) = 1 / INR n.
Proof.
  intros H Hn Hrow j Hj.
  destruct (attention_weights_softmax q k v (Some mask) g out w g' n H Hn)
    as (scores & -> & Hl & _ & Hfill).
  unfold softmax. cbn [get]. rewrite Hl.
  rewrite (sum_upto_ext n _ (fun _ => exp (-1e9))).
  2:{ intros j0 Hj0. rewrite row_of_app.
      now rewrite (Hfill mask eq_refl _ (Hrow j0 Hj0)). }
  rewrite (Hfill mask eq_refl _ (Hrow j Hj)), sum_upto_const.
  pose proof (exp_pos (-1e9)).
  assert (0 < INR n) by (apply lt_0_INR; lia).
  field. split; lra.
Qed.

Lemma attention_fully_masked_row_uniform_witness :
  let q := ones [2; 1]%nat in
  let mask := full [2; 2]%nat false in
  exists out w g',
    attention q q q (Some mask) None (fun _ _ => true) = Ok ((out, w), g') /\
    forall j, (j < 2)%nat -> get w ([0%nat] ++ [j]) = 1 / INR 2.
Proof.
  intros q mask. do 3 eexists. split; [vm_compute; reflexivity|].
  eapply (attention_fully_masked_row_uniform q q q mask (fun _ _ => true)).
  - vm_compute; reflexivity.
  - vm_compute; reflexivity.
  - intros j Hj. reflexivity.
Defined.

(** ** The output of attention as an average of the values *)

Lemma weighted_average_bounds n (a b : nat -> R) lo hi :
  (forall k, (k < n)%nat -> 0 <= a k) ->
  sum_upto n a = 1 ->
  (forall k, (k < n)%nat -> lo <= b k <= hi) ->
  lo <= sum_upto n (fun k => a k * b k) <= hi.
Proof.
  intros Ha Hsum Hb.
  assert (Hlo : 0 <= sum_upto n (fun k => a k * (b k - lo))).
  { clear Hsum. induction n as [|n IH]; [unfold sum_upto; simpl; lra|].
    rewrite sum_upto_S.
    assert (0 <= a n * (b n - lo)).
    { apply Rmult_le_pos; [apply Ha; lia|]. specialize (Hb n ltac:(lia)). lra. }
    assert (0 <= sum_upto n (fun k => a k * (b k - lo))).
    { apply IH; intros; [apply Ha | apply Hb]; lia. }
    lra. }
  assert (Hhi : 0 <= sum_upto n (fun k => a k * (hi - b k))).
  { clear Hsum Hlo. induction n as [|n IH]; [unfold sum_upto; simpl; lra|].
    rewrite sum_upto_S.
    assert (0 <= a n * (hi - b n)).
    { apply Rmult_le_pos; [apply Ha; lia|]. specialize (Hb n ltac:(lia)). lra. }
    assert (0 <= sum_upto n (fun k => a k * (hi - b k))).
    { apply IH; intros; [apply Ha | apply Hb]; lia. }
    lra. }
  rewrite (sum_upto_ext n (fun k => a k * (b k - lo))
             (fun k => a k * b k + a k * - lo)) in Hlo by (intros; ring).
  rewrite (sum_upto_ext n (fun k => a k * (hi - b k))
             (fun k => a k * hi + - (a k * b k))) in Hhi by (intros; ring).
  rewrite sum_upto_plus, sum_upto_scale, Hsum in Hlo.
  rewrite sum_upto_plus, sum_upto_scale, Hsum in Hhi.
  rewrite (sum_upto_ext n (fun k => - (a k * b k)) (fun k => a k * b k * -1)) in Hhi
    by (intros; ring).
  rewrite sum_upto_scale in Hhi. lra.
Qed.

(** The call on query, key and value with the same leading dimensions. *)
Lemma attention_same_prefix q k v mask g out w g' p nq d nk dv :
  attention q k v mask None g = Ok ((out, w), g') ->
  shape q = p ++ [nq; d] -> shape k = p ++ [nk; d] -> shape v = p ++ [nk; dv] ->
  exists scores,
    w = softmax scores /\ shape scores = p ++ [nq; nk] /\
    out = Tensor (p ++ [nq; dv]) (matmul_get w v p p nk).
Proof.
  intros H Hq Hk Hv.
  apply attention_Ok in H as (d_k & kt & qk & scores & _ & Et & Em & Hs & [-> _] & Ho).
  rewrite (transpose_last2_run k p nk d Hk) in Et. inversion Et; subst kt.
  match type of Em with
  | matmul q ?t = _ =>
      rewrite (matmul_run q t p nq d p nk p Hq eq_refl (broadcast_shapes_refl p))
        in Em
  end.
  inversion Em; subst qk.
  assert (shape scores = p ++ [nq; nk]) as Hsh.
  { destruct mask as [m|].
    - apply masked_fill_Ok in Hs. now subst scores.
    - now subst scores. }
  exists scores. split; [reflexivity|]. split; [exact Hsh|].
  rewrite (matmul_run (softmax scores) v p nq nk p dv p Hsh Hv
             (broadcast_shapes_refl p)) in Ho.
  now inversion Ho.
Qed.

(** X3: without dropout and for vectors of at least one feature, every
    entry of the output of [attention] is a weighted average of the
    corresponding entries of the values: it lies between any two bounds
    that hold for them over the key positions. *)
Theorem attention_output_between_values q k v mask g out w g' p nq d nk dv
    r i j lo hi :
  attention q k v mask None g = Ok ((out, w), g') ->
  shape q = p ++ [nq; d] -> shape k = p ++ [nk; d] -> shape v = p ++ [nk; dv] ->
  (0 < d)%nat -> (0 < nk)%nat -> Forall2 lt r p ->
  (forall c, (c < nk)%nat -> lo <= get v (r ++ [c; j]) <= hi) ->
  get out (r ++ [i; j]) =
    sum_upto nk (fun c => get w (r ++ [i; c]) * get v (r ++ [c; j])) /\
  lo <= get out (r ++ [i; j]) <= hi.
Proof.
  intros H Hq Hk Hv _ Hnk Hr Hb.
  destruct (attention_same_prefix q k v mask g out w g' p nq d nk dv H Hq Hk Hv)
    as (scores & -> & Hsh & ->).
  cbn [get]. rewrite matmul_get_at, (bcast_index_in_range p r Hr).
  split; [reflexivity|].
  assert (last_dim (shape scores) = nk) as Hl.
  { rewrite Hsh.
    replace (p ++ [nq; nk]) with ((p ++ [nq]) ++ [nk]) by now rewrite <- app_assoc.
    apply last_dim_app. }
  apply weighted_average_bounds.
  - intros c Hc.
    replace (r ++ [i; c]) with ((r ++ [i]) ++ [c]) by now rewrite <- app_assoc.
    left. apply softmax_entry_bounds. now rewrite Hl.
  - rewrite (sum_upto_ext nk _ (fun c => get (softmax scores) ((r ++ [i]) ++ [c])))
      by (intros; now rewrite <- app_assoc).
    rewrite <- Hl. apply softmax_row_sum. now rewrite Hl.
  - exact Hb.
Qed.

Lemma attention_output_between_values_witness :
  let q := ones [2; 1]%nat in
  let v := of_list2 0 [[3]; [5]] in
  exists out w g',
    attention q q v None None (fun _ _ => true) = Ok ((out, w), g') /\
    get out ([] ++ [0; 0]%nat) =
      sum_upto 2 (fun c => get w ([] ++ [0%nat; c]) * get v ([] ++ [c; 0%nat])) /\
    3 <= get out ([] ++ [0; 0]%nat) <= 5.
Proof.
  intros q v. do 3 eexists. split; [vm_compute; reflexivity|].
  eapply (attention_output_between_values q q v None (fun _ _ => true)
            _ _ _ [] 2%nat 1%nat 2%nat 1%nat [] 0%nat 0%nat 3 5).
  - vm_compute; reflexivity.
  - reflexivity.
  - reflexivity.
  - reflexivity.
  - lia.
  - lia.
  - constructor.
  - intros c Hc. destruct c as [|[|c]]; [simpl; lra | simpl; lra | lia].
Defined.

(** ** Linear layers and the feed-forward network *)

Lemma dim_of_nonneg n : (0 <= n)%Z -> dim_of n = Ok (Z.to_nat n).
Proof.
  intros H. unfold dim_of.
  now assert ((n <? 0)%Z = false) as -> by (apply Z.ltb_ge; lia).
Qed.

Lemma dim_of_neg n : (n < 0)%Z -> dim_of n = Raise RuntimeError.
Proof.
  intros H. unfold dim_of.
  now assert ((n <? 0)%Z = true) as -> by (apply Z.ltb_lt; lia).
Qed.

Lemma linear_init_Ok theta i o l :
  Linear.init theta i o = Ok l ->
  (0 <= i)%Z /\ (0 <= o)%Z /\
  shape (Linear.weight l) = [Z.to_nat o; Z.to_nat i] /\
  shape (Linear.bias l) = [Z.to_nat o].
Proof.
  unfold Linear.init, dim_of.
  destruct (Z.ltb_spec i 0) as [|Hi]; [discriminate|].
  destruct (Z.ltb_spec o 0) as [|Ho]; [discriminate|].
  intros E. inversion E. repeat split; assumption.
Qed.

Lemma linear_forward_run (l : Linear.t) x p i o :
  shape x = p ++ [i] -> shape (Linear.weight l) = [o; i] ->
  Linear.forward l x =
    Ok (Tensor (p ++ [o])
          (fun idx =>
             sum_upto i (fun k => get x (row_of idx k) *
                                  get (Linear.weight l) [last idx 0%nat; k])
             + get (Linear.bias l) [last idx 0%nat])).
Proof.
  intros Hx Hw. unfold Linear.forward.
  destruct (shape_nonempty_app p i) as (a & s & E).
  rewrite Hw, Hx, E, <- E, last_dim_app, Nat.eqb_refl, removelast_last.
  reflexivity.
Qed.

Lemma linear_forward_refused (l : Linear.t) x p d i o :
  shape x = p ++ [d] -> shape (Linear.weight l) = [o; i] -> d <> i ->
  Linear.forward l x = Raise RuntimeError.
Proof.
  intros Hx Hw Hd. unfold Linear.forward.
  destruct (shape_nonempty_app p d) as (a & s & E).
  rewrite Hw, Hx, E, <- E, last_dim_app.
  now assert ((d =? i)%nat = false) as -> by now apply Nat.eqb_neq.
Qed.

Lemma ffn_init_Ok theta d_model d_ff dropout self :
  PositionwiseFFN.init theta d_model d_ff dropout = Ok self ->
  (0 <= d_model)%Z /\ (0 <= d_ff)%Z /\
  shape (Linear.weight (PositionwiseFFN.w_1 self))
    = [Z.to_nat d_ff; Z.to_nat d_model] /\
  shape (Linear.weight (PositionwiseFFN.w_2 self))
    = [Z.to_nat d_model; Z.to_nat d_ff] /\
  PositionwiseFFN.dropout self = Dropout.init dropout.
Proof.
  unfold PositionwiseFFN.init.
  destruct (Linear.init (child theta 0) d_model d_ff) as [w1|e] eqn:E1;
    destruct (Linear.init (child theta 1) d_ff d_model) as [w2|e'] eqn:E2;
    try discriminate.
  intros H. inversion H; subst self. cbn.
  apply linear_init_Ok in E1 as (H1 & H2 & H3 & _).
  apply linear_init_Ok in E2 as (_ & _ & H4 & _).
  repeat split; assumption.
Qed.

(** X4: the feed-forward network keeps the shape of its input and works
    position by position.  In evaluation mode it draws nothing and computes
    [w_2 (relu (w_1 x + b_1)) + b_2] from the features of each position
    alone. *)
Theorem ffn_forward_positionwise theta d_model d_ff dropout self x p g :
  PositionwiseFFN.init theta d_model d_ff dropout = Ok self ->
  shape x = p ++ [Z.to_nat d_model] ->
  (exists y g', PositionwiseFFN.forward self x g = Ok (y, g') /\
                shape y = shape x) /\
  exists y,
    PositionwiseFFN.forward (PositionwiseFFN.train false self) x g = Ok (y, g) /\
    shape y = shape x /\
    forall r c,
      get y (r ++ [c]) =
      sum_upto (Z.to_nat d_ff)
        (fun k =>
           Rmax (sum_upto (Z.to_nat d_model)
                   (fun j => get x (r ++ [j]) *
                             get (Linear.weight (PositionwiseFFN.w_1 self)) [k; j])
                 + get (Linear.bias (PositionwiseFFN.w_1 self)) [k]) 0 *
           get (Linear.weight (PositionwiseFFN.w_2 self)) [c; k])
      + get (Linear.bias (PositionwiseFFN.w_2 self)) [c].
Proof.
  intros Hinit Hx.
  apply ffn_init_Ok in Hinit as (_ & _ & Hw1 & Hw2 & _).
  set (dm := Z.to_nat d_model) in *. set (dff := Z.to_nat d_ff) in *.
  pose proof (linear_forward_run (PositionwiseFFN.w_1 self) x p dm dff Hx Hw1) as E1.
  match type of E1 with _ = Ok ?t => set (h := t) in * end.
  split.
  - destruct (dropout_run (PositionwiseFFN.dropout self) (relu h) g)
      as (dr & g' & Ed & Hds).
    pose proof (linear_forward_run (PositionwiseFFN.w_2 self) dr p dff dm Hds Hw2)
      as E2.
    eexists. exists g'. unfold PositionwiseFFN.forward.
    rewrite (bind_lift_Ok _ _ E1). unfold bind at 1. rewrite Ed.
    unfold lift. rewrite E2. split; [reflexivity|]. now rewrite Hx.
  - pose proof (linear_forward_run (PositionwiseFFN.w_2 self) (relu h) p dff dm
                  eq_refl Hw2) as E2.
    eexists. unfold PositionwiseFFN.forward.
    cbn [PositionwiseFFN.train PositionwiseFFN.w_1 PositionwiseFFN.w_2
         PositionwiseFFN.dropout].
    rewrite (bind_lift_Ok _ _ E1).
    unfold bind at 1, Dropout.forward, Dropout.train. cbn [Dropout.training ret].
    unfold lift. rewrite E2.
    split; [reflexivity|]. split; [now rewrite Hx|].
    intros r c. cbn [get]. rewrite last_last. f_equal.
    apply sum_upto_ext. intros k _. rewrite row_of_app. unfold relu, h.
    cbn [get tmap]. rewrite last_last. f_equal. f_equal. f_equal.
    apply sum_upto_ext. intros j _. now rewrite row_of_app.
Qed.

Lemma ffn_forward_positionwise_witness :
  let x := ones [1; 3; 8]%nat in
  let g := fun (_ : nat) (_ : index) => true in
  exists self,
    PositionwiseFFN.init (fun _ _ => 0) 8 16 0.1 = Ok self /\
    (exists y g', PositionwiseFFN.forward self x g = Ok (y, g') /\
                  shape y = shape x) /\
    exists y,
      PositionwiseFFN.forward (PositionwiseFFN.train false self) x g = Ok (y, g) /\
      shape y = shape x /\
      forall r c,
        get y (r ++ [c]) =
        sum_upto (Z.to_nat 16)
          (fun k =>
             Rmax (sum_upto (Z.to_nat 8)
                     (fun j => get x (r ++ [j]) *
                               get (Linear.weight (PositionwiseFFN.w_1 self)) [k; j])
                   + get (Linear.bias (PositionwiseFFN.w_1 self)) [k]) 0 *
             get (Linear.weight (PositionwiseFFN.w_2 self)) [c; k])
        + get (Linear.bias (PositionwiseFFN.w_2 self)) [c].
Proof.
  intros x g. eexists. split; [reflexivity|].
  apply (ffn_forward_positionwise (fun _ _ => 0) 8 16 0.1 _ x [1; 3]%nat g).
  - reflexivity.
  - reflexivity.
Defined.

(** ** Embeddings *)

Lemma embedding_init_Ok theta n d e :
  Embedding.init theta n d = Ok e ->
  (0 <= n)%Z /\ (0 <= d)%Z /\
  Embedding.weight e = Tensor [Z.to_nat n; Z.to_nat d] (theta [0%nat]).
Proof.
  unfold Embedding.init, dim_of.
  destruct (Z.ltb_spec n 0) as [|Hn]; [discriminate|].
  destruct (Z.ltb_spec d 0) as [|Hd]; [discriminate|].
  intros E. inversion E. auto.
Qed.

(** X5: with a table that is not empty (a positive vocabulary size and
    model dimension), the embedding layer accepts a tensor of tokens
    exactly when every token is in the vocabulary, and raises [IndexError]
    otherwise; the result has one more dimension, of size [d_model], and
    holds the row of the table of each token scaled by [sqrt d_model]. *)
Theorem embeddings_forward_in_vocabulary theta d_model vocab_size self
    (x : tensor Z) :
  Embeddings.init theta d_model vocab_size = Ok self ->
  (0 < vocab_size)%Z -> (0 < d_model)%Z ->
  (is_ok (Embeddings.forward self x) = true <->
   forall idx, In idx (indices (shape x)) -> (0 <= get x idx < vocab_size)%Z) /\
  (is_ok (Embeddings.forward self x) = false ->
   Embeddings.forward self x = Raise IndexError) /\
  (forall y, Embeddings.forward self x = Ok y ->
     shape y = shape x ++ [Z.to_nat d_model] /\
     forall idx c,
       get y (idx ++ [c]) =
       get (Embedding.weight (Embeddings.lut self)) [Z.to_nat (get x idx); c]
       * sqrt (IZR d_model)).
Proof.
  unfold Embeddings.init. intros Hinit _ _.
  destruct (Embedding.init theta vocab_size d_model) as [lut|e] eqn:El;
    [|discriminate].
  inversion Hinit; subst self. clear Hinit.
  apply embedding_init_Ok in El as (Hv & Hd & Hw).
  unfold Embeddings.forward, Embedding.forward.
  cbn [Embeddings.lut Embeddings.d_model]. rewrite Hw. cbn [shape].
  set (ok := forallb _ _).
  assert (Hok : ok = true <->
                forall idx, In idx (indices (shape x)) ->
                            (0 <= get x idx < vocab_size)%Z).
  { unfold ok. rewrite forallb_forall. split; intros H idx Hin.
    - specialize (H idx Hin). apply andb_prop in H as [H1 H2].
      apply Z.leb_le in H1. apply Z.ltb_lt in H2. lia.
    - specialize (H idx Hin). apply andb_true_intro.
      split; [apply Z.leb_le | apply Z.ltb_lt]; lia. }
  destruct ok.
  - split; [|split].
    + split; [intros _; now apply Hok | reflexivity].
    + discriminate.
    + intros y Hy. inversion Hy. cbn [shape get mul_scalar tmap].
      split; [reflexivity|]. intros idx c.
      now rewrite removelast_last, last_last.
  - split; [|split].
    + split; [discriminate|]. intros H. now apply Hok.
    + reflexivity.
    + discriminate.
Qed.

Lemma embeddings_forward_in_vocabulary_witness :
  let x := of_list2 0%Z [[1; 2; 3; 4]]%Z in
  exists self,
    Embeddings.init (fun _ _ => 1) 8 5 = Ok self /\
    (is_ok (Embeddings.forward self x) = true <->
     forall idx, In idx (indices (shape x)) -> (0 <= get x idx < 5)%Z) /\
    (is_ok (Embeddings.forward self x) = false ->
     Embeddings.forward self x = Raise IndexError) /\
    (forall y, Embeddings.forward self x = Ok y ->
       shape y = shape x ++ [Z.to_nat 8] /\
       forall idx c,
         get y (idx ++ [c]) =
         get (Embedding.weight (Embeddings.lut self)) [Z.to_nat (get x idx); c]
         * sqrt (IZR 8)).
Proof.
  intros x. eexists. split; [reflexivity|].
  apply (embeddings_forward_in_vocabulary (fun _ _ => 1) 8 5 _ x);
    [reflexivity | lia | lia].
Defined.

(** ** Positional encoding *)

Lemma even_of_nat n : Z.even (Z.of_nat n) = Nat.even n.
Proof.
  destruct (Nat.Even_or_Odd n) as [[k ->]|[k ->]].
  - rewrite Nat2Z.inj_mul, Z.even_mul, Nat.even_mul. reflexivity.
  - rewrite Nat2Z.inj_add, Nat2Z.inj_mul, Z.even_add, Nat.even_add,
      Z.even_mul, Nat.even_mul. reflexivity.
Qed.

Lemma positional_encoding_init_run (d l : nat) dropout :
  (d = 1 \/ (0 < d /\ Nat.even d = true))%nat ->
  PositionalEncoding.init (Z.of_nat d) dropout (Z.of_nat l) =
  Ok (PositionalEncoding.Make (Dropout.init dropout)
        (Tensor [1%nat; l; d]
           (fun idx =>
              let position := INR (nth 1 idx 0%nat) in
              let c := nth 2 idx 0%nat in
              let div_term (i : nat) := exp (INR (2 * i) * - (ln 10000 / INR d)) in
              if Nat.even c then sin (position * div_term (c / 2)%nat)
              else cos (position * div_term (c / 2)%nat)))).
Proof.
  intros Hd. unfold PositionalEncoding.init. rewrite !dim_of_nat.
  assert ((d =? 0)%nat = false) as -> by (apply Nat.eqb_neq; lia).
  assert (Nat.odd d && negb (d =? 1)%nat = false) as ->.
  { destruct Hd as [->|[_ He]]; [reflexivity|].
    unfold Nat.odd. now rewrite He. }
  reflexivity.
Qed.

(** X6: for a dropout rate between 0 and 1 (the rates that
    [torch.nn.Dropout] accepts), building the positional encoding fails for
    a model dimension of 0 (division by zero), for a negative one and for
    an odd one other than 1 (the cosine columns do not fit); otherwise it
    returns a table of shape [[1, max_len, d_model]]. *)
Theorem positional_encoding_init_dimension (d_model : Z) (max_len : nat) dropout :
  0 <= dropout <= 1 ->
  let init := PositionalEncoding.init d_model dropout (Z.of_nat max_len) in
  ((d_model < 0)%Z -> init = Raise RuntimeError) /\
  (d_model = 0%Z -> init = Raise ZeroDivisionError) /\
  ((1 < d_model)%Z -> Z.odd d_model = true -> init = Raise RuntimeError) /\
  (d_model = 1%Z \/ ((0 < d_model)%Z /\ Z.even d_model = true) ->
   exists self,
     init = Ok self /\
     shape (PositionalEncoding.pe self) = [1%nat; max_len; Z.to_nat d_model] /\
     PositionalEncoding.dropout self = Dropout.init dropout).
Proof.
  intros _ init. subst init. split; [|split; [|split]].
  - intros H. unfold PositionalEncoding.init.
    rewrite dim_of_nat, (dim_of_neg d_model H). reflexivity.
  - intros ->. unfold PositionalEncoding.init. now rewrite dim_of_nat.
  - intros H Hodd. unfold PositionalEncoding.init.
    rewrite dim_of_nat, dim_of_nonneg by lia.
    assert ((Z.to_nat d_model =? 0)%nat = false) as -> by (apply Nat.eqb_neq; lia).
    assert (Nat.odd (Z.to_nat d_model) = true) as ->.
    { rewrite <- (Z2Nat.id d_model), <- Z.negb_even, even_of_nat in Hodd by lia.
      exact Hodd. }
    assert ((Z.to_nat d_model =? 1)%nat = false) as -> by (apply Nat.eqb_neq; lia).
    reflexivity.
  - intros H.
    assert (Hd : (Z.to_nat d_model = 1 \/
                 (0 < Z.to_nat d_model /\ Nat.even (Z.to_nat d_model) = true))%nat).
    { destruct H as [->|[Hp He]]; [now left|]. right. split; [lia|].
      rewrite <- (Z2Nat.id d_model), even_of_nat in He by lia.
      exact He. }
    pose proof (positional_encoding_init_run (Z.to_nat d_model) max_len dropout Hd)
      as E.
    rewrite Z2Nat.id in E by (destruct H as [->|[Hp _]]; lia).
    rewrite E.
    eexists. split; [reflexivity|]. split; reflexivity.
Qed.

Lemma positional_encoding_init_dimension_witness :
  let init := PositionalEncoding.init 512 0.1 (Z.of_nat 5000) in
  ((512 < 0)%Z -> init = Raise RuntimeError) /\
  (512%Z = 0%Z -> init = Raise ZeroDivisionError) /\
  ((1 < 512)%Z -> Z.odd 512 = true -> init = Raise RuntimeError) /\
  (512%Z = 1%Z \/ ((0 < 512)%Z /\ Z.even 512 = true) ->
   exists self,
     init = Ok self /\
     shape (PositionalEncoding.pe self) = [1%nat; 5000%nat; Z.to_nat 512] /\
     PositionalEncoding.dropout self = Dropout.init 0.1).
Proof.
  apply (positional_encoding_init_dimension 512 5000 0.1). lra.
Defined.

Lemma positional_encoding_init_Ok (d l : nat) dropout self :
  PositionalEncoding.init (Z.of_nat d) dropout (Z.of_nat l) = Ok self ->
  d <> 0%nat /\
  self = PositionalEncoding.Make (Dropout.init dropout)
        (Tensor [1%nat; l; d]
           (fun idx =>
              let position := INR (nth 1 idx 0%nat) in
              let c := nth 2 idx 0%nat in
              let div_term (i : nat) := exp (INR (2 * i) * - (ln 10000 / INR d)) in
              if Nat.even c then sin (position * div_term (c / 2)%nat)
              else cos (position * div_term (c / 2)%nat))).
Proof.
  unfold PositionalEncoding.init. rewrite !dim_of_nat.
  destruct (Nat.eqb_spec d 0); [discriminate|].
  destruct (Nat.odd d && negb (d =? 1)%nat); [discriminate|].
  intros H. inversion H. auto.
Qed.

(** X7: the table, computed in log space, holds the sinusoids of the
    original formulation: at position [pos], column [2 i] is the sine and
    column [2 i + 1] the cosine of [pos / 10000 ^ (2 i / d_model)]; every
    entry lies between -1 and 1. *)
Theorem positional_encoding_table (d l : nat) dropout self b pos i :
  PositionalEncoding.init (Z.of_nat d) dropout (Z.of_nat l) = Ok self ->
  let angle := INR pos / Rpower 10000 (INR (2 * i) / INR d) in
  get (PositionalEncoding.pe self) [b; pos; (2 * i)%nat] = sin angle /\
  get (PositionalEncoding.pe self) [b; pos; (2 * i + 1)%nat] = cos angle /\
  forall idx, -1 <= get (PositionalEncoding.pe self) idx <= 1.
Proof.
  intros H angle. apply positional_encoding_init_Ok in H as [Hd ->].
  cbn [PositionalEncoding.pe get nth].
  assert (Hang : forall k, (k / 2 = i)%nat ->
            INR pos * exp (INR (2 * (k / 2)) * - (ln 10000 / INR d)) = angle).
  { intros k ->. unfold angle, Rpower, Rdiv.
    replace (INR (2 * i) * - (ln 10000 * / INR d))
      with (- (INR (2 * i) * / INR d * ln 10000)) by ring.
    now rewrite exp_Ropp. }
  assert (E1 : ((2 * i) / 2 = i)%nat) by (rewrite Nat.mul_comm; now apply Nat.div_mul).
  assert (E2 : ((2 * i + 1) / 2 = i)%nat).
  { rewrite (Nat.mul_comm 2 i), Nat.div_add_l by discriminate. simpl. lia. }
  assert (Nat.even (2 * i) = true) as ->
    by (rewrite Nat.even_mul; reflexivity).
  assert (Nat.even (2 * i + 1) = false) as ->
    by (rewrite Nat.even_add, Nat.even_mul; reflexivity).
  rewrite (Hang _ E1), (Hang _ E2).
  split; [reflexivity|]. split; [reflexivity|].
  intros idx. destruct (Nat.even (nth 2 idx 0%nat)); [apply SIN_bound | apply COS_bound].
Qed.

Lemma positional_encoding_table_witness :
  exists self,
    PositionalEncoding.init (Z.of_nat 8) 0.1 (Z.of_nat 5000) = Ok self /\
    let angle := INR 3 / Rpower 10000 (INR (2 * 2) / INR 8) in
    get (PositionalEncoding.pe self) [0; 3; (2 * 2)]%nat = sin angle /\
    get (PositionalEncoding.pe self) [0; 3; (2 * 2 + 1)]%nat = cos angle /\
    forall idx, -1 <= get (PositionalEncoding.pe self) idx <= 1.
Proof.
  eexists. split; [reflexivity|].
  apply (positional_encoding_table 8 5000 0.1 _ 0%nat 3%nat 2%nat). reflexivity.
Defined.

Lemma broadcast_batch_of_one b l d :
  broadcast_shapes [b; l; d] [1%nat; l; d] = Some [b; l; d].
Proof.
  unfold broadcast_shapes. cbn [rev app broadcast_rev].
  rewrite !Nat.eqb_refl. destruct (b =? 1)%nat; reflexivity.
Qed.

(** X8: the positional encoding is added to the positions of a sequence no
    longer than the table, and the shape is kept; in evaluation mode the
    result is exactly input plus table.  A longer sequence is refused. *)
Theorem positional_encoding_forward_length (d l : nat) dropout self x B L g :
  PositionalEncoding.init (Z.of_nat d) dropout (Z.of_nat l) = Ok self ->
  shape x = [B; L; d] ->
  ((L <= l)%nat ->
   (exists y g', PositionalEncoding.forward self x g = Ok (y, g') /\
                 shape y = shape x) /\
   exists y,
     PositionalEncoding.forward (PositionalEncoding.train false self) x g
       = Ok (y, g) /\
     shape y = shape x /\
     forall b pos c, (b < B)%nat -> (pos < L)%nat -> (c < d)%nat ->
       get y [b; pos; c] =
       get x [b; pos; c] + get (PositionalEncoding.pe self) [0%nat; pos; c]) /\
  ((l < L)%nat -> (1 < l)%nat ->
   PositionalEncoding.forward self x g = Raise RuntimeError).
Proof.
  intros H Hx. apply positional_encoding_init_Ok in H as [Hd ->].
  set (table := Tensor [1%nat; l; d] _).
  assert (Hsize : size x 1 = Ok L) by (unfold size, rank; now rewrite Hx).
  split.
  - intros HL.
    assert (Hslice : slice1_to table L = Ok (Tensor [1%nat; L; d] (get table))).
    { unfold slice1_to, table. cbn [shape]. now rewrite Nat.min_l. }
    assert (Hadd : add x (Tensor [1%nat; L; d] (get table)) =
                   Ok (Tensor [B; L; d]
                         (fun idx => get x (bcast_index [B; L; d] idx) +
                                     get table (bcast_index [1%nat; L; d] idx)))).
    { unfold add, map2. cbn [shape]. now rewrite Hx, broadcast_batch_of_one. }
    split.
    + unfold PositionalEncoding.forward. cbn [PositionalEncoding.pe].
      rewrite (bind_lift_Ok _ _ Hsize), (bind_lift_Ok _ _ Hslice),
        (bind_lift_Ok _ _ Hadd).
      cbn [PositionalEncoding.dropout].
      match goal with |- context [Dropout.forward ?dr ?t g] =>
        destruct (dropout_run dr t g) as (y & g' & E & Hs) end.
      exists y, g'. split; [exact E|]. now rewrite Hs, Hx.
    + eexists. unfold PositionalEncoding.forward.
      cbn [PositionalEncoding.train PositionalEncoding.pe PositionalEncoding.dropout].
      rewrite (bind_lift_Ok _ _ Hsize), (bind_lift_Ok _ _ Hslice),
        (bind_lift_Ok _ _ Hadd).
      unfold Dropout.forward, Dropout.train. cbn [Dropout.training].
      split; [reflexivity|]. split; [now rewrite Hx|].
      intros b pos c Hb Hpos Hc. cbn [get].
      rewrite (bcast_index_in_range [B; L; d] [b; pos; c])
        by (repeat constructor; assumption).
      f_equal. f_equal. unfold bcast_index. cbn [rev app bcast_rev Nat.eqb].
      now rewrite (in_range_last L pos Hpos), (in_range_last d c Hc).
  - intros HL Hl.
    assert (Hslice : slice1_to table L = Ok (Tensor [1%nat; l; d] (get table))).
    { unfold slice1_to, table. cbn [shape]. now rewrite Nat.min_r by lia. }
    unfold PositionalEncoding.forward. cbn [PositionalEncoding.pe].
    rewrite (bind_lift_Ok _ _ Hsize), (bind_lift_Ok _ _ Hslice).
    unfold bind, lift, add, map2. cbn [shape]. rewrite Hx.
    unfold broadcast_shapes. cbn [rev app broadcast_rev].
    rewrite Nat.eqb_refl.
    assert ((L =? l)%nat = false) as -> by (apply Nat.eqb_neq; lia).
    assert ((L =? 1)%nat = false) as -> by (apply Nat.eqb_neq; lia).
    assert ((l =? 1)%nat = false) as -> by (apply Nat.eqb_neq; lia).
    destruct (B =? 1)%nat; reflexivity.
Qed.

Lemma positional_encoding_forward_length_witness :
  let x := ones [2; 3; 8]%nat in
  let g := fun (_ : nat) (_ : index) => true in
  exists self,
    PositionalEncoding.init (Z.of_nat 8) 0.1 (Z.of_nat 4) = Ok self /\
    ((3 <= 4)%nat ->
     (exists y g', PositionalEncoding.forward self x g = Ok (y, g') /\
                   shape y = shape x) /\
     exists y,
       PositionalEncoding.forward (PositionalEncoding.train false self) x g
         = Ok (y, g) /\
       shape y = shape x /\
       forall b pos c, (b < 2)%nat -> (pos < 3)%nat -> (c < 8)%nat ->
         get y [b; pos; c] =
         get x [b; pos; c] + get (PositionalEncoding.pe self) [0%nat; pos; c]) /\
    ((4 < 3)%nat -> (1 < 4)%nat ->
     PositionalEncoding.forward self x g = Raise RuntimeError).
Proof.
  intros x g. eexists. split; [reflexivity|].
  apply (positional_encoding_forward_length 8 4 0.1 _ x 2%nat 3%nat g).
  - reflexivity.
  - reflexivity.
Defined.

Lemma mean_of_shift d f c :
  d <> 0%nat -> mean_of d (fun k => f k + c) = mean_of d f + c.
Proof.
  intros Hd. unfold mean_of. rewrite sum_upto_plus, sum_upto_const.
  field. now apply not_0_INR.
Qed.

Lemma std_of_shift d f c :
  d <> 0%nat -> std_of d (fun k => f k + c) = std_of d f.
Proof.
  intros Hd. unfold std_of. rewrite (mean_of_shift d f c Hd).
  f_equal. f_equal. apply sum_upto_ext. intros j _. f_equal. ring.
Qed.

(** X9: layer normalisation does not see a constant added to every feature:
    the input and the shifted input are normalised to the same values. *)
Theorem layer_norm_shift_invariant (self : LayerNorm.t) x p d c :
  shape x = p ++ [d] ->
  shape (LayerNorm.a_2 self) = [d] -> shape (LayerNorm.b_2 self) = [d] ->
  exists y y',
    LayerNorm.forward self x = Ok y /\
    LayerNorm.forward self (add_scalar x c) = Ok y' /\
    shape y' = shape y /\
    forall r j, Forall2 lt r p -> (j < d)%nat ->
      get y' (r ++ [j]) = get y (r ++ [j]).
Proof.
  intros Hx Ha Hb.
  destruct (layer_norm_run self x p d Hx Ha Hb) as (y & Ey & Sy & Vy).
  assert (Hx' : shape (add_scalar x c) = p ++ [d]) by exact Hx.
  destruct (layer_norm_run self (add_scalar x c) p d Hx' Ha Hb)
    as (y' & Ey' & Sy' & Vy').
  exists y, y'. split; [exact Ey|]. split; [exact Ey'|].
  split; [now rewrite Sy', Sy|].
  intros r j Hr Hj. rewrite (Vy' r j Hr Hj), (Vy r j Hr Hj).
  assert (Hd : d <> 0%nat) by lia.
  cbn [add_scalar tmap get].
  rewrite (mean_of_shift d (fun k => get x (r ++ [k])) c Hd),
          (std_of_shift d (fun k => get x (r ++ [k])) c Hd).
  f_equal. f_equal. f_equal. ring.
Qed.

Lemma layer_norm_shift_invariant_witness :
  let x := of_list2 0 [[1; 2; 4]; [0; 5; 7]] in
  exists self,
    LayerNorm.init 3 1e-6 = Ok self /\
    exists y y',
      LayerNorm.forward self x = Ok y /\
      LayerNorm.forward self (add_scalar x 10) = Ok y' /\
      shape y' = shape y /\
      forall r j, Forall2 lt r [2%nat] -> (j < 3)%nat ->
        get y' (r ++ [j]) = get y (r ++ [j]).
Proof.
  intros x. eexists. split; [reflexivity|].
  apply (layer_norm_shift_invariant _ x [2%nat] 3%nat 10); reflexivity.
Defined.

(** ** Computations that return *)

Lemma runs_ret {S A} (a : A) (P : A -> Prop) : P a -> runs (@ret S A a) P.
Proof. intros H s. exists a, s. split; [reflexivity | exact H]. Qed.

Lemma runs_lift {S A} (r : result A) a (P : A -> Prop) :
  r = Ok a -> P a -> runs (@lift S A r) P.
Proof. intros -> H s. exists a, s. split; [reflexivity | exact H]. Qed.

Lemma runs_bind {S A B} (m : M S A) (f : A -> M S B) (P : A -> Prop)
    (Q : B -> Prop) :
  runs m P -> (forall a, P a -> runs (f a) Q) -> runs (bind m f) Q.
Proof.
  intros Hm Hf s. destruct (Hm s) as (a & s' & E & Ha).
  unfold bind. rewrite E. apply (Hf a Ha).
Qed.

Lemma runs_bind_lift {S A B} (r : result A) a (f : A -> M S B) (Q : B -> Prop) :
  r = Ok a -> runs (f a) Q -> runs (bind (lift r) f) Q.
Proof. intros -> H. exact H. Qed.

Lemma runs_bind_ret {S A B} (a : A) (f : A -> M S B) (Q : B -> Prop) :
  runs (f a) Q -> runs (bind (ret a) f) Q.
Proof. intros H. exact H. Qed.

Lemma runs_weaken {S A} (m : M S A) (P Q : A -> Prop) :
  runs m P -> (forall a, P a -> Q a) -> runs m Q.
Proof.
  intros H HPQ s. destruct (H s) as (a & s' & E & Ha). exists a, s'. auto.
Qed.

Lemma runs_for_each {S A St} (Inv : St -> Prop) (l : list A)
    (body : A -> St -> M S St) :
  (forall a st, In a l -> Inv st -> runs (body a st) Inv) ->
  forall st, Inv st -> runs (for_each l body st) Inv.
Proof.
  induction l as [|a l IH]; intros Hbody st Hst; cbn [for_each].
  - now apply runs_ret.
  - apply runs_bind with (P := Inv).
    + apply Hbody; [now left | exact Hst].
    + intros st' Hst'. apply IH; [|exact Hst'].
      intros a' st0 Hin. apply Hbody. now right.
Qed.

Lemma runs_dropout d x :
  runs (Dropout.forward d x) (fun y => shape y = shape x).
Proof. intros g. destruct (dropout_run d x g) as (y & g' & E & H). eauto. Qed.

(** ** Views that split and merge the heads *)

Lemma forallb_of_nat l : forallb (fun d => (-1 <=? d)%Z) (map Z.of_nat l) = true.
Proof.
  induction l as [|a l IH]; [reflexivity|]. cbn [map forallb]. rewrite IH.
  assert ((-1 <=? Z.of_nat a)%Z = true) as -> by (apply Z.leb_le; lia).
  reflexivity.
Qed.

Lemma filter_nonneg_of_nat l :
  filter (fun d => (0 <=? d)%Z) (map Z.of_nat l) = map Z.of_nat l.
Proof.
  induction l as [|a l IH]; [reflexivity|]. cbn [map filter]. rewrite IH.
  now assert ((0 <=? Z.of_nat a)%Z = true) as -> by (apply Z.leb_le; lia).
Qed.

Lemma filter_neg_of_nat l :
  filter (fun d => (d <? 0)%Z) (map Z.of_nat l) = [].
Proof.
  induction l as [|a l IH]; [reflexivity|]. cbn [map filter]. rewrite IH.
  now assert ((Z.of_nat a <? 0)%Z = false) as -> by (apply Z.ltb_ge; lia).
Qed.

Lemma map_to_nat_of_nat l : map Z.to_nat (map Z.of_nat l) = l.
Proof.
  induction l as [|a l IH]; [reflexivity|]. cbn [map].
  now rewrite IH, Nat2Z.id.
Qed.

Lemma map_free_of_nat (x : nat) l :
  map (fun d => if (d <? 0)%Z then x else Z.to_nat d) (map Z.of_nat l) = l.
Proof.
  induction l as [|a l IH]; [reflexivity|]. cbn [map]. rewrite IH, Nat2Z.id.
  now assert ((Z.of_nat a <? 0)%Z = false) as -> by (apply Z.ltb_ge; lia).
Qed.

(** The dimension given as [-1] is the number of elements divided by the
    product of the others. *)
Lemma infer_shape_one_free (n L : nat) (pre post : list nat) :
  numel (pre ++ post) <> 0%nat -> n = (L * numel (pre ++ post))%nat ->
  infer_shape n (map Z.of_nat pre ++ (-1)%Z :: map Z.of_nat post)
    = Some (pre ++ L :: post).
Proof.
  intros Hk Hn. unfold infer_shape.
  rewrite forallb_app. cbn [forallb]. rewrite !forallb_of_nat.
  cbn [Z.leb Z.compare andb].
  rewrite !filter_app. cbn [filter Z.leb Z.ltb Z.compare].
  rewrite !filter_nonneg_of_nat, !filter_neg_of_nat. cbn [app length].
  rewrite <- map_app, map_to_nat_of_nat.
  destruct (Nat.eqb_spec (numel (pre ++ post)) 0) as [E|_]; [contradiction|].
  rewrite Hn, Nat.Div0.mod_mul, Nat.div_mul by exact Hk. cbn [Nat.eqb].
  rewrite map_app. cbn [map Z.ltb Z.compare]. now rewrite !map_free_of_nat.
Qed.

(** Without elements in the other dimensions the request is ambiguous. *)
Lemma infer_shape_ambiguous (n : nat) (pre post : list nat) :
  numel (pre ++ post) = 0%nat ->
  infer_shape n (map Z.of_nat pre ++ (-1)%Z :: map Z.of_nat post) = None.
Proof.
  intros Hk. unfold infer_shape.
  rewrite forallb_app. cbn [forallb]. rewrite !forallb_of_nat.
  cbn [Z.leb Z.compare andb].
  rewrite !filter_app. cbn [filter Z.leb Z.ltb Z.compare].
  rewrite !filter_nonneg_of_nat, !filter_neg_of_nat. cbn [app length].
  rewrite <- map_app, map_to_nat_of_nat, Hk. reflexivity.
Qed.

Lemma view_heads_run {A} (y : tensor A) B L h dk :
  shape y = [B; L; (h * dk)%nat] -> (0 < B)%nat -> (0 < h)%nat -> (0 < dk)%nat ->
  exists z, view y [Z.of_nat B; -1; Z.of_nat h; Z.of_nat dk]%Z = Ok z /\
            shape z = [B; L; h; dk].
Proof.
  intros Hy HB Hh Hd. unfold view.
  change [Z.of_nat B; -1; Z.of_nat h; Z.of_nat dk]%Z
    with (map Z.of_nat [B] ++ (-1)%Z :: map Z.of_nat [h; dk]).
  rewrite (infer_shape_one_free (numel (shape y)) L [B] [h; dk]).
  - eexists. split; reflexivity.
  - cbn [app numel fold_right]. nia.
  - rewrite Hy. cbn [app numel fold_right]. ring.
Qed.

Lemma view_heads_empty_batch {A} (y : tensor A) h dk :
  view y [Z.of_nat 0; -1; Z.of_nat h; Z.of_nat dk]%Z = Raise RuntimeError.
Proof.
  unfold view.
  change [Z.of_nat 0; -1; Z.of_nat h; Z.of_nat dk]%Z
    with (map Z.of_nat [0%nat] ++ (-1)%Z :: map Z.of_nat [h; dk]).
  now rewrite (infer_shape_ambiguous (numel (shape y)) [0%nat] [h; dk]).
Qed.

Lemma view_merge_run {A} (x : tensor A) B L h dk :
  shape x = [B; L; h; dk] -> (0 < B)%nat -> (0 < h)%nat -> (0 < dk)%nat ->
  exists z, view (contiguous x) [Z.of_nat B; -1; Z.of_nat h * Z.of_nat dk]%Z = Ok z /\
            shape z = [B; L; (h * dk)%nat].
Proof.
  intros Hx HB Hh Hd. unfold view, contiguous.
  rewrite <- Nat2Z.inj_mul.
  change [Z.of_nat B; -1; Z.of_nat (h * dk)]%Z
    with (map Z.of_nat [B] ++ (-1)%Z :: map Z.of_nat [(h * dk)%nat]).
  rewrite (infer_shape_one_free (numel (shape x)) L [B] [(h * dk)%nat]).
  - eexists. split; reflexivity.
  - cbn [app numel fold_right]. nia.
  - rewrite Hx. cbn [app numel fold_right]. ring.
Qed.

Lemma transpose_12_run {A} (t : tensor A) a b c d :
  shape t = [a; b; c; d] ->
  exists z, transpose t 1 2 = Ok z /\ shape z = [a; c; b; d].
Proof.
  intros H. unfold transpose, rank. rewrite H.
  eexists. split; reflexivity.
Qed.

Lemma unsqueeze_1_run {A} (m : tensor A) a b c :
  shape m = [a; b; c] ->
  exists z, unsqueeze m 1 = Ok z /\ shape z = [a; 1%nat; b; c] /\
            get z = fun idx => get m (remove_at 1 idx).
Proof.
  intros H. unfold unsqueeze, rank. rewrite H.
  eexists. split; [reflexivity|]. split; reflexivity.
Qed.

Lemma linear_forward_shape (l : Linear.t) x p i o :
  shape x = p ++ [i] -> linear_shape i o l ->
  exists y, Linear.forward l x = Ok y /\ shape y = p ++ [o].
Proof.
  intros Hx Hl. rewrite (linear_forward_run l x p i o Hx Hl).
  eexists. split; reflexivity.
Qed.

(** ** Multi-head attention *)

Lemma broadcast_mask B h nq nk b' q' k' :
  (b' = B \/ b' = 1%nat) -> (q' = nq \/ q' = 1%nat) -> (k' = nk \/ k' = 1%nat) ->
  broadcast_shapes [B; h; nq; nk] [b'; 1%nat; q'; k'] = Some [B; h; nq; nk].
Proof.
  intros Hb Hq Hk. unfold broadcast_shapes. cbn [rev app broadcast_rev].
  destruct Hb as [-> | ->], Hq as [-> | ->], Hk as [-> | ->];
    rewrite ?Nat.eqb_refl;
    destruct (B =? 1)%nat, (h =? 1)%nat, (nq =? 1)%nat, (nk =? 1)%nat;
    reflexivity.
Qed.

Lemma mask_fits_query b nq nk mask :
  mask_fits b 1 nk mask -> mask_fits b nq nk mask.
Proof.
  destruct mask as [m|]; [|trivial].
  intros (b' & q' & k' & Hm & Hb & Hq & Hk). exists b', q', k'.
  repeat split; try assumption. right. now destruct Hq.
Qed.

(** Attention over the heads: query, key and value with a batch and a head
    dimension, and a mask that broadcasts to the scores. *)
Lemma attention_heads_runs q k v mask dr B h nq nk d dv :
  shape q = [B; h; nq; d] -> shape k = [B; h; nk; d] ->
  shape v = [B; h; nk; dv] ->
  match mask with
  | None => True
  | Some m =>
      exists b' q' k',
        shape m = [b'; 1%nat; q'; k'] /\ (b' = B \/ b' = 1%nat) /\
        (q' = nq \/ q' = 1%nat) /\ (k' = nk \/ k' = 1%nat)
  end ->
  runs (attention q k v mask dr)
       (fun r => shape (fst r) = [B; h; nq; dv] /\
                 shape (snd r) = [B; h; nq; nk]).
Proof.
  intros Hq Hk Hv Hm. unfold attention.
  apply runs_bind_lift with (a := d);
    [apply (size_last_run q [B; h; nq] d Hq)|].
  pose proof (transpose_last2_run k [B; h] nk d Hk) as Et.
  match type of Et with _ = Ok ?t => set (kt := t) in * end.
  eapply runs_bind_lift; [exact Et|].
  eapply runs_bind_lift;
    [apply (matmul_run q kt [B; h] nq d [B; h] nk [B; h] Hq eq_refl
              (broadcast_shapes_refl _))|].
  assert (Hrest : forall scores, shape scores = [B; h; nq; nk] ->
    runs (bind match dr with
               | Some dropout => Dropout.forward dropout (softmax scores)
               | None => ret (softmax scores)
               end
               (fun p_attn => bind (lift (matmul p_attn v))
                                   (fun out => ret (out, p_attn))))
         (fun r => shape (fst r) = [B; h; nq; dv] /\
                   shape (snd r) = [B; h; nq; nk])).
  { intros scores Hs.
    assert (Hout : forall w, shape w = [B; h; nq; nk] ->
      runs (bind (lift (matmul w v)) (fun out => @ret rng _ (out, w)))
           (fun r => shape (fst r) = [B; h; nq; dv] /\
                     shape (snd r) = [B; h; nq; nk])).
    { intros w Hw.
      eapply runs_bind_lift;
        [apply (matmul_run w v [B; h] nq nk [B; h] dv [B; h] Hw Hv
                  (broadcast_shapes_refl _))|].
      apply runs_ret. split; [reflexivity | exact Hw]. }
    destruct dr as [dropout|].
    - eapply runs_bind; [apply runs_dropout|].
      intros w Hw. apply Hout. now rewrite Hw.
    - apply runs_bind_ret. now apply Hout. }
  destruct mask as [m|].
  - destruct Hm as (b' & q' & k' & Hms & Hb & Hq' & Hk').
    eapply runs_bind_lift.
    + unfold masked_fill. cbn [shape div_scalar tmap eq0 app].
      rewrite Hms, (broadcast_mask B h nq nk b' q' k' Hb Hq' Hk'), list_eqb_refl.
      reflexivity.
    + now apply Hrest.
  - apply runs_bind_ret. now apply Hrest.
Qed.

Lemma mha_init_Ok theta h d_model dropout self :
  MultiHeadedAttention.init theta h d_model dropout = Ok self ->
  h <> 0%Z /\ (d_model mod h = 0)%Z /\ (0 <= d_model)%Z /\
  MultiHeadedAttention.h self = h /\
  MultiHeadedAttention.d_k self = (d_model / h)%Z /\
  MultiHeadedAttention.dropout self = Dropout.init dropout /\
  MultiHeadedAttention.attn self = None /\
  exists l, Linear.init theta d_model d_model = Ok l /\
            MultiHeadedAttention.fc_layers self = [l; l; l; l].
Proof.
  unfold MultiHeadedAttention.init.
  destruct (Z.eqb_spec h 0) as [|Hh]; [discriminate|].
  destruct (Z.eqb_spec (d_model mod h) 0) as [Hm|]; [|discriminate].
  cbn [negb].
  destruct (Linear.init theta d_model d_model) as [l|e] eqn:El; [|discriminate].
  intros E. inversion E. cbn.
  destruct (linear_init_Ok _ _ _ _ El) as (Hd & _).
  repeat split; try assumption. exists l. split; reflexivity.
Qed.

(** A module built for a positive number of heads and a positive model
    dimension has parameters of the expected shapes. *)
Lemma mha_init_shape theta (h d_model : Z) dropout self :
  MultiHeadedAttention.init theta h d_model dropout = Ok self ->
  (0 < h)%Z -> (0 < d_model)%Z ->
  mha_shape (Z.to_nat h) (Z.to_nat (d_model / h)) self /\
  (Z.to_nat h * Z.to_nat (d_model / h))%nat = Z.to_nat d_model.
Proof.
  intros H Hh Hd.
  destruct (mha_init_Ok _ _ _ _ _ H)
    as (_ & Hm & _ & Eh & Ek & _ & _ & l & El & Efc).
  assert (Hdiv : (d_model = h * (d_model / h))%Z)
    by (apply Z.div_exact; [lia | exact Hm]).
  assert (Hk : (0 < d_model / h)%Z) by nia.
  assert (Hprod : (Z.to_nat h * Z.to_nat (d_model / h))%nat = Z.to_nat d_model).
  { rewrite <- Z2Nat.inj_mul by lia. now rewrite <- Hdiv. }
  split; [|exact Hprod].
  unfold mha_shape. rewrite Eh, Ek, Efc, Hprod, !Z2Nat.id by lia.
  destruct (linear_init_Ok _ _ _ _ El) as (_ & _ & Hw & _).
  repeat split; try lia. repeat constructor; exact Hw.
Qed.

Lemma mha_shape_train h dk mode self :
  mha_shape h dk self -> mha_shape h dk (MultiHeadedAttention.train mode self).
Proof. intros H. exact H. Qed.

Lemma linear_shape_xavier i o xi l :
  linear_shape i o l -> linear_shape i o (Linear.xavier xi l).
Proof. intros H. exact H. Qed.

Lemma Forall_map_combine_seq {A} (P : A -> Prop) (f : nat * A -> A) (l : list A) :
  (forall k a, P a -> P (f (k, a))) ->
  forall n, Forall P l -> Forall P (map f (combine (seq n (length l)) l)).
Proof.
  intros Hf. induction l as [|a l IH]; intros n Hl; cbn; [constructor|].
  inversion Hl; subst. constructor; [now apply Hf | now apply IH].
Qed.

Lemma length_map_combine_seq {A} (f : nat * A -> A) (l : list A) n :
  length (map f (combine (seq n (length l)) l)) = length l.
Proof.
  rewrite length_map, length_combine, length_seq. apply Nat.min_id.
Qed.

Lemma mha_shape_xavier h dk xi self :
  mha_shape h dk self -> mha_shape h dk (MultiHeadedAttention.xavier xi self).
Proof.
  intros (Eh & Ek & Hh & Hk & Hlen & Hfc). unfold mha_shape.
  cbn [MultiHeadedAttention.xavier MultiHeadedAttention.h
       MultiHeadedAttention.d_k MultiHeadedAttention.fc_layers].
  repeat split; try assumption.
  - now rewrite length_map_combine_seq.
  - apply (Forall_map_combine_seq (linear_shape (h * dk) (h * dk))
             (fun kl => Linear.xavier (child xi (fst kl)) (snd kl)));
      [|exact Hfc].
    intros k a Ha. exact Ha.
Qed.

(** The forward pass of a well-formed module on a non-empty batch. *)
Lemma mha_forward_runs self h dk B Lq Lk q k v mask :
  mha_shape h dk self -> (0 < B)%nat ->
  shape q = [B; Lq; (h * dk)%nat] -> shape k = [B; Lk; (h * dk)%nat] ->
  shape v = [B; Lk; (h * dk)%nat] -> mask_fits B Lq Lk mask ->
  runs (MultiHeadedAttention.forward self q k v mask)
       (fun r => shape (fst r) = [B; Lq; (h * dk)%nat] /\
                 exists w, MultiHeadedAttention.attn (snd r) = Some w /\
                           shape w = [B; h; Lq; Lk]).
Proof.
  intros (Eh & Ek & Hh & Hk & Hlen & Hfc) HB Hq Hkk Hv Hm.
  destruct self as [dk' h' fcs a dr].
  cbn [MultiHeadedAttention.h MultiHeadedAttention.d_k
       MultiHeadedAttention.fc_layers] in *.
  subst dk' h'.
  destruct fcs as [|l1 [|l2 [|l3 [|l4 [|]]]]]; try discriminate.
  inversion Hfc as [|? ? H1 Hfc1]; subst.
  inversion Hfc1 as [|? ? H2 Hfc2]; subst.
  inversion Hfc2 as [|? ? H3 Hfc3]; subst.
  inversion Hfc3 as [|? ? H4 _]; subst.
  unfold MultiHeadedAttention.forward.
  cbn [MultiHeadedAttention.h MultiHeadedAttention.d_k
       MultiHeadedAttention.fc_layers MultiHeadedAttention.dropout].
  assert (Hproj : forall l x L (st : list (tensor R)) (Q : list (tensor R) -> Prop),
    linear_shape (h * dk) (h * dk) l -> shape x = [B; L; (h * dk)%nat] ->
    (forall y, shape y = [B; h; L; dk] -> Q (st ++ [y])) ->
    runs (bind (lift (Linear.forward l x))
            (fun y => bind (lift (view y [Z.of_nat B; -1; Z.of_nat h; Z.of_nat dk]%Z))
               (fun y => bind (lift (transpose y 1 2))
                  (fun y => @ret rng _ (st ++ [y]))))) Q).
  { intros l x L st Q Hl Hx HQ.
    destruct (linear_forward_shape l x [B; L] _ _ Hx Hl) as (y1 & E1 & S1).
    destruct (view_heads_run y1 B L h dk S1 HB Hh Hk) as (y2 & E2 & S2).
    destruct (transpose_12_run y2 _ _ _ _ S2) as (y3 & E3 & S3).
    eapply runs_bind_lift; [exact E1|].
    eapply runs_bind_lift; [exact E2|].
    eapply runs_bind_lift; [exact E3|].
    apply runs_ret. now apply HQ. }
  assert (Hmask : runs
    match mask with
    | Some mask => bind (lift (unsqueeze mask 1)) (fun m => @ret rng _ (Some m))
    | None => ret None
    end
    (fun mask' => match mask' with
                  | None => True
                  | Some m =>
                      exists b' q' k',
                        shape m = [b'; 1%nat; q'; k'] /\ (b' = B \/ b' = 1%nat) /\
                        (q' = Lq \/ q' = 1%nat) /\ (k' = Lk \/ k' = 1%nat)
                  end)).
  { destruct mask as [m|]; [|now apply runs_ret].
    destruct Hm as (b' & q' & k' & Hms & Hb & Hq' & Hk').
    destruct (unsqueeze_1_run m _ _ _ Hms) as (z & Ez & Sz & _).
    eapply runs_bind_lift; [exact Ez|]. apply runs_ret.
    exists b', q', k'. auto. }
  eapply runs_bind; [exact Hmask|]. intros mask' Hmask'. cbn beta.
  apply runs_bind_lift with (a := B); [unfold size, rank; now rewrite Hq|].
  cbn [combine for_each].
  apply runs_bind
    with (P := fun st => exists yq yk yv,
                 st = [yq; yk; yv] /\ shape yq = [B; h; Lq; dk] /\
                 shape yk = [B; h; Lk; dk] /\ shape yv = [B; h; Lk; dk]).
  { eapply runs_bind.
    { apply (Hproj l1 q Lq []
               (fun st => exists y, st = [y] /\ shape y = [B; h; Lq; dk]) H1 Hq).
      intros y Hy. exists y. split; [reflexivity | exact Hy]. }
    intros st (yq & -> & Sq). cbn beta.
    eapply runs_bind.
    { apply (Hproj l2 k Lk [yq]
               (fun st => exists y, st = [yq; y] /\ shape y = [B; h; Lk; dk])
               H2 Hkk).
      intros y Hy. exists y. split; [reflexivity | exact Hy]. }
    intros st (yk & -> & Sk). cbn beta.
    eapply runs_bind.
    { apply (Hproj l3 v Lk [yq; yk]
               (fun st => exists y, st = [yq; yk; y] /\ shape y = [B; h; Lk; dk])
               H3 Hv).
      intros y Hy. exists y. split; [reflexivity | exact Hy]. }
    intros st (yv & -> & Sv). apply runs_ret. exists yq, yk, yv. auto. }
  intros st (yq & yk & yv & -> & Sq & Sk & Sv). cbn beta iota.
  eapply runs_bind;
    [apply (attention_heads_runs yq yk yv mask' (Some dr) B h Lq Lk dk dk
              Sq Sk Sv Hmask')|].
  intros [x w] [Sx Sw]. cbn [fst snd] in Sx, Sw. cbn beta iota zeta.
  destruct (transpose_12_run x _ _ _ _ Sx) as (x1 & E1 & S1).
  eapply runs_bind_lift; [exact E1|].
  destruct (view_merge_run x1 B Lq h dk S1 HB Hh Hk) as (x2 & E2 & S2).
  eapply runs_bind_lift; [exact E2|].
  eapply runs_bind_lift; [reflexivity|].
  destruct (linear_forward_shape l4 x2 [B; Lq] _ _ S2 H4) as (y & Ey & Sy).
  eapply runs_bind_lift; [exact Ey|].
  apply runs_ret. split; [exact Sy|]. exists w. split; [reflexivity | exact Sw].
Qed.

Lemma runs_then_raise {S A B} (m : M S A) (f : A -> M S B) (P : A -> Prop) e :
  runs m P -> (forall a s, P a -> f a s = Raise e) ->
  forall s, bind m f s = Raise e.
Proof.
  intros Hm Hf s. destruct (Hm s) as (a & s' & E & Ha).
  unfold bind. rewrite E. now apply Hf.
Qed.

Lemma mask_unsqueeze_runs B Lq Lk (mask : option (tensor bool)) :
  mask_fits B Lq Lk mask ->
  runs
    match mask with
    | Some mask => bind (lift (unsqueeze mask 1)) (fun m => @ret rng _ (Some m))
    | None => ret None
    end
    (fun _ => True).
Proof.
  intros Hm. destruct mask as [m|]; [|now apply runs_ret].
  destruct Hm as (b' & q' & k' & Hms & _).
  destruct (unsqueeze_1_run m _ _ _ Hms) as (z & Ez & _).
  eapply runs_bind_lift; [exact Ez|]. now apply runs_ret.
Qed.

(** X10: a multi-head attention module built for a positive number of heads
    dividing a positive model dimension maps a non-empty batch of queries,
    with keys and values of a common length and a mask that broadcasts, to
    a tensor of the shape of the queries, and keeps the weights of all the
    heads; an empty batch is refused. *)
Theorem multi_head_forward_keeps_shape theta (h d_model : Z) dropout self (mode : bool)
    q k v mask (B Lq Lk : nat) (g : rng) :
  MultiHeadedAttention.init theta h d_model dropout = Ok self ->
  (0 < h)%Z -> (0 < d_model)%Z ->
  shape q = [B; Lq; Z.to_nat d_model] ->
  shape k = [B; Lk; Z.to_nat d_model] ->
  shape v = [B; Lk; Z.to_nat d_model] ->
  mask_fits B Lq Lk mask ->
  ((0 < B)%nat ->
   exists y self' g' w,
     MultiHeadedAttention.forward (MultiHeadedAttention.train mode self)
       q k v mask g = Ok ((y, self'), g') /\
     shape y = shape q /\
     MultiHeadedAttention.attn self' = Some w /\
     shape w = [B; Z.to_nat h; Lq; Lk]) /\
  (B = 0%nat ->
   MultiHeadedAttention.forward (MultiHeadedAttention.train mode self)
     q k v mask g = Raise RuntimeError).
Proof.
  intros Hinit Hh Hd Hq Hk Hv Hm.
  destruct (mha_init_shape _ _ _ _ _ Hinit Hh Hd) as (Hs & Hprod).
  split.
  - intros HB. rewrite <- Hprod in Hq, Hk, Hv.
    destruct (mha_forward_runs (MultiHeadedAttention.train mode self) _ _ B Lq Lk
                q k v mask (mha_shape_train _ _ mode _ Hs) HB Hq Hk Hv Hm g)
      as ([y self'] & g' & E & Sy & w & Ew & Sw).
    exists y, self', g', w. cbn [fst snd] in *.
    repeat split; try assumption. now rewrite Hq.
  - intros ->.
    destruct (mha_init_Ok _ _ _ _ _ Hinit)
      as (_ & _ & _ & Eh & Ek & _ & _ & l & El & Efc).
    destruct (linear_init_Ok _ _ _ _ El) as (_ & _ & Hw & _).
    unfold MultiHeadedAttention.forward.
    apply (runs_then_raise _ _ (fun _ => True));
      [exact (mask_unsqueeze_runs 0 Lq Lk mask Hm)|].
    intros mask' s _.
    rewrite (bind_lift_Ok (size q 0) 0%nat)
      by (unfold size, rank; now rewrite Hq).
    cbn [MultiHeadedAttention.train MultiHeadedAttention.fc_layers
         MultiHeadedAttention.h MultiHeadedAttention.d_k].
    rewrite Efc. cbn [combine for_each].
    destruct (linear_forward_shape l q [0%nat; Lq] _ _ Hq Hw) as (y1 & E1 & _).
    unfold bind at 1. unfold bind at 1.
    rewrite (bind_lift_Ok _ _ E1).
    assert (Hz : (0 <= d_model / h)%Z) by (apply Z.div_pos; lia).
    assert (Eh' : MultiHeadedAttention.h self = Z.of_nat (Z.to_nat h))
      by (rewrite Z2Nat.id; [exact Eh | lia]).
    assert (Ek' : MultiHeadedAttention.d_k self = Z.of_nat (Z.to_nat (d_model / h)))
      by (rewrite Z2Nat.id; [exact Ek | lia]).
    rewrite Eh', Ek'.
    unfold bind at 1. unfold lift at 1.
    now rewrite (view_heads_empty_batch y1).
Qed.

Lemma multi_head_forward_keeps_shape_witness :
  let theta : params := fun _ _ => 0 in
  let g : rng := fun _ _ => true in
  let q := ones [1; 3; 8]%nat in
  let k := ones [1; 4; 8]%nat in
  let mask := Some (full [1; 1; 4]%nat true) in
  exists self,
    MultiHeadedAttention.init theta 2 8 0.1 = Ok self /\
    ((0 < 1)%nat ->
     exists y self' g' w,
       MultiHeadedAttention.forward (MultiHeadedAttention.train true self)
         q k k mask g = Ok ((y, self'), g') /\
       shape y = shape q /\
       MultiHeadedAttention.attn self' = Some w /\
       shape w = [1%nat; Z.to_nat 2; 3%nat; 4%nat]) /\
    (1%nat = 0%nat ->
     MultiHeadedAttention.forward (MultiHeadedAttention.train true self)
       q k k mask g = Raise RuntimeError).
Proof.
  intros theta g q k mask. eexists. split; [reflexivity|].
  apply (multi_head_forward_keeps_shape theta 2 8 0.1 _ true q k k mask 1 3 4 g).
  - reflexivity.
  - lia.
  - lia.
  - reflexivity.
  - reflexivity.
  - reflexivity.
  - exists 1%nat, 1%nat, 4%nat. repeat split; auto.
Defined.

(** ** The blocks, the encoder and the decoder *)

Lemma layer_norm_runs n x p d :
  norm_shape d n -> shape x = p ++ [d] ->
  exists y, LayerNorm.forward n x = Ok y /\ shape y = shape x.
Proof.
  intros [Ha Hb] Hx.
  destruct (layer_norm_run n x p d Hx Ha Hb) as (y & E & S & _). eauto.
Qed.

Lemma sublayer_runs self x sublayer p d :
  norm_shape d (SublayerConnection.norm self) -> shape x = p ++ [d] ->
  (forall n, shape n = shape x -> runs (sublayer n) (fun s => shape s = shape x)) ->
  runs (SublayerConnection.forward self x sublayer) (fun y => shape y = shape x).
Proof.
  intros Hn Hx Hs. unfold SublayerConnection.forward.
  destruct (layer_norm_runs _ _ _ _ Hn Hx) as (n & En & Sn).
  eapply runs_bind_lift; [exact En|].
  eapply runs_bind; [apply (Hs n Sn)|]. intros s Ss. cbn beta.
  eapply runs_bind; [apply runs_dropout|]. intros dr Sd. cbn beta.
  destruct (add_same_shape x dr) as (z & Ez & Sz & _);
    [now rewrite Sd|].
  eapply runs_lift; [exact Ez | exact Sz].
Qed.

Lemma ffn_forward_runs f x p d dff :
  ffn_shape d dff f -> shape x = p ++ [d] ->
  runs (PositionwiseFFN.forward f x) (fun y => shape y = p ++ [d]).
Proof.
  intros [H1 H2] Hx. unfold PositionwiseFFN.forward.
  destruct (linear_forward_shape _ x p d dff Hx H1) as (y1 & E1 & S1).
  eapply runs_bind_lift; [exact E1|].
  eapply runs_bind; [apply runs_dropout|]. intros y2 S2. cbn beta.
  destruct (linear_forward_shape (PositionwiseFFN.w_2 f) y2 p dff d)
    as (y3 & E3 & S3); [rewrite S2; exact S1 | exact H2 |].
  eapply runs_lift; [exact E3 | exact S3].
Qed.

Lemma encoder_block_runs b h dk dff B L x mask :
  encoder_block_shape h dk dff b -> (0 < B)%nat ->
  shape x = [B; L; (h * dk)%nat] -> mask_fits B L L mask ->
  runs (EncoderBlock.forward b x mask)
       (fun y => shape y = [B; L; (h * dk)%nat]).
Proof.
  intros (Ha & Hf & Hlen & Hs) HB Hx Hm. unfold EncoderBlock.forward.
  destruct (EncoderBlock.sublayers b) as [|s0 [|s1 [|]]]; try discriminate.
  inversion Hs as [|? ? Hs0 Hs']; subst. inversion Hs' as [|? ? Hs1 _]; subst.
  eapply runs_bind_lift; [reflexivity|].
  eapply runs_bind.
  { apply (sublayer_runs s0 x _ [B; L] (h * dk)%nat Hs0 Hx).
    intros n Sn. rewrite Hx in Sn. eapply runs_bind.
    - apply (mha_forward_runs _ h dk B L L n n n mask Ha HB Sn Sn Sn Hm).
    - intros r [Sr _]. apply runs_ret. now rewrite Sr, Hx. }
  intros x1 S1. cbn beta. rewrite Hx in S1.
  eapply runs_bind_lift; [reflexivity|].
  eapply runs_weaken.
  - apply (sublayer_runs s1 x1 _ [B; L] (h * dk)%nat Hs1 S1).
    intros n Sn. rewrite S1 in *.
    apply (ffn_forward_runs _ n [B; L] _ _ Hf Sn).
  - intros y Sy. now rewrite Sy.
Qed.

Lemma encoder_runs e h dk dff B L x mask :
  encoder_shape h dk dff e -> (0 < B)%nat ->
  shape x = [B; L; (h * dk)%nat] -> mask_fits B L L mask ->
  runs (Encoder.forward e x mask) (fun y => shape y = [B; L; (h * dk)%nat]).
Proof.
  intros [Hb Hn] HB Hx Hm. unfold Encoder.forward.
  eapply runs_bind.
  - apply (runs_for_each (fun y => shape y = [B; L; (h * dk)%nat]));
      [|exact Hx].
    intros b st Hin Hst. rewrite Forall_forall in Hb.
    apply (encoder_block_runs b h dk dff B L st mask (Hb b Hin) HB Hst Hm).
  - intros y Sy. cbn beta.
    destruct (layer_norm_runs _ y [B; L] _ Hn Sy) as (z & Ez & Sz).
    eapply runs_lift; [exact Ez | now rewrite Sz].
Qed.

Lemma decoder_block_runs b h dk dff B Ls Lt x enc sm tm :
  decoder_block_shape h dk dff b -> (0 < B)%nat ->
  shape x = [B; Lt; (h * dk)%nat] -> shape enc = [B; Ls; (h * dk)%nat] ->
  mask_fits B Lt Ls sm -> mask_fits B Lt Lt tm ->
  runs (DecoderBlock.forward b x enc sm tm)
       (fun y => shape y = [B; Lt; (h * dk)%nat]).
Proof.
  intros (Ha & He & Hf & Hlen & Hs) HB Hx Henc Hsm Htm.
  unfold DecoderBlock.forward.
  destruct (DecoderBlock.sublayers b) as [|s0 [|s1 [|s2 [|]]]]; try discriminate.
  inversion Hs as [|? ? Hs0 Hs']; subst. inversion Hs' as [|? ? Hs1 Hs'']; subst.
  inversion Hs'' as [|? ? Hs2 _]; subst.
  eapply runs_bind_lift; [reflexivity|].
  eapply runs_bind.
  { apply (sublayer_runs s0 x _ [B; Lt] (h * dk)%nat Hs0 Hx).
    intros n Sn. rewrite Hx in Sn. eapply runs_bind.
    - apply (mha_forward_runs _ h dk B Lt Lt n n n tm Ha HB Sn Sn Sn Htm).
    - intros r [Sr _]. apply runs_ret. now rewrite Sr, Hx. }
  intros x1 S1. cbn beta. rewrite Hx in S1.
  eapply runs_bind_lift; [reflexivity|].
  eapply runs_bind.
  { apply (sublayer_runs s1 x1 _ [B; Lt] (h * dk)%nat Hs1 S1).
    intros n Sn. rewrite S1 in Sn. eapply runs_bind.
    - apply (mha_forward_runs _ h dk B Lt Ls n enc enc sm He HB Sn Henc Henc Hsm).
    - intros r [Sr _]. apply runs_ret. now rewrite Sr, S1. }
  intros x2 S2. cbn beta. rewrite S1 in S2.
  eapply runs_bind_lift; [reflexivity|].
  eapply runs_weaken.
  - apply (sublayer_runs s2 x2 _ [B; Lt] (h * dk)%nat Hs2 S2).
    intros n Sn. rewrite S2 in *.
    apply (ffn_forward_runs _ n [B; Lt] _ _ Hf Sn).
  - intros y Sy. now rewrite Sy.
Qed.

Lemma decoder_runs d h dk dff v B Ls Lt x enc sm tm :
  decoder_shape h dk dff v d -> (0 < B)%nat ->
  shape x = [B; Lt; (h * dk)%nat] -> shape enc = [B; Ls; (h * dk)%nat] ->
  mask_fits B Lt Ls sm -> mask_fits B Lt Lt tm ->
  runs (Decoder.forward d x enc sm tm)
       (fun out => exists y, out = log_softmax y /\ shape y = [B; Lt; v]).
Proof.
  intros (Hb & Hn & Hp) HB Hx Henc Hsm Htm. unfold Decoder.forward.
  eapply runs_bind.
  - apply (runs_for_each (fun y => shape y = [B; Lt; (h * dk)%nat]));
      [|exact Hx].
    intros b st Hin Hst. rewrite Forall_forall in Hb.
    apply (decoder_block_runs b h dk dff B Ls Lt st enc sm tm
             (Hb b Hin) HB Hst Henc Hsm Htm).
  - intros y Sy. cbn beta.
    destruct (layer_norm_runs _ y [B; Lt] _ Hn Sy) as (z & Ez & Sz).
    eapply runs_bind_lift; [exact Ez|].
    destruct (linear_forward_shape (Decoder.projection d) z [B; Lt]
                (h * dk)%nat v)
      as (o & Eo & So); [now rewrite Sz | exact Hp |].
    eapply runs_bind_lift; [exact Eo|].
    apply runs_ret. exists o. split; [reflexivity | exact So].
Qed.

(** ** Embeddings with positions *)

Lemma pe_forward_runs self x B L l d :
  shape (PositionalEncoding.pe self) = [1%nat; l; d] ->
  shape x = [B; L; d] -> (L <= l)%nat ->
  runs (PositionalEncoding.forward self x) (fun y => shape y = [B; L; d]).
Proof.
  intros Hpe Hx HL. unfold PositionalEncoding.forward.
  apply runs_bind_lift with (a := L); [unfold size, rank; now rewrite Hx|].
  eapply runs_bind_lift;
    [unfold slice1_to; rewrite Hpe, Nat.min_l by exact HL; reflexivity|].
  eapply runs_bind_lift;
    [unfold add, map2; cbn [shape]; rewrite Hx, broadcast_batch_of_one;
     reflexivity|].
  eapply runs_weaken; [apply runs_dropout|]. intros y Sy. exact Sy.
Qed.

Lemma embeddings_forward_run (e : Embeddings.t) x v d :
  shape (Embedding.weight (Embeddings.lut e)) = [v; d] ->
  in_vocabulary v x ->
  exists y, Embeddings.forward e x = Ok y /\ shape y = shape x ++ [d].
Proof.
  intros Hw Hx. unfold Embeddings.forward, Embedding.forward. rewrite Hw.
  assert (forallb (fun idx => (0 <=? get x idx)%Z && (get x idx <? Z.of_nat v)%Z)
            (indices (shape x)) = true) as ->.
  { apply forallb_forall. intros idx Hin. apply indices_spec in Hin.
    specialize (Hx idx Hin). apply andb_true_intro.
    split; [apply Z.leb_le | apply Z.ltb_lt]; lia. }
  eexists. split; reflexivity.
Qed.

Lemma embed_forward_runs e d v l x B L :
  embed_shape d v l e -> shape x = [B; L] -> in_vocabulary v x -> (L <= l)%nat ->
  runs (EncoderDecoder.embed_forward e x) (fun y => shape y = [B; L; d]).
Proof.
  intros [Hw Hpe] Hx Hv HL. unfold EncoderDecoder.embed_forward.
  destruct (embeddings_forward_run (fst e) x v d Hw Hv) as (y & Ey & Sy).
  eapply runs_bind_lift; [exact Ey|].
  apply (pe_forward_runs (snd e) y B L l d Hpe); [|exact HL].
  now rewrite Sy, Hx.
Qed.

(** ** The whole model *)

Lemma model_forward_runs m h dk dff vs vt l B Ls Lt src tgt sm tm :
  model_shape h dk dff vs vt l m -> (0 < B)%nat ->
  shape src = [B; Ls] -> shape tgt = [B; Lt] ->
  in_vocabulary vs src -> in_vocabulary vt tgt ->
  (Ls <= l)%nat -> (Lt <= l)%nat ->
  mask_fits B 1 Ls sm -> mask_fits B Lt Lt tm ->
  runs (EncoderDecoder.forward m src tgt sm tm)
       (fun out => exists y, out = log_softmax y /\ shape y = [B; Lt; vt]).
Proof.
  intros (He & Hd & Hse & Hte) HB Hsrc Htgt Hvs Hvt HLs HLt Hsm Htm.
  unfold EncoderDecoder.forward.
  eapply runs_bind;
    [apply (embed_forward_runs _ _ _ _ src B Ls Hse Hsrc Hvs HLs)|].
  intros s Ss. cbn beta.
  eapply runs_bind;
    [apply (encoder_runs _ h dk dff B Ls s sm He HB Ss
              (mask_fits_query B Ls Ls sm Hsm))|].
  intros enc Senc. cbn beta.
  eapply runs_bind;
    [apply (embed_forward_runs _ _ _ _ tgt B Lt Hte Htgt Hvt HLt)|].
  intros x Sx. cbn beta.
  apply (decoder_runs _ h dk dff vt B Ls Lt x enc sm tm Hd HB Sx Senc
           (mask_fits_query B Lt Ls sm Hsm) Htm).
Qed.

(** ** What [build_model] accepts and returns *)

Lemma pe_dimension_ok d :
  (0 <= d)%Z ->
  Nat.odd (Z.to_nat d) && negb (Z.to_nat d =? 1)%nat = false <->
  (d = 1%Z \/ Z.even d = true).
Proof.
  intros Hd. unfold Nat.odd.
  rewrite <- (even_of_nat (Z.to_nat d)), Z2Nat.id by exact Hd.
  destruct (Nat.eqb_spec (Z.to_nat d) 1) as [E|E];
    destruct (Z.even d); cbn; split; intros H; auto; try discriminate.
  - left. lia.
  - destruct H as [->|H]; [now elim E | discriminate].
Qed.

(** The checks of the constructors, in the order in which they are made. *)
Lemma build_model_result theta xi vs vt N d_model d_ff h dropout :
  let r := build_model theta xi vs vt N d_model d_ff h dropout in
  if (h =? 0)%Z then r = Raise ZeroDivisionError
  else if negb (d_model mod h =? 0)%Z then r = Raise AssertionError
  else if (d_model <? 0)%Z then r = Raise RuntimeError
  else if (d_ff <? 0)%Z then r = Raise RuntimeError
  else if (Z.to_nat d_model =? 0)%nat then r = Raise ZeroDivisionError
  else if Nat.odd (Z.to_nat d_model) && negb (Z.to_nat d_model =? 1)%nat
       then r = Raise RuntimeError
  else if (vt <? 0)%Z then r = Raise RuntimeError
  else if (vs <? 0)%Z then r = Raise RuntimeError
  else exists position,
         PositionalEncoding.init d_model dropout 5000 = Ok position /\
         r = Ok (EncoderDecoder.xavier xi
                   (built_model theta vs vt N d_model d_ff h dropout position)).
Proof.
  intros r. subst r. unfold build_model, MultiHeadedAttention.init.
  destruct (Z.eqb_spec h 0) as [Hh|Hh]; [reflexivity|].
  destruct (Z.eqb_spec (d_model mod h) 0) as [Hm|Hm]; [|reflexivity].
  cbn [negb].
  unfold PositionwiseFFN.init, PositionalEncoding.init, EncoderBlock.init,
    DecoderBlock.init, Encoder.init, Decoder.init, SublayerConnection.init,
    LayerNorm.init, Embeddings.init, Embedding.init, Linear.init, dim_of.
  change (5000 <? 0)%Z with false. cbv iota.
  destruct (d_model <? 0)%Z eqn:Ed; [reflexivity|].
  cbn [rbind EncoderBlock.size DecoderBlock.size].
  destruct (d_ff <? 0)%Z; [reflexivity|].
  cbn [rbind EncoderBlock.size DecoderBlock.size].
  destruct (Z.to_nat d_model =? 0)%nat; [reflexivity|].
  destruct (Nat.odd (Z.to_nat d_model) && negb (Z.to_nat d_model =? 1)%nat);
    [reflexivity|].
  cbn [rbind EncoderBlock.size DecoderBlock.size]. rewrite ?Ed.
  cbn [rbind EncoderBlock.size DecoderBlock.size]. rewrite ?Ed.
  destruct (vt <? 0)%Z; [reflexivity|].
  cbn [rbind EncoderBlock.size DecoderBlock.size]. rewrite ?Ed.
  destruct (vs <? 0)%Z; [reflexivity|].
  cbn [rbind EncoderBlock.size DecoderBlock.size].
  eexists. split; reflexivity.
Qed.

Lemma build_model_Ok theta xi vs vt N d_model d_ff h dropout model :
  build_model theta xi vs vt N d_model d_ff h dropout = Ok model ->
  (h <> 0 /\ d_model mod h = 0 /\ 0 < d_model /\
   (d_model = 1 \/ Z.even d_model = true) /\
   0 <= d_ff /\ 0 <= vs /\ 0 <= vt)%Z /\
  exists position,
    PositionalEncoding.init d_model dropout 5000 = Ok position /\
    model = EncoderDecoder.xavier xi
              (built_model theta vs vt N d_model d_ff h dropout position).
Proof.
  intros H.
  pose proof (build_model_result theta xi vs vt N d_model d_ff h dropout) as R.
  cbv zeta in R. rewrite H in R.
  destruct (Z.eqb_spec h 0) as [Hh|Hh]; [discriminate|].
  destruct (Z.eqb_spec (d_model mod h) 0) as [Hm|Hm]; [|discriminate].
  cbn [negb] in R.
  destruct (Z.ltb_spec d_model 0) as [Hd|Hd]; [discriminate|].
  destruct (Z.ltb_spec d_ff 0) as [Hf|Hf]; [discriminate|].
  destruct (Nat.eqb_spec (Z.to_nat d_model) 0) as [Hz|Hz]; [discriminate|].
  destruct (Nat.odd (Z.to_nat d_model) && negb (Z.to_nat d_model =? 1)%nat)
    eqn:Hodd; [discriminate|].
  destruct (Z.ltb_spec vt 0) as [Ht|Ht]; [discriminate|].
  destruct (Z.ltb_spec vs 0) as [Hs|Hs]; [discriminate|].
  destruct R as (position & Hp & E). inversion E.
  split.
  - repeat split; try assumption; try lia.
    now apply (pe_dimension_ok d_model Hd).
  - exists position. split; [exact Hp | reflexivity].
Qed.

(** X11: for a dropout rate between 0 and 1, [build_model] accepts exactly
    the configurations with a number of heads that is not 0 and divides the
    model dimension, a positive model dimension that is 1 or even, and
    sizes that are not negative; a number of heads of 0 or a model
    dimension of 0 is a division by zero, heads that do not divide the
    dimension fail the assertion, and every other refusal is a
    [RuntimeError]. *)
Theorem build_model_configuration theta xi vs vt N d_model d_ff h dropout :
  0 <= dropout <= 1 ->
  let r := build_model theta xi vs vt N d_model d_ff h dropout in
  (is_ok r = true <->
   (h <> 0 /\ d_model mod h = 0 /\ 0 < d_model /\
    (d_model = 1 \/ Z.even d_model = true) /\
    0 <= d_ff /\ 0 <= vs /\ 0 <= vt)%Z) /\
  (h = 0%Z -> r = Raise ZeroDivisionError) /\
  (h <> 0%Z -> (d_model mod h <> 0)%Z -> r = Raise AssertionError) /\
  (h <> 0%Z -> d_model = 0%Z -> (0 <= d_ff)%Z -> r = Raise ZeroDivisionError) /\
  (is_ok r = false -> h <> 0%Z -> (d_model mod h = 0)%Z -> d_model <> 0%Z ->
   r = Raise RuntimeError).
Proof.
  intros _ r.
  pose proof (build_model_result theta xi vs vt N d_model d_ff h dropout) as R.
  cbv zeta in R. fold r in R.
  destruct (Z.eqb_spec h 0) as [Hh|Hh].
  { rewrite R. cbn [is_ok].
    split; [split; [discriminate | intros (H & _); contradiction]|].
    split; [reflexivity|].
    split; [contradiction|]. split; [contradiction|]. contradiction. }
  destruct (Z.eqb_spec (d_model mod h) 0) as [Hm|Hm]; cbn [negb] in R.
  2:{ rewrite R. cbn [is_ok].
      split; [split; [discriminate | intros (_ & H & _); contradiction]|].
      split; [contradiction|]. split; [reflexivity|].
      split; [intros _ ->; now rewrite Z.mod_0_l in Hm|].
      intros _ _ H. contradiction. }
  destruct (Z.ltb_spec d_model 0) as [Hd|Hd].
  { rewrite R. cbn [is_ok].
    split; [split; [discriminate | intros (_ & _ & H & _); lia]|].
    split; [contradiction|]. split; [contradiction|].
    split; [lia | reflexivity]. }
  destruct (Z.ltb_spec d_ff 0) as [Hf|Hf].
  { rewrite R. cbn [is_ok].
    split; [split; [discriminate | intros (_ & _ & _ & _ & H & _); lia]|].
    split; [contradiction|]. split; [contradiction|].
    split; [lia | reflexivity]. }
  destruct (Nat.eqb_spec (Z.to_nat d_model) 0) as [Hz|Hz].
  { rewrite R. cbn [is_ok].
    split; [split; [discriminate | intros (_ & _ & H & _); lia]|].
    split; [contradiction|]. split; [contradiction|].
    split; [reflexivity|]. intros _ _ _ H. lia. }
  destruct (Nat.odd (Z.to_nat d_model) && negb (Z.to_nat d_model =? 1)%nat)
    eqn:Hodd.
  { rewrite R. cbn [is_ok].
    split; [split; [discriminate|]|].
    - intros (_ & _ & _ & H & _). apply (pe_dimension_ok d_model Hd) in H.
      rewrite H in Hodd. discriminate.
    - split; [contradiction|]. split; [contradiction|].
      split; [lia | reflexivity]. }
  apply (pe_dimension_ok d_model Hd) in Hodd.
  destruct (Z.ltb_spec vt 0) as [Ht|Ht].
  { rewrite R. cbn [is_ok].
    split; [split; [discriminate | intros (_ & _ & _ & _ & _ & _ & H); lia]|].
    split; [contradiction|]. split; [contradiction|].
    split; [lia | reflexivity]. }
  destruct (Z.ltb_spec vs 0) as [Hs|Hs].
  { rewrite R. cbn [is_ok].
    split; [split; [discriminate | intros (_ & _ & _ & _ & _ & H & _); lia]|].
    split; [contradiction|]. split; [contradiction|].
    split; [lia | reflexivity]. }
  destruct R as (position & _ & ->). cbn [is_ok].
  split; [split; [intros _ | reflexivity]|].
  - repeat split; try assumption; lia.
  - split; [contradiction|]. split; [contradiction|].
    split; [lia | discriminate].
Qed.

Lemma build_model_configuration_witness :
  let theta : params := fun _ _ => 0 in
  let xi : params := fun _ _ => 0 in
  let r := build_model theta xi 11 11 2 512 2048 8 0.1 in
  (is_ok r = true <->
   (8 <> 0 /\ 512 mod 8 = 0 /\ 0 < 512 /\
    (512 = 1 \/ Z.even 512 = true) /\
    0 <= 2048 /\ 0 <= 11 /\ 0 <= 11)%Z) /\
  (8%Z = 0%Z -> r = Raise ZeroDivisionError) /\
  (8%Z <> 0%Z -> (512 mod 8 <> 0)%Z -> r = Raise AssertionError) /\
  (8%Z <> 0%Z -> 512%Z = 0%Z -> (0 <= 2048)%Z -> r = Raise ZeroDivisionError) /\
  (is_ok r = false -> 8%Z <> 0%Z -> (512 mod 8 = 0)%Z -> 512%Z <> 0%Z ->
   r = Raise RuntimeError).
Proof.
  intros theta xi.
  apply (build_model_configuration theta xi 11 11 2 512 2048 8 0.1). lra.
Defined.

(** ** The shapes inside the model that [build_model] returns *)

Lemma Forall_clones {A} (P : A -> Prop) (m : A) n : P m -> Forall P (clones m n).
Proof.
  intros H. unfold clones. apply Forall_forall. intros x Hx.
  now rewrite (repeat_spec _ _ _ Hx).
Qed.

Lemma length_clones {A} (m : A) n : length (clones m n) = Z.to_nat n.
Proof. unfold clones. apply repeat_length. Qed.

Lemma Forall_map_same {A} (P : A -> Prop) (f : A -> A) l :
  (forall a, P a -> P (f a)) -> Forall P l -> Forall P (map f l).
Proof.
  intros Hf Hl. apply Forall_map. revert Hl. apply Forall_impl. exact Hf.
Qed.

Lemma pe_init_shape d_model dropout max_len position :
  PositionalEncoding.init d_model dropout max_len = Ok position ->
  shape (PositionalEncoding.pe position)
    = [1%nat; Z.to_nat max_len; Z.to_nat d_model].
Proof.
  unfold PositionalEncoding.init, dim_of.
  destruct (max_len <? 0)%Z; [discriminate|].
  destruct (d_model <? 0)%Z; [discriminate|].
  destruct (Z.to_nat d_model =? 0)%nat; [discriminate|].
  destruct (Nat.odd (Z.to_nat d_model) && negb (Z.to_nat d_model =? 1)%nat);
    [discriminate|].
  intros E. inversion E. reflexivity.
Qed.

Lemma ffn_shape_xavier d dff xi f :
  ffn_shape d dff f -> ffn_shape d dff (PositionwiseFFN.xavier xi f).
Proof. intros H. exact H. Qed.

Lemma ffn_shape_train d dff mode f :
  ffn_shape d dff f -> ffn_shape d dff (PositionwiseFFN.train mode f).
Proof. intros H. exact H. Qed.

Lemma sublayers_shape_train d k mode l :
  sublayers_shape d k l ->
  sublayers_shape d k (map (SublayerConnection.train mode) l).
Proof.
  intros [Hlen Hl]. split; [now rewrite length_map|].
  apply Forall_map. revert Hl. apply Forall_impl. intros s Hs. exact Hs.
Qed.

Lemma encoder_block_shape_xavier h dk dff xi b :
  encoder_block_shape h dk dff b ->
  encoder_block_shape h dk dff (EncoderBlock.xavier xi b).
Proof.
  intros (Ha & Hf & Hs).
  split; [now apply mha_shape_xavier|]. split; [exact Hf | exact Hs].
Qed.

Lemma encoder_block_shape_train h dk dff mode b :
  encoder_block_shape h dk dff b ->
  encoder_block_shape h dk dff (EncoderBlock.train mode b).
Proof.
  intros (Ha & Hf & Hs). split; [exact Ha|]. split; [exact Hf|].
  now apply sublayers_shape_train.
Qed.

Lemma decoder_block_shape_xavier h dk dff xi b :
  decoder_block_shape h dk dff b ->
  decoder_block_shape h dk dff (DecoderBlock.xavier xi b).
Proof.
  intros (Ha & He & Hf & Hs).
  split; [now apply mha_shape_xavier|]. split; [now apply mha_shape_xavier|].
  split; [exact Hf | exact Hs].
Qed.

Lemma decoder_block_shape_train h dk dff mode b :
  decoder_block_shape h dk dff b ->
  decoder_block_shape h dk dff (DecoderBlock.train mode b).
Proof.
  intros (Ha & He & Hf & Hs). split; [exact Ha|]. split; [exact He|].
  split; [exact Hf|]. now apply sublayers_shape_train.
Qed.

Lemma model_shape_xavier h dk dff vs vt l xi m :
  model_shape h dk dff vs vt l m ->
  model_shape h dk dff vs vt l (EncoderDecoder.xavier xi m).
Proof.
  intros ([Heb Hen] & (Hdb & Hdn & Hp) & Hse & Hte).
  split; [|split; [|split]].
  - split; [|exact Hen].
    apply (Forall_map_combine_seq (encoder_block_shape h dk dff)
             (fun kb => EncoderBlock.xavier (child (child xi 0) (fst kb)) (snd kb)));
      [|exact Heb].
    intros k a Ha. now apply encoder_block_shape_xavier.
  - split; [|split; [exact Hdn | exact Hp]].
    apply (Forall_map_combine_seq (decoder_block_shape h dk dff)
             (fun kb => DecoderBlock.xavier (child (child xi 1) (S (fst kb)))
                          (snd kb)));
      [|exact Hdb].
    intros k a Ha. now apply decoder_block_shape_xavier.
  - exact Hse.
  - exact Hte.
Qed.

Lemma model_shape_train h dk dff vs vt l mode m :
  model_shape h dk dff vs vt l m ->
  model_shape h dk dff vs vt l (EncoderDecoder.train mode m).
Proof.
  intros ([Heb Hen] & (Hdb & Hdn & Hp) & Hse & Hte).
  split; [|split; [|split]].
  - split; [|exact Hen].
    apply Forall_map_same; [|exact Heb].
    intros a. apply encoder_block_shape_train.
  - split; [|split; [exact Hdn | exact Hp]].
    apply Forall_map_same; [|exact Hdb].
    intros a. apply decoder_block_shape_train.
  - exact Hse.
  - exact Hte.
Qed.

Lemma built_model_shape theta vs vt N d_model d_ff h dropout position :
  (0 < h)%Z -> (0 < d_model)%Z -> (d_model mod h = 0)%Z ->
  shape (PositionalEncoding.pe position) = [1%nat; 5000%nat; Z.to_nat d_model] ->
  (Z.to_nat h * Z.to_nat (d_model / h))%nat = Z.to_nat d_model /\
  model_shape (Z.to_nat h) (Z.to_nat (d_model / h)) (Z.to_nat d_ff)
    (Z.to_nat vs) (Z.to_nat vt) 5000
    (built_model theta vs vt N d_model d_ff h dropout position).
Proof.
  intros Hh Hd Hm Hpe.
  assert (Hdiv : (d_model = h * (d_model / h))%Z)
    by (apply Z.div_exact; [lia | exact Hm]).
  assert (Hk : (0 < d_model / h)%Z) by nia.
  assert (Hprod : (Z.to_nat h * Z.to_nat (d_model / h))%nat = Z.to_nat d_model).
  { rewrite <- Z2Nat.inj_mul by lia. now rewrite <- Hdiv. }
  split; [exact Hprod|].
  unfold built_model. rewrite <- Hprod in *.
  assert (Eh : h = Z.of_nat (Z.to_nat h)) by (rewrite Z2Nat.id; lia).
  assert (Ek : (d_model / h)%Z = Z.of_nat (Z.to_nat (d_model / h)))
    by (rewrite Z2Nat.id; lia).
  assert (Hh' : (0 < Z.to_nat h)%nat) by lia.
  assert (Hk' : (0 < Z.to_nat (d_model / h))%nat) by lia.
  revert Eh Ek Hh' Hk' Hpe.
  generalize (Z.to_nat h) as hh, (Z.to_nat (d_model / h)) as kk.
  intros hh kk Eh Ek Hh' Hk' Hpe.
  set (d := (hh * kk)%nat) in *.
  assert (Hattn : mha_shape hh kk
            (MultiHeadedAttention.Make (d_model / h) h
               (clones (linear_of (child theta 0) d d) 4) None
               (Dropout.init 0.1))).
  { unfold mha_shape.
    cbn [MultiHeadedAttention.h MultiHeadedAttention.d_k
         MultiHeadedAttention.fc_layers].
    split; [exact Eh|]. split; [exact Ek|]. split; [exact Hh'|].
    split; [exact Hk'|]. split; [apply length_clones|].
    now apply Forall_clones. }
  assert (Hff : ffn_shape d (Z.to_nat d_ff)
            (PositionwiseFFN.Make
               (linear_of (child (child theta 1) 0) d (Z.to_nat d_ff))
               (linear_of (child (child theta 1) 1) (Z.to_nat d_ff) d)
               (Dropout.init dropout))) by (split; reflexivity).
  assert (Hnorm : norm_shape d (LayerNorm.Make (ones [d]) (zeros [d]) 1e-6))
    by (split; reflexivity).
  assert (Hsub : forall k,
    sublayers_shape d (Z.to_nat k)
      (clones (SublayerConnection.Make (LayerNorm.Make (ones [d]) (zeros [d]) 1e-6)
                 (Dropout.init dropout)) k)).
  { intros k. split; [apply length_clones|]. now apply Forall_clones. }
  split; [|split; [|split]].
  - split; [|exact Hnorm]. apply Forall_clones.
    split; [exact Hattn|]. split; [exact Hff | exact (Hsub 2%Z)].
  - split; [|split; [exact Hnorm | reflexivity]]. apply Forall_clones.
    split; [exact Hattn|]. split; [exact Hattn|].
    split; [exact Hff | exact (Hsub 3%Z)].
  - split; [reflexivity | exact Hpe].
  - split; [reflexivity | exact Hpe].
Qed.

Lemma build_model_shape theta xi vs vt N d_model d_ff h dropout model mode :
  build_model theta xi vs vt N d_model d_ff h dropout = Ok model ->
  (0 < h)%Z ->
  (Z.to_nat h * Z.to_nat (d_model / h))%nat = Z.to_nat d_model /\
  model_shape (Z.to_nat h) (Z.to_nat (d_model / h)) (Z.to_nat d_ff)
    (Z.to_nat vs) (Z.to_nat vt) 5000 (EncoderDecoder.train mode model).
Proof.
  intros H Hh.
  destruct (build_model_Ok _ _ _ _ _ _ _ _ _ _ H)
    as ((_ & Hm & Hd & _) & position & Hp & ->).
  apply pe_init_shape in Hp.
  change (Z.to_nat 5000) with 5000%nat in Hp.
  destruct (built_model_shape theta vs vt N d_model d_ff h dropout position
              Hh Hd Hm Hp) as [Hprod Hs].
  split; [exact Hprod|].
  now apply model_shape_train, model_shape_xavier.
Qed.



(** ** Evaluation mode *)

Lemma stateless_ret {S A} (a : A) : stateless (@ret S A a).
Proof. exists (Ok a). reflexivity. Qed.

Lemma stateless_lift {S A} (r : result A) : stateless (@lift S A r).
Proof. exists r. reflexivity. Qed.

Lemma stateless_raise {S A} e : stateless (@raise S A e).
Proof. exists (Raise e). reflexivity. Qed.

Lemma stateless_bind {S A B} (m : M S A) (f : A -> M S B) :
  stateless m -> (forall a, stateless (f a)) -> stateless (bind m f).
Proof.
  intros [r Hr] Hf. destruct r as [a|e].
  - destruct (Hf a) as [r' Hr']. exists r'. intros s.
    unfold bind. rewrite Hr. cbn [lift]. apply Hr'.
  - exists (Raise e). intros s. unfold bind. now rewrite Hr.
Qed.

Lemma stateless_for_each {S A St} (l : list A) (body : A -> St -> M S St) :
  (forall a st, In a l -> stateless (body a st)) ->
  forall st, stateless (for_each l body st).
Proof.
  induction l as [|a l IH]; intros Hbody st; cbn [for_each].
  - apply stateless_ret.
  - apply stateless_bind; [apply Hbody; now left|].
    intros st'. apply IH. intros a' st0 Hin. apply Hbody. now right.
Qed.

Lemma dropout_eval_stateless d x :
  stateless (Dropout.forward (Dropout.train false d) x).
Proof. exists (Ok x). reflexivity. Qed.

Lemma getitem_map {A B} (f : A -> B) l i :
  getitem (map f l) i =
  match getitem l i with Ok a => Ok (f a) | Raise e => Raise e end.
Proof.
  unfold getitem. rewrite nth_error_map. now destruct (nth_error l i).
Qed.

Lemma attention_eval_stateless q k v mask d :
  stateless (attention q k v mask (Some (Dropout.train false d))).
Proof.
  unfold attention.
  apply stateless_bind; [apply stateless_lift|]. intros d_k.
  apply stateless_bind; [apply stateless_lift|]. intros kt.
  apply stateless_bind; [apply stateless_lift|]. intros qk.
  apply stateless_bind.
  { destruct mask; [apply stateless_lift | apply stateless_ret]. }
  intros scores.
  apply stateless_bind; [apply dropout_eval_stateless|]. intros w.
  apply stateless_bind; [apply stateless_lift|]. intros out.
  apply stateless_ret.
Qed.

Lemma mha_eval_stateless self q k v mask :
  stateless (MultiHeadedAttention.forward
               (MultiHeadedAttention.train false self) q k v mask).
Proof.
  unfold MultiHeadedAttention.forward.
  apply stateless_bind.
  { destruct mask; [|apply stateless_ret].
    apply stateless_bind; [apply stateless_lift|]. intros m.
    apply stateless_ret. }
  intros mask'.
  apply stateless_bind; [apply stateless_lift|]. intros B.
  apply stateless_bind.
  { apply stateless_for_each. intros [l x] st _.
    apply stateless_bind; [apply stateless_lift|]. intros y1.
    apply stateless_bind; [apply stateless_lift|]. intros y2.
    apply stateless_bind; [apply stateless_lift|]. intros y3.
    apply stateless_ret. }
  intros [|yq [|yk [|yv [|]]]]; try apply stateless_raise.
  apply stateless_bind; [apply attention_eval_stateless|]. intros [x w].
  apply stateless_bind; [apply stateless_lift|]. intros x1.
  apply stateless_bind; [apply stateless_lift|]. intros x2.
  apply stateless_bind; [apply stateless_lift|]. intros last_layer.
  apply stateless_bind; [apply stateless_lift|]. intros y.
  apply stateless_ret.
Qed.

Lemma ffn_eval_stateless f x :
  stateless (PositionwiseFFN.forward (PositionwiseFFN.train false f) x).
Proof.
  unfold PositionwiseFFN.forward.
  apply stateless_bind; [apply stateless_lift|]. intros y.
  apply stateless_bind; [apply dropout_eval_stateless|]. intros y'.
  apply stateless_lift.
Qed.

Lemma sublayer_eval_stateless s x sublayer :
  (forall n, stateless (sublayer n)) ->
  stateless (SublayerConnection.forward (SublayerConnection.train false s) x
               sublayer).
Proof.
  intros Hs. unfold SublayerConnection.forward.
  apply stateless_bind; [apply stateless_lift|]. intros n.
  apply stateless_bind; [apply Hs|]. intros y.
  apply stateless_bind; [apply dropout_eval_stateless|]. intros d.
  apply stateless_lift.
Qed.

Lemma stateless_bind_lift {S A B} (r : result A) (f : A -> M S B) :
  (forall a, r = Ok a -> stateless (f a)) -> stateless (bind (lift r) f).
Proof.
  intros H. destruct r as [a|e].
  - exact (H a eq_refl).
  - exists (Raise e). reflexivity.
Qed.

Lemma getitem_map_Ok {A B} (f : A -> B) l i b :
  getitem (map f l) i = Ok b -> exists a, b = f a.
Proof.
  rewrite getitem_map. destruct (getitem l i) as [a|e]; [|discriminate].
  intros E. inversion E. now exists a.
Qed.

Lemma encoder_block_eval_stateless b x mask :
  stateless (EncoderBlock.forward (EncoderBlock.train false b) x mask).
Proof.
  unfold EncoderBlock.forward.
  cbn [EncoderBlock.train EncoderBlock.sublayers EncoderBlock.self_attn
       EncoderBlock.ffn].
  apply stateless_bind_lift. intros s0 E0.
  apply getitem_map_Ok in E0 as [s0' ->].
  apply stateless_bind.
  { apply sublayer_eval_stateless. intros n.
    apply stateless_bind; [apply mha_eval_stateless|]. intros r.
    apply stateless_ret. }
  intros x1. apply stateless_bind_lift. intros s1 E1.
  apply getitem_map_Ok in E1 as [s1' ->].
  apply sublayer_eval_stateless. intros n. apply ffn_eval_stateless.
Qed.

Lemma decoder_block_eval_stateless b x enc sm tm :
  stateless (DecoderBlock.forward (DecoderBlock.train false b) x enc sm tm).
Proof.
  unfold DecoderBlock.forward.
  cbn [DecoderBlock.train DecoderBlock.sublayers DecoderBlock.self_attn
       DecoderBlock.encoder_attn DecoderBlock.ffn].
  apply stateless_bind_lift. intros s0 E0.
  apply getitem_map_Ok in E0 as [s0' ->].
  apply stateless_bind.
  { apply sublayer_eval_stateless. intros n.
    apply stateless_bind; [apply mha_eval_stateless|]. intros r.
    apply stateless_ret. }
  intros x1. apply stateless_bind_lift. intros s1 E1.
  apply getitem_map_Ok in E1 as [s1' ->].
  apply stateless_bind.
  { apply sublayer_eval_stateless. intros n.
    apply stateless_bind; [apply mha_eval_stateless|]. intros r.
    apply stateless_ret. }
  intros x2. apply stateless_bind_lift. intros s2 E2.
  apply getitem_map_Ok in E2 as [s2' ->].
  apply sublayer_eval_stateless. intros n. apply ffn_eval_stateless.
Qed.

Lemma encoder_eval_stateless e x mask :
  stateless (Encoder.forward (Encoder.train false e) x mask).
Proof.
  unfold Encoder.forward. cbn [Encoder.train Encoder.blocks Encoder.norm].
  apply stateless_bind; [|intros y; apply stateless_lift].
  apply stateless_for_each. intros b st Hin.
  apply in_map_iff in Hin as (b' & <- & _).
  apply encoder_block_eval_stateless.
Qed.

Lemma decoder_eval_stateless d x enc sm tm :
  stateless (Decoder.forward (Decoder.train false d) x enc sm tm).
Proof.
  unfold Decoder.forward.
  cbn [Decoder.train Decoder.blocks Decoder.norm Decoder.projection].
  apply stateless_bind.
  { apply stateless_for_each. intros b st Hin.
    apply in_map_iff in Hin as (b' & <- & _).
    apply decoder_block_eval_stateless. }
  intros y. apply stateless_bind; [apply stateless_lift|]. intros z.
  apply stateless_bind; [apply stateless_lift|]. intros o.
  apply stateless_ret.
Qed.

Lemma embed_eval_stateless e p x :
  stateless (EncoderDecoder.embed_forward (e, PositionalEncoding.train false p) x).
Proof.
  unfold EncoderDecoder.embed_forward, PositionalEncoding.forward.
  cbn [fst snd PositionalEncoding.train PositionalEncoding.pe
       PositionalEncoding.dropout].
  apply stateless_bind; [apply stateless_lift|]. intros y.
  apply stateless_bind; [apply stateless_lift|]. intros n.
  apply stateless_bind; [apply stateless_lift|]. intros s.
  apply stateless_bind; [apply stateless_lift|]. intros z.
  apply dropout_eval_stateless.
Qed.

(** X13: in evaluation mode the forward pass of any model neither reads nor
    advances the random generator: whether it returns or raises, and the
    tensor it returns, are the same for every generator state, which is
    handed back unchanged. *)
Theorem encoder_decoder_eval_deterministic (model : EncoderDecoder.t)
    (src tgt : tensor Z) (sm tm : option (tensor bool)) :
  exists r : result (tensor R),
    forall g : rng,
      EncoderDecoder.forward (EncoderDecoder.train false model) src tgt sm tm g
      = match r with
        | Ok out => Ok (out, g)
        | Raise e => Raise e
        end.
Proof.
  change (stateless (EncoderDecoder.forward (EncoderDecoder.train false model)
                       src tgt sm tm)).
  unfold EncoderDecoder.forward.
  cbn [EncoderDecoder.train EncoderDecoder.encoder EncoderDecoder.decoder
       EncoderDecoder.source_embeddings EncoderDecoder.target_embeddings].
  apply stateless_bind; [apply embed_eval_stateless|]. intros s.
  apply stateless_bind; [apply encoder_eval_stateless|]. intros enc.
  apply stateless_bind; [apply embed_eval_stateless|]. intros x.
  apply decoder_eval_stateless.
Qed.

(** ** The modules inside the model *)

Lemma in_combine_clones {A} (m : A) n k0 (p : nat * A) :
  In p (combine (seq k0 (length (clones m n))) (clones m n)) -> snd p = m.
Proof.
  intros H. destruct p as [k a]. apply in_combine_r in H.
  unfold clones in H. now apply repeat_spec in H.
Qed.

Lemma in_xavier_clones {A} (f : nat * A -> A) (m : A) n b :
  In b (map f (combine (seq 0 (length (clones m n))) (clones m n))) ->
  exists k, b = f (k, m).
Proof.
  intros H. apply in_map_iff in H as ([k a] & <- & Hin).
  apply in_combine_clones in Hin. cbn [snd] in Hin. subst a. now exists k.
Qed.

(** X14: the model that [build_model] returns has [N] encoder blocks and
    [N] decoder blocks (none for [N <= 0]); every attention module in it
    drops with the default rate 0.1, whatever [dropout] is, while the
    feed-forward networks, the residual wrappers and the positional
    encodings drop with rate [dropout]; every module is in training
    mode. *)
Theorem build_model_blocks_and_dropout theta xi vs vt N d_model d_ff h dropout
    model :
  build_model theta xi vs vt N d_model d_ff h dropout = Ok model ->
  length (Encoder.blocks (EncoderDecoder.encoder model)) = Z.to_nat N /\
  length (Decoder.blocks (EncoderDecoder.decoder model)) = Z.to_nat N /\
  (forall b, In b (Encoder.blocks (EncoderDecoder.encoder model)) ->
     MultiHeadedAttention.dropout (EncoderBlock.self_attn b)
       = Dropout.Make 0.1 true /\
     PositionwiseFFN.dropout (EncoderBlock.ffn b) = Dropout.Make dropout true /\
     length (EncoderBlock.sublayers b) = 2%nat /\
     Forall (fun s => SublayerConnection.dropout s = Dropout.Make dropout true)
            (EncoderBlock.sublayers b)) /\
  (forall b, In b (Decoder.blocks (EncoderDecoder.decoder model)) ->
     MultiHeadedAttention.dropout (DecoderBlock.self_attn b)
       = Dropout.Make 0.1 true /\
     MultiHeadedAttention.dropout (DecoderBlock.encoder_attn b)
       = Dropout.Make 0.1 true /\
     PositionwiseFFN.dropout (DecoderBlock.ffn b) = Dropout.Make dropout true /\
     length (DecoderBlock.sublayers b) = 3%nat /\
     Forall (fun s => SublayerConnection.dropout s = Dropout.Make dropout true)
            (DecoderBlock.sublayers b)) /\
  PositionalEncoding.dropout (snd (EncoderDecoder.source_embeddings model))
    = Dropout.Make dropout true /\
  PositionalEncoding.dropout (snd (EncoderDecoder.target_embeddings model))
    = Dropout.Make dropout true.
Proof.
  intros H.
  destruct (build_model_Ok _ _ _ _ _ _ _ _ _ _ H) as (_ & position & Hp & ->).
  assert (Hpd : PositionalEncoding.dropout position = Dropout.Make dropout true).
  { revert Hp. unfold PositionalEncoding.init.
    destruct (dim_of 5000); [|discriminate].
    destruct (dim_of d_model); [|discriminate].
    destruct (_ =? 0)%nat; [discriminate|].
    destruct (_ && _); [discriminate|].
    intros E. inversion E. reflexivity. }
  unfold built_model.
  cbn [EncoderDecoder.xavier EncoderDecoder.encoder EncoderDecoder.decoder
       EncoderDecoder.source_embeddings EncoderDecoder.target_embeddings
       Encoder.xavier Decoder.xavier Encoder.blocks Decoder.blocks fst snd].
  split; [now rewrite length_map_combine_seq, length_clones|].
  split; [now rewrite length_map_combine_seq, length_clones|].
  split; [|split; [|split; [exact Hpd | exact Hpd]]].
  - intros b Hin. apply in_xavier_clones in Hin as [k ->].
    cbn [fst snd EncoderBlock.xavier EncoderBlock.self_attn EncoderBlock.ffn
         EncoderBlock.sublayers MultiHeadedAttention.xavier
         MultiHeadedAttention.dropout PositionwiseFFN.xavier
         PositionwiseFFN.dropout].
    split; [reflexivity|]. split; [reflexivity|].
    split; [apply length_clones|]. now apply Forall_clones.
  - intros b Hin. apply in_xavier_clones in Hin as [k ->].
    cbn [fst snd DecoderBlock.xavier DecoderBlock.self_attn
         DecoderBlock.encoder_attn DecoderBlock.ffn
         DecoderBlock.sublayers MultiHeadedAttention.xavier
         MultiHeadedAttention.dropout PositionwiseFFN.xavier
         PositionwiseFFN.dropout].
    split; [reflexivity|]. split; [reflexivity|]. split; [reflexivity|].
    split; [apply length_clones|]. now apply Forall_clones.
Qed.

Lemma build_model_blocks_and_dropout_witness :
  let theta : params := fun _ _ => 0 in
  let xi : params := fun _ _ => 0 in
  exists model,
    build_model theta xi 5 5 2 8 16 2 0.3 = Ok model /\
    length (Encoder.blocks (EncoderDecoder.encoder model)) = Z.to_nat 2 /\
    length (Decoder.blocks (EncoderDecoder.decoder model)) = Z.to_nat 2 /\
    (forall b, In b (Encoder.blocks (EncoderDecoder.encoder model)) ->
       MultiHeadedAttention.dropout (EncoderBlock.self_attn b)
         = Dropout.Make 0.1 true /\
       PositionwiseFFN.dropout (EncoderBlock.ffn b) = Dropout.Make 0.3 true /\
       length (EncoderBlock.sublayers b) = 2%nat /\
       Forall (fun s => SublayerConnection.dropout s = Dropout.Make 0.3 true)
              (EncoderBlock.sublayers b)) /\
    (forall b, In b (Decoder.blocks (EncoderDecoder.decoder model)) ->
       MultiHeadedAttention.dropout (DecoderBlock.self_attn b)
         = Dropout.Make 0.1 true /\
       MultiHeadedAttention.dropout (DecoderBlock.encoder_attn b)
         = Dropout.Make 0.1 true /\
       PositionwiseFFN.dropout (DecoderBlock.ffn b) = Dropout.Make 0.3 true /\
       length (DecoderBlock.sublayers b) = 3%nat /\
       Forall (fun s => SublayerConnection.dropout s = Dropout.Make 0.3 true)
              (DecoderBlock.sublayers b)) /\
    PositionalEncoding.dropout (snd (EncoderDecoder.source_embeddings model))
      = Dropout.Make 0.3 true /\
    PositionalEncoding.dropout (snd (EncoderDecoder.target_embeddings model))
      = Dropout.Make 0.3 true.
Proof.
  intros theta xi.
  destruct (build_model theta xi 5 5 2 8 16 2 0.3) as [model|e] eqn:Hb.
  2:{ exfalso.
      assert (is_ok (build_model theta xi 5 5 2 8 16 2 0.3) = true)
        by (vm_compute; reflexivity).
      rewrite Hb in H. discriminate. }
  exists model. split; [reflexivity|].
  exact (build_model_blocks_and_dropout theta xi 5 5 2 8 16 2 0.3 model Hb).
Defined.

(** ** The masks of the data set *)

Lemma broadcast_vector_square L :
  broadcast_shapes [L] [L; L] = Some [L; L].
Proof.
  unfold broadcast_shapes. cbn [rev app broadcast_rev].
  now rewrite Nat.eqb_refl.
Qed.

Lemma make_std_mask_run (target : tensor Z) (pad : Z) (L : nat) :
  shape target = [L] ->
  exists m,
    RandomDataset.make_std_mask target pad = Ok m /\ shape m = [L; L] /\
    forall i j, (i < L)%nat -> (j < L)%nat ->
      get m [i; j] = negb (get target [j] =? pad)%Z && (j <=? i)%nat.
Proof.
  intros Ht. unfold RandomDataset.make_std_mask.
  rewrite (size_last_run target [] L Ht). cbn [rbind].
  unfold subsequent_mask. rewrite dim_of_nat. cbn [rbind].
  unfold logical_and, map2. cbn [shape ne_scalar tmap triu full].
  rewrite Ht, broadcast_vector_square.
  eexists. split; [reflexivity|]. split; [reflexivity|].
  intros i j Hi Hj. cbn [get].
  rewrite (bcast_index_in_range [L; L] [i; j]) by (repeat constructor; assumption).
  unfold bcast_index. cbn [rev app bcast_rev nth].
  rewrite (in_range_last L j Hj). f_equal.
  clear. cbn [get tmap triu full nth]. destruct (Z.leb_spec 1 (Z.of_nat j - Z.of_nat i)) as [H|H];
    destruct (Nat.leb_spec j i) as [H'|H']; try reflexivity; lia.
Qed.

(** X15: on a one-dimensional target of length [L], [make_std_mask] returns
    the [L x L] mask that is true at row [i], column [j] exactly when token
    [j] is not the padding and [j <= i].  A batch of targets is not given a
    dimension for the rows: with [B] rows of length [L], where [B] is
    neither 1 nor [L] and [L] is not 1, the call fails. *)
Theorem make_std_mask_causal (target : tensor Z) (pad : Z) :
  (forall L, shape target = [L] ->
     exists m,
       RandomDataset.make_std_mask target pad = Ok m /\ shape m = [L; L] /\
       forall i j, (i < L)%nat -> (j < L)%nat ->
         get m [i; j] = negb (get target [j] =? pad)%Z && (j <=? i)%nat) /\
  (forall B L, shape target = [B; L] -> B <> L -> B <> 1%nat -> L <> 1%nat ->
     RandomDataset.make_std_mask target pad = Raise RuntimeError).
Proof.
  split.
  - intros L. apply make_std_mask_run.
  - intros B L Ht HBL HB HL. unfold RandomDataset.make_std_mask.
    rewrite (size_last_run target [B] L Ht). cbn [rbind].
    unfold subsequent_mask. rewrite dim_of_nat. cbn [rbind].
    unfold logical_and, map2. cbn [shape ne_scalar tmap triu full].
    rewrite Ht. unfold broadcast_shapes. cbn [rev app broadcast_rev].
    rewrite Nat.eqb_refl.
    assert ((B =? L)%nat = false) as -> by now apply Nat.eqb_neq.
    assert ((B =? 1)%nat = false) as -> by now apply Nat.eqb_neq.
    assert ((L =? 1)%nat = false) as -> by now apply Nat.eqb_neq.
    reflexivity.
Qed.

(** ** The random data set *)

Lemma deref_last h0 d : RandomDataset.deref (h0 ++ [d]) (length h0) = Ok d.
Proof.
  unfold RandomDataset.deref, getitem.
  now rewrite nth_error_app2, Nat.sub_diag by lia.
Qed.

Lemma assign_last h0 d k v :
  RandomDataset.assign (h0 ++ [d]) (length h0) k v
  = Ok (h0 ++ [RandomDataset.setitem d k v]).
Proof.
  unfold RandomDataset.assign. rewrite deref_last. cbn [rbind].
  rewrite firstn_app, firstn_all, Nat.sub_diag, skipn_all2
    by (rewrite length_app; cbn; lia).
  cbn [firstn]. now rewrite app_nil_r.
Qed.

Lemma lookup_last h0 d k t :
  RandomDataset.lookup d k = Some (RandomDataset.Tokens t) ->
  RandomDataset.lookup_tokens (h0 ++ [d]) (length h0) k = Ok t.
Proof.
  intros H. unfold RandomDataset.lookup_tokens. rewrite deref_last.
  cbn [rbind]. now rewrite H.
Qed.

(** Reading a dictionary after a write. *)
Lemma lookup_setitem_eq d k v :
  RandomDataset.lookup (RandomDataset.setitem d k v) k = Some v.
Proof.
  induction d as [|[k' v'] d IH]; cbn [RandomDataset.setitem RandomDataset.lookup].
  - now rewrite String.eqb_refl.
  - destruct (String.eqb k' k) eqn:E; cbn [RandomDataset.lookup]; rewrite E;
      [reflexivity | exact IH].
Qed.

Lemma lookup_setitem_neq d k v k' :
  String.eqb k k' = false ->
  RandomDataset.lookup (RandomDataset.setitem d k v) k' = RandomDataset.lookup d k'.
Proof.
  intros Hne.
  induction d as [|[k0 v0] d IH]; cbn [RandomDataset.setitem RandomDataset.lookup].
  - now rewrite Hne.
  - destruct (String.eqb k0 k) eqn:E; cbn [RandomDataset.lookup].
    + apply String.eqb_eq in E. subst k0. now rewrite Hne.
    + now rewrite IH.
Qed.

(** Writing under a key that the dictionary has keeps its keys. *)
Lemma setitem_keys d k v :
  In k (map fst d) ->
  map fst (RandomDataset.setitem d k v) = map fst d.
Proof.
  induction d as [|[k' v'] d IH]; intros Hin; [destruct Hin|].
  cbn [RandomDataset.setitem]. destruct (String.eqb k' k) eqn:E; [reflexivity|].
  cbn [map fst]. f_equal. apply IH. destruct Hin as [Hin|Hin]; [|exact Hin].
  cbn [fst] in Hin. subst k'. now rewrite String.eqb_refl in E.
Qed.

Lemma randint_run V L g :
  (1 < V)%Z -> (1 <= L)%nat ->
  RandomDataset.randint 1 V (Z.of_nat L) g
  = Ok (Tensor [L]
          (fun idx => (1 + Z.of_nat (g (nth 0 idx 0%nat)) mod (V - 1))%Z),
        fun k => g (L + k)%nat).
Proof.
  intros HV HL. unfold RandomDataset.randint.
  assert ((Z.of_nat L =? 0)%Z = false) as -> by (apply Z.eqb_neq; lia).
  assert ((V <=? 1)%Z = false) as -> by (apply Z.leb_gt; lia).
  assert ((Z.of_nat L <? 0)%Z = false) as -> by (apply Z.ltb_ge; lia).
  cbn [orb]. now rewrite Nat2Z.id.
Qed.

Lemma slice_bound_last L : (1 <= L)%nat -> slice_bound L (-1) = (L - 1)%nat.
Proof. intros H. unfold slice_bound. cbn [Z.ltb Z.compare]. lia. Qed.

Lemma slice_bound_first L : (1 <= L)%nat -> slice_bound L 1 = 1%nat.
Proof. intros H. unfold slice_bound. cbn [Z.ltb Z.compare]. lia. Qed.

Lemma indices_vector n : indices [n] = map (fun i => [i]) (seq 0 n).
Proof.
  cbn [indices]. generalize (seq 0 n) as l.
  induction l as [|a l IH]; [reflexivity|].
  change (flat_map (fun i : nat => map (cons i) [[]]) (a :: l))
    with ([a] :: flat_map (fun i : nat => map (cons i) [[]]) l).
  now rewrite IH.
Qed.

Lemma count_true_all (t : tensor bool) n :
  shape t = [n] -> (forall i, (i < n)%nat -> get t [i] = true) ->
  count_true t = Z.of_nat n.
Proof.
  intros Hs Ht. unfold count_true. rewrite Hs, indices_vector. f_equal.
  assert (E : filter (get t) (map (fun i => [i]) (seq 0 n))
              = map (fun i => [i]) (seq 0 n)).
  { apply forallb_filter_id. apply forallb_forall. intros idx Hin.
    apply in_map_iff in Hin as (i & <- & Hi). apply in_seq in Hi.
    apply Ht. lia. }
  now rewrite E, length_map, length_seq.
Qed.

Lemma token_positive V (x : nat) i :
  (1 < V)%Z ->
  (1 <= (if (i =? 0)%nat then 1 else 1 + Z.of_nat x mod (V - 1)) < V)%Z.
Proof.
  intros HV. destruct (i =? 0)%nat; [lia|].
  pose proof (Z.mod_pos_bound (Z.of_nat x) (V - 1)). lia.
Qed.

Ltac dict_lookup :=
  repeat (rewrite lookup_setitem_neq by reflexivity); apply lookup_setitem_eq.

(** One round of the loop writes a sample made of fresh tokens into the
    dictionary, whatever it held, and appends the reference once more. *)
Lemma init_body_run V L h0 d samples i g :
  (1 < V)%Z -> (1 <= L)%nat ->
  exists d',
    RandomDataset.init_body V (Z.of_nat L) (length h0) i (samples, h0 ++ [d]) g
    = Ok ((samples ++ [length h0], h0 ++ [d']), fun k => g (L + k)%nat) /\
    RandomDataset.is_sample L
      (fun i => if (i =? 0)%nat then 1%Z
                else (1 + Z.of_nat (g i) mod (V - 1))%Z) d' /\
    (d = [] \/ map fst d = sample_keys -> map fst d' = sample_keys).
Proof.
  intros HV HL. unfold RandomDataset.init_body. cbv beta iota zeta.
  pose (data0 := Tensor [L]
          (fun idx => (1 + Z.of_nat (g (nth 0 idx 0%nat)) mod (V - 1))%Z)).
  pose (data := Tensor [L]
                  (fun idx => if (nth 0 idx 0 =? 0)%nat then 1%Z else get data0 idx)).
  assert (E1 : setitem0 data0 1%Z = Ok data).
  { unfold setitem0. cbn [shape data0].
    now assert ((L =? 0)%nat = false) as -> by (apply Nat.eqb_neq; lia). }
  pose (t1 := Tensor [(L - 1)%nat]
                (fun idx => get data ((0 + nth 0 idx 0)%nat :: tl idx))).
  assert (E2 : slice0 data None (Some (-1)%Z) = Ok t1).
  { unfold slice0. cbn [shape data].
    now rewrite (slice_bound_last L HL), Nat.sub_0_r. }
  pose (t2 := Tensor [(L - 1)%nat]
                (fun idx => get data ((1 + nth 0 idx 0)%nat :: tl idx))).
  assert (E3 : slice0 data (Some 1%Z) None = Ok t2).
  { unfold slice0. cbn [shape data]. now rewrite (slice_bound_first L HL). }
  pose (sm := Tensor [1%nat; L]
                (fun idx => get (ne_scalar data 0) (remove_at 0 idx))).
  assert (E4 : unsqueeze (ne_scalar data 0) (-2) = Ok sm) by reflexivity.
  destruct (make_std_mask_run t1 0 (L - 1) eq_refl) as (tm & E5 & Stm & Vtm).
  eexists. split.
  { rewrite (bind_run _ _ _ _ _ (randint_run V L g HV HL)). fold data0.
    rewrite (bind_lift_Ok _ _ E1), (bind_lift_Ok _ _ (assign_last h0 _ _ _)).
    rewrite (bind_lift_Ok _ _ E2), (bind_lift_Ok _ _ (assign_last h0 _ _ _)).
    rewrite (bind_lift_Ok _ _ E3), (bind_lift_Ok _ _ (assign_last h0 _ _ _)).
    rewrite (bind_lift_Ok _ _ E4), (bind_lift_Ok _ _ (assign_last h0 _ _ _)).
    match goal with
    | |- context [RandomDataset.lookup_tokens (h0 ++ [?dd]) _ "target"%string] =>
        rewrite (bind_lift_Ok _ _ (lookup_last h0 dd "target"%string t1
                                     ltac:(dict_lookup)))
    end.
    rewrite (bind_lift_Ok _ _ E5), (bind_lift_Ok _ _ (assign_last h0 _ _ _)).
    match goal with
    | |- context [RandomDataset.lookup_tokens (h0 ++ [?dd]) _ "target_y"%string] =>
        rewrite (bind_lift_Ok _ _ (lookup_last h0 dd "target_y"%string t2
                                     ltac:(dict_lookup)))
    end.
    rewrite (bind_lift_Ok _ _ (assign_last h0 _ _ _)).
    reflexivity. }
  split.
  2:{ intros [-> | Hkeys]; [reflexivity|].
      assert (Hstep : forall dd k v,
                map fst dd = sample_keys -> In k sample_keys ->
                map fst (RandomDataset.setitem dd k v) = sample_keys).
      { intros dd k v E Hin. rewrite setitem_keys; [exact E|].
        rewrite E. exact Hin. }
      repeat (apply Hstep; [|unfold sample_keys; cbn [In]; auto 10]).
      exact Hkeys. }
  assert (Htok : forall k, (get data [k] =? 0)%Z = false).
  { intros k. apply Z.eqb_neq. cbn [get data data0 nth].
    pose proof (token_positive V (g k) k HV). lia. }
  unfold RandomDataset.is_sample.
  split; [|split; [|split; [|split; [|split]]]].
  - exists data. split; [dict_lookup|]. split; [reflexivity|].
    intros k _. reflexivity.
  - exists t1. split; [dict_lookup|]. split; [reflexivity|].
    intros k _. reflexivity.
  - exists t2. split; [dict_lookup|]. split; [reflexivity|].
    intros k _. reflexivity.
  - exists sm. split; [dict_lookup|]. split; [reflexivity|].
    intros k _. cbn [get sm ne_scalar tmap remove_at firstn skipn app].
    now rewrite Htok.
  - exists tm. split; [dict_lookup|]. split; [exact Stm|].
    intros a b Ha Hb. rewrite (Vtm a b Ha Hb).
    cbn [get t1 nth tl Nat.add]. now rewrite Htok.
  - rewrite lookup_setitem_eq. do 2 f_equal. apply count_true_all; [reflexivity|].
    intros k _. cbn [get ne_scalar tmap t2 nth tl]. now rewrite Htok.
Qed.

Lemma is_sample_ext L (tok tok' : nat -> Z) d :
  (forall i, tok i = tok' i) ->
  RandomDataset.is_sample L tok d -> RandomDataset.is_sample L tok' d.
Proof.
  intros E ((t0 & H0 & S0 & V0) & (t1 & H1 & S1 & V1) & (t2 & H2 & S2 & V2)
            & Hsm & Htm & Hc).
  split; [|split; [|split; [|split; [|split]]]]; try assumption.
  - exists t0. repeat split; try assumption. intros i Hi. now rewrite <- E, V0.
  - exists t1. repeat split; try assumption. intros i Hi. now rewrite <- E, V1.
  - exists t2. repeat split; try assumption. intros i Hi. now rewrite <- E, V2.
Qed.

(** The loop of [__init__]: after [n] rounds the list holds [n] times the
    same reference, and the dictionary holds the sample of the last
    round. *)
Lemma init_loop_run V L h0 :
  (1 < V)%Z -> (1 <= L)%nat ->
  forall n a samples d g,
  exists d' g',
    for_each (seq a n) (RandomDataset.init_body V (Z.of_nat L) (length h0))
      (samples, h0 ++ [d]) g
    = Ok ((samples ++ repeat (length h0) n, h0 ++ [d']), g') /\
    (forall k, g' k = g (n * L + k)%nat) /\
    (n = 0%nat -> d' = d) /\
    ((0 < n)%nat ->
     RandomDataset.is_sample L
       (fun i => if (i =? 0)%nat then 1%Z
                 else (1 + Z.of_nat (g ((n - 1) * L + i)%nat) mod (V - 1))%Z) d' /\
     (d = [] \/ map fst d = sample_keys -> map fst d' = sample_keys)).
Proof.
  intros HV HL n. induction n as [|n IH]; intros a samples d g.
  - exists d, g. cbn [seq for_each repeat]. rewrite app_nil_r.
    split; [reflexivity|]. split; [reflexivity|]. split; [reflexivity | lia].
  - destruct (init_body_run V L h0 d samples a g HV HL) as (d1 & E1 & H1 & K1).
    destruct (IH (S a) (samples ++ [length h0]) d1 (fun k => g (L + k)%nat))
      as (d' & g' & E & Hg & Hz & Hp).
    exists d', g'. cbn [seq for_each].
    rewrite (bind_run _ _ _ _ _ E1), E, <- app_assoc.
    split; [reflexivity|].
    split; [intros k; rewrite Hg; f_equal; lia|].
    split; [discriminate|]. intros _.
    destruct n as [|n].
    + rewrite (Hz eq_refl). split; [|exact K1].
      revert H1. apply is_sample_ext. intros i. reflexivity.
    + destruct (Hp ltac:(lia)) as [Hs Hk]. split.
      * revert Hs. apply is_sample_ext.
        intros i. cbv beta. destruct (i =? 0)%nat; [reflexivity|].
        do 4 f_equal. lia.
      * intros Hd. apply Hk. right. exact (K1 Hd).
Qed.

Lemma getitem_int_repeat {A} (r : A) n idx :
  ((- Z.of_nat n <= idx < Z.of_nat n)%Z -> getitem_int (repeat r n) idx = Ok r) /\
  (~ (- Z.of_nat n <= idx < Z.of_nat n)%Z ->
   getitem_int (repeat r n) idx = Raise IndexError).
Proof.
  unfold getitem_int, getitem. rewrite repeat_length.
  destruct (Z.ltb_spec idx 0) as [Hneg|Hpos].
  - destruct (Z.ltb_spec (idx + Z.of_nat n) 0) as [Hlow|Hlow].
    + split; [lia | reflexivity].
    + split; [|lia]. intros _. now rewrite nth_error_repeat by lia.
  - destruct (Z.ltb_spec idx 0) as [|_]; [lia|].
    split; intros H.
    + now rewrite nth_error_repeat by lia.
    + assert (E : nth_error (repeat r n) (Z.to_nat idx) = None)
        by (apply nth_error_None; rewrite repeat_length; lia).
      now rewrite E.
Qed.



(** X17: without samples to draw ([total_samples <= 0]) the data set is
    empty, whatever the other arguments, and the generator is not used.
    Otherwise a sample length of 0 fails on writing the first token
    ([IndexError]), whatever the bound [V]; for another sample length a
    bound [V <= 1] leaves no token to draw, and a negative sample length is
    refused (both [ValueError], here [RuntimeError]). *)
Theorem random_dataset_refusals (V total L : Z) h0 g :
  let r := RandomDataset.init V total L h0 g in
  ((total <= 0)%Z ->
   r = Ok ((RandomDataset.Make [], h0 ++ [RandomDataset.empty_dict]), g)) /\
  ((0 < total)%Z -> L = 0%Z -> r = Raise IndexError) /\
  ((0 < total)%Z -> L <> 0%Z -> (V <= 1)%Z -> r = Raise RuntimeError) /\
  ((0 < total)%Z -> (L < 0)%Z -> r = Raise RuntimeError).
Proof.
  intros r. subst r. unfold RandomDataset.init, RandomDataset.alloc, range.
  assert (Hfirst : forall e,
    (0 < total)%Z ->
    (forall st, RandomDataset.init_body V L (length h0) 0 st g = Raise e) ->
    bind (for_each (seq 0 (Z.to_nat total))
            (RandomDataset.init_body V L (length h0))
            ([], h0 ++ [RandomDataset.empty_dict]))
         (fun st => ret (RandomDataset.Make (fst st), snd st)) g = Raise e).
  { intros e Ht Hb. destruct (Z.to_nat total) as [|n] eqn:En; [lia|].
    cbn [seq for_each]. unfold bind at 1. unfold bind at 1. now rewrite Hb. }
  split; [|split; [|split]].
  - intros Ht. replace (Z.to_nat total) with 0%nat by lia. reflexivity.
  - intros Ht ->. apply Hfirst; [exact Ht|]. intros [samples h].
    reflexivity.
  - intros Ht HL HV. apply Hfirst; [exact Ht|]. intros [samples h].
    unfold RandomDataset.init_body, bind, RandomDataset.randint.
    assert ((L =? 0)%Z = false) as -> by (apply Z.eqb_neq; lia).
    now assert ((V <=? 1)%Z = true) as -> by (apply Z.leb_le; lia).
  - intros Ht HL. apply Hfirst; [exact Ht|]. intros [samples h].
    unfold RandomDataset.init_body, bind, RandomDataset.randint.
    assert ((L =? 0)%Z = false) as -> by (apply Z.eqb_neq; lia).
    assert ((L <? 0)%Z = true) as -> by (apply Z.ltb_lt; lia).
    now rewrite orb_true_r.
Qed.

(** ** Pairs from a class with too few samples *)

Lemma fold_left_min_le xs : forall x y,
  In y (x :: xs) -> (fold_left Nat.min xs x <= y)%nat.
Proof.
  induction xs as [|a xs IH]; intros x y [<-|Hy]; cbn [fold_left].
  - lia.
  - destruct Hy.
  - etransitivity; [apply IH; left; reflexivity | lia].
  - destruct Hy as [<-|Hy].
    + etransitivity; [apply IH; left; reflexivity | lia].
    + apply IH. right. exact Hy.
Qed.

(** X18: when one of the 10 classes has at most one sample (or none),
    [create_pairs] makes no pair for any class: it returns empty lists of
    pairs and labels, without an error and without drawing a random
    number, whatever the inputs are. *)
Theorem create_pairs_scarce_class (X : Type) (inputs : list X)
    (labels : list nat) (g : Siamese.rng) (d : nat) :
  (d < 10)%nat -> (count_occ Nat.eq_dec labels d <= 1)%nat ->
  Siamese.create_pairs inputs labels g = Ok (([], []), g).
Proof.
  intros Hd Hcount. unfold Siamese.create_pairs.
  set (digit_indices := map (fun i => Siamese.where_eq labels i)
                            (seq 0 Siamese.num_classes)).
  set (cnt := fun c => length (nth c digit_indices [])).
  change (seq 0 Siamese.num_classes) with (0%nat :: seq 1 9).
  cbn [map Siamese.min_list].
  rewrite (bind_lift_Ok _ _ eq_refl).
  assert (Hm : (fold_left Nat.min (map cnt (seq 1 9)) (cnt 0%nat) <= 1)%nat).
  { transitivity (cnt d); [|].
    - apply fold_left_min_le.
      change (cnt 0%nat :: map cnt (seq 1 9)) with (map cnt (seq 0 10)).
      apply in_map, in_seq. lia.
    - unfold cnt.
      rewrite (nth_error_nth _ _ _ (SiameseFacts.digit_indices_nth labels d Hd)).
      unfold Siamese.where_eq. now rewrite SiameseFacts.where_from_length. }
  fold cnt. unfold range.
  replace (Z.to_nat (Z.of_nat (fold_left Nat.min (map cnt (seq 1 9)) (cnt 0%nat)) - 1))
    with 0%nat by lia.
  reflexivity.
Qed.

Lemma create_pairs_scarce_class_witness :
  let labels := [0; 1; 2; 3; 4; 5; 6; 7; 8; 9; 0; 1; 2; 3; 4; 5; 6; 7; 8]%nat in
  Siamese.create_pairs labels labels (fun _ => 0%nat) = Ok (([], []), fun _ => 0%nat).
Proof.
  intros labels.
  apply (create_pairs_scarce_class nat labels labels (fun _ => 0%nat) 9);
    [lia | cbn; lia].
Defined.

(** ** The siamese network *)

Lemma sigmoid_range x : 0 < SiameseNet.sigmoid x < 1.
Proof.
  unfold SiameseNet.sigmoid. pose proof (exp_pos (- x)) as He.
  assert (Hd : 0 < 1 + exp (- x)) by lra.
  split.
  - apply Rdiv_lt_0_compat; lra.
  - apply (Rmult_lt_reg_r (1 + exp (- x))); [exact Hd|].
    replace (1 / (1 + exp (- x)) * (1 + exp (- x))) with 1 by (field; lra). lra.
Qed.

(** The base network in inference mode, on a batch of [n] samples. *)
Lemma base_network_run w n s (x : tensor R) g :
  shape x = n :: s ->
  exists e,
    SiameseNet.sequential w false 0 SiameseNet.create_base_network x g = Ok (e, g) /\
    shape e = [n; 64%nat].
Proof.
  intros Hx. unfold SiameseNet.create_base_network.
  cbn [SiameseNet.sequential SiameseNet.apply_layer].
  unfold SiameseNet.flatten. rewrite Hx.
  rewrite (bind_lift_Ok _ _ eq_refl).
  unfold SiameseNet.dense at 1. cbn [shape removelast app].
  rewrite (bind_lift_Ok _ _ eq_refl).
  unfold Dropout.forward at 1. cbn [Dropout.training].
  unfold bind at 1. unfold ret at 1.
  unfold SiameseNet.dense at 1. cbn [shape removelast app].
  rewrite (bind_lift_Ok _ _ eq_refl).
  unfold Dropout.forward at 1. cbn [Dropout.training].
  unfold bind at 1. unfold ret at 1.
  unfold SiameseNet.dense at 1. cbn [shape removelast app].
  rewrite (bind_lift_Ok _ _ eq_refl).
  eexists. split; reflexivity.
Qed.

Lemma siamese_model_run w s n (a b : tensor R) g :
  shape a = n :: s -> shape b = n :: s ->
  exists ea eb,
    shape ea = [n; 64%nat] /\ shape eb = [n; 64%nat] /\
    (forall g', SiameseNet.sequential (child w 0) false 0
                  SiameseNet.create_base_network a g' = Ok (ea, g')) /\
    (forall g', SiameseNet.sequential (child w 0) false 0
                  SiameseNet.create_base_network b g' = Ok (eb, g')) /\
    SiameseNet.model w s false a b g
    = Ok (Tensor [n; 1%nat]
            (fun idx =>
               SiameseNet.sigmoid
                 (sum_upto 64
                    (fun k => Rabs (get ea (bcast_index [n; 64%nat] (row_of idx k))
                                    - get eb (bcast_index [n; 64%nat] (row_of idx k)))
                              * w [1; 0]%nat [k; last idx 0%nat])
                  + w [1; 1]%nat [last idx 0%nat])), g).
Proof.
  intros Ha Hb.
  assert (Hrun : forall x, shape x = n :: s ->
            exists e, shape e = [n; 64%nat] /\
              forall g', SiameseNet.sequential (child w 0) false 0
                           SiameseNet.create_base_network x g' = Ok (e, g')).
  { intros x Hx. destruct (base_network_run (child w 0) n s x g Hx) as (e & E & Se).
    exists e. split; [exact Se|]. intros g'.
    destruct (base_network_run (child w 0) n s x g' Hx) as (e' & E' & _).
    revert E E'. unfold SiameseNet.create_base_network.
    cbn [SiameseNet.sequential SiameseNet.apply_layer].
    unfold Dropout.forward. cbn [Dropout.training].
    unfold bind, lift, ret.
    destruct (SiameseNet.flatten x) as [x1|]; [|discriminate].
    destruct (SiameseNet.dense _ 128 _ x1) as [x2|]; [|discriminate].
    destruct (SiameseNet.dense _ 128 _ x2) as [x3|]; [|discriminate].
    destruct (SiameseNet.dense _ 64 _ x3) as [x4|]; [|discriminate].
    intros E _. inversion E. reflexivity. }
  destruct (Hrun a Ha) as (ea & Sa & Ea). destruct (Hrun b Hb) as (eb & Sb & Eb).
  exists ea, eb. split; [exact Sa|]. split; [exact Sb|].
  split; [exact Ea|]. split; [exact Eb|].
  unfold SiameseNet.model. rewrite Ha, Hb, !list_eqb_refl, Nat.eqb_refl.
  cbn [andb].
  rewrite (bind_run _ _ _ _ _ (Ea g)), (bind_run _ _ _ _ _ (Eb g)).
  unfold sub, map2. rewrite Sa, Sb, broadcast_shapes_refl.
  rewrite (bind_lift_Ok _ _ eq_refl).
  reflexivity.
Qed.

(** X19: in inference mode the siamese model is symmetric in its two
    inputs, every output is strictly between 0 and 1, and a batch paired
    with itself gets the same output for every sample, the sigmoid of the
    bias of the last layer, whatever the samples are: the two branches are
    one network, so equal inputs have equal encodings. *)
Theorem siamese_model_symmetric w s n (a b : tensor R) g :
  shape a = n :: s -> shape b = n :: s ->
  exists y y' z,
    SiameseNet.model w s false a b g = Ok (y, g) /\
    SiameseNet.model w s false b a g = Ok (y', g) /\
    SiameseNet.model w s false a a g = Ok (z, g) /\
    shape y = [n; 1%nat] /\ shape y' = [n; 1%nat] /\ shape z = [n; 1%nat] /\
    forall i, (i < n)%nat ->
      get y [i; 0%nat] = get y' [i; 0%nat] /\
      0 < get y [i; 0%nat] < 1 /\
      get z [i; 0%nat] = SiameseNet.sigmoid (w [1; 1]%nat [0%nat]).
Proof.
  intros Ha Hb.
  destruct (siamese_model_run w s n a b g Ha Hb) as (ea & eb & Sa & Sb & Ea & Eb & Eab).
  destruct (siamese_model_run w s n b a g Hb Ha)
    as (eb' & ea' & _ & _ & Eb' & Ea' & Eba).
  destruct (siamese_model_run w s n a a g Ha Ha)
    as (ea1 & ea2 & _ & _ & Ea1 & Ea2 & Eaa).
  assert (ea' = ea) as -> by (specialize (Ea g); specialize (Ea' g); congruence).
  assert (eb' = eb) as -> by (specialize (Eb g); specialize (Eb' g); congruence).
  assert (ea2 = ea1) as -> by (specialize (Ea1 g); specialize (Ea2 g); congruence).
  eexists. eexists. eexists.
  split; [exact Eab|]. split; [exact Eba|]. split; [exact Eaa|].
  split; [reflexivity|]. split; [reflexivity|]. split; [reflexivity|].
  intros i Hi. cbn [get last row_of removelast app].
  split; [|split].
  - f_equal. f_equal. apply sum_upto_ext. intros k _.
    now rewrite Rabs_minus_sym.
  - apply sigmoid_range.
  - f_equal.
    rewrite (sum_upto_ext 64 _ (fun _ => 0)).
    + rewrite sum_upto_const. ring.
    + intros k _. rewrite Rminus_diag, Rabs_R0. ring.
Qed.

Lemma siamese_model_symmetric_witness :
  let w : params := fun _ _ => 1 in
  let g : rng := fun _ _ => true in
  let a := full [2; 28; 28]%nat 0 in
  let b := full [2; 28; 28]%nat 1 in
  exists y y' z,
    SiameseNet.model w [28; 28]%nat false a b g = Ok (y, g) /\
    SiameseNet.model w [28; 28]%nat false b a g = Ok (y', g) /\
    SiameseNet.model w [28; 28]%nat false a a g = Ok (z, g) /\
    shape y = [2; 1]%nat /\ shape y' = [2; 1]%nat /\ shape z = [2; 1]%nat /\
    forall i, (i < 2)%nat ->
      get y [i; 0%nat] = get y' [i; 0%nat] /\
      0 < get y [i; 0%nat] < 1 /\
      get z [i; 0%nat] = SiameseNet.sigmoid (w [1; 1]%nat [0%nat]).
Proof.
  intros w g a b.
  apply (siamese_model_symmetric w [28; 28]%nat 2 a b g); reflexivity.
Defined.

(** ** The loss *)

Lemma str_filter_all {A} (f : A -> bool) l :
  (forall a, In a l -> f a = true) -> filter f l = l.
Proof.
  intros H. apply forallb_filter_id. apply forallb_forall. exact H.
Qed.

(** X20: [CrossEntropyLoss] normalises its input with a log-softmax.  On an
    input whose rows already are log-probabilities, as the output of the
    decoder is, this changes nothing: for at least one row the loss is the
    mean of minus the input at the expected classes. *)
Theorem cross_entropy_of_log_probabilities (x : tensor R) (t : tensor Z)
    (n c : nat) :
  shape x = [n; c] -> shape t = [n] -> (0 < n)%nat ->
  (forall i, (i < n)%nat -> (0 <= get t [i] < Z.of_nat c)%Z) ->
  (forall i, (i < n)%nat -> sum_upto c (fun j => exp (get x [i; j])) = 1) ->
  cross_entropy_loss x t
  = Ok (sum_upto n (fun i => - get x [i; Z.to_nat (get t [i])]) / INR n).
Proof.
  intros Hx Ht _ Hrange Hrows. unfold cross_entropy_loss.
  rewrite Hx, Ht, Nat.eqb_refl. cbn [negb].
  assert (Hkept : filter (fun i => negb (get t [i] =? -100)%Z) (seq 0 n) = seq 0 n).
  { apply str_filter_all. intros i Hi. apply in_seq in Hi.
    specialize (Hrange i ltac:(lia)).
    apply negb_true_iff, Z.eqb_neq. lia. }
  rewrite Hkept.
  assert (forallb (fun i => (0 <=? get t [i])%Z && (get t [i] <? Z.of_nat c)%Z)
            (seq 0 n) = true) as ->.
  { apply forallb_forall. intros i Hi. apply in_seq in Hi.
    specialize (Hrange i ltac:(lia)). apply andb_true_intro.
    split; [apply Z.leb_le | apply Z.ltb_lt]; lia. }
  rewrite length_seq. f_equal. f_equal.
  change (fold_right Rplus 0
            (map (fun i => - get (log_softmax x) [i; Z.to_nat (get t [i])]) (seq 0 n)))
    with (sum_upto n (fun i => - get (log_softmax x) [i; Z.to_nat (get t [i])])).
  apply sum_upto_ext. intros i Hi. f_equal.
  unfold log_softmax. cbn [get]. rewrite Hx.
  change (last_dim [n; c]) with c.
  rewrite (sum_upto_ext c _ (fun j => exp (get x [i; j])))
    by (intros j _; reflexivity).
  rewrite (Hrows i Hi), ln_1. ring.
Qed.

Lemma cross_entropy_of_log_probabilities_witness :
  let x := log_softmax (of_list2 0 [[1; 2; 3]; [0; 0; 0]]) in
  let t := of_list1 0%Z [2; 0]%Z in
  cross_entropy_loss x t
  = Ok (sum_upto 2 (fun i => - get x [i; Z.to_nat (get t [i])]) / INR 2).
Proof.
  intros x t.
  apply (cross_entropy_of_log_probabilities x t 2 3).
  - reflexivity.
  - reflexivity.
  - lia.
  - intros i Hi. destruct i as [|[|i]]; cbn; lia.
  - intros i Hi.
    apply (log_softmax_row_sum (of_list2 0 [[1; 2; 3]; [0; 0; 0]]) [i]).
    cbn. lia.
Defined.

(** ** The training loop *)

Lemma view_rows_run (out : tensor R) B L v :
  shape out = [B; L; v] -> (0 < v)%nat ->
  exists z, view (contiguous out) [-1; Z.of_nat v]%Z = Ok z /\
            shape z = [(B * L)%nat; v].
Proof.
  intros Hx Hv. unfold view, contiguous.
  change [-1; Z.of_nat v]%Z with (map Z.of_nat [] ++ (-1)%Z :: map Z.of_nat [v]).
  rewrite (infer_shape_one_free (numel (shape out)) (B * L) [] [v]).
  - eexists. split; reflexivity.
  - cbn [app numel fold_right]. lia.
  - rewrite Hx. cbn [app numel fold_right]. ring.
Qed.

Lemma view_flat_run (t : tensor Z) B L :
  shape t = [B; L] ->
  exists z, view (contiguous t) [-1]%Z = Ok z /\ shape z = [(B * L)%nat] /\
            forall i, (i < B * L)%nat ->
              exists idx, Forall2 lt idx (shape t) /\ get z [i] = get t idx.
Proof.
  intros Ht. unfold view, contiguous.
  change [-1]%Z with (map Z.of_nat [] ++ (-1)%Z :: map Z.of_nat []).
  rewrite (infer_shape_one_free (numel (shape t)) (B * L) [] []).
  - eexists. split; [reflexivity|]. split; [reflexivity|].
    intros i Hi. cbn [get app]. rewrite Ht.
    cbn [flatten_index unflatten_index numel fold_right].
    eexists. split; [|reflexivity].
    assert (HL : (0 < L)%nat) by (destruct L; [lia | lia]).
    rewrite !Nat.mul_1_r, Nat.add_0_r, Nat.div_1_r.
    constructor; [|constructor; [|constructor]].
    + apply Nat.Div0.div_lt_upper_bound. lia.
    + apply Nat.mod_upper_bound. lia.
  - cbn. lia.
  - rewrite Ht. cbn [app numel fold_right]. ring.
Qed.

Lemma get_state_run {S A} (f : S -> M S A) s :
  bind Training.get_state f s = f s s.
Proof. reflexivity. Qed.

(** One round of the loop on a batch that the model accepts. *)
Lemma train_body_run (O : Type) loss_function
    (optimizer_step : O -> EncoderDecoder.t -> RandomDataset.dict -> rng
                      -> O * EncoderDecoder.t)
    h dk dff vs vt i batch (st : Training.state O) g :
  (0 < vt)%nat ->
  (forall x t n c, shape x = [n; c] -> shape t = [n] ->
     (forall k, (k < n)%nat -> (0 <= get t [k] < Z.of_nat c)%Z) ->
     exists l, loss_function x t = Ok l) ->
  is_batch vs vt batch ->
  model_shape h dk dff vs vt 5000 (Training.model st) ->
  exists loss g' x t,
    loss_function x t = Ok loss /\
    Training.train_body loss_function optimizer_step (i, batch) st g
    = Ok (let '(optimizer', model') :=
            optimizer_step (Training.optimizer st) (Training.model st) batch g in
          if ((Training.counter st + 1) mod 5 =? 0)%Z then
            Training.State model' optimizer' 0 0
              (Training.printed st ++
               [((Z.of_nat i + 1)%Z,
                 (Training.current_loss st + loss)
                 / IZR (Training.counter st + 1))])
          else
            Training.State model' optimizer' (Training.current_loss st + loss)
              (Training.counter st + 1)%Z (Training.printed st),
          g').
Proof.
  intros Hvt Hloss Hb Hm.
  destruct Hb as (src & tgt & ty & sm & tm & B & Ls & Lt & Ks & Kt & Ky & Ksm & Ktm
                  & HB & HLs & HLt & Ss & St & Sy & Vs & Vt & Vy & Msm & Mtm).
  destruct (model_forward_runs _ _ _ _ _ _ _ B Ls Lt src tgt (Some sm) (Some tm)
              Hm HB Ss St Vs Vt HLs HLt Msm Mtm g)
    as (out & g' & Eout & y & -> & Sout).
  change (shape y) with (shape (log_softmax y)) in Sout.
  destruct (view_rows_run (log_softmax y) B Lt vt Sout Hvt) as (scores & Escores & Sscores).
  destruct (view_flat_run ty B Lt Sy) as (expected & Eexp & Sexp & Vexp).
  destruct (Hloss scores expected (B * Lt)%nat vt Sscores Sexp) as (loss & El).
  { intros k Hk. destruct (Vexp k Hk) as (idx & Hidx & ->). now apply Vy. }
  exists loss, g', scores, expected. split; [exact El|].
  unfold Training.train_body. rewrite get_state_run.
  assert (E1 : dict_tokens batch "source"%string = Ok src)
    by (unfold dict_tokens; now rewrite Ks).
  assert (E2 : dict_tokens batch "target"%string = Ok tgt)
    by (unfold dict_tokens; now rewrite Kt).
  assert (E3 : dict_mask batch "source_mask"%string = Ok sm)
    by (unfold dict_mask; now rewrite Ksm).
  assert (E4 : dict_mask batch "target_mask"%string = Ok tm)
    by (unfold dict_mask; now rewrite Ktm).
  assert (E5 : dict_tokens batch "target_y"%string = Ok ty)
    by (unfold dict_tokens; now rewrite Ky).
  rewrite (bind_lift_Ok _ _ E1), (bind_lift_Ok _ _ E2), (bind_lift_Ok _ _ E3),
    (bind_lift_Ok _ _ E4).
  rewrite (bind_run _ _ _ _ _ Eout).
  rewrite (bind_lift_Ok _ _ (size_last_run (log_softmax y) [B; Lt] vt Sout)).
  rewrite (bind_lift_Ok _ _ Escores), (bind_lift_Ok _ _ E5),
    (bind_lift_Ok _ _ Eexp), (bind_lift_Ok _ _ El).
  destruct (optimizer_step (Training.optimizer st) (Training.model st) batch g)
    as [optimizer' model'].
  destruct ((Training.counter st + 1) mod 5 =? 0)%Z; reflexivity.
Qed.

(** The bookkeeping of the loop: where the next loss goes. *)
Lemma report_unchanged losses loss k :
  (5 * k + 5 <= length losses)%nat ->
  report (losses ++ [loss]) k = report losses k.
Proof.
  intros H. unfold report. f_equal. f_equal.
  apply sum_upto_ext. intros j Hj. apply app_nth1. lia.
Qed.

Lemma sum_upto_last_loss losses loss c q :
  length losses = (5 * q + c)%nat ->
  sum_upto (S c) (fun j => nth (5 * q + j) (losses ++ [loss]) 0)
  = sum_upto c (fun j => nth (5 * q + j) losses 0) + loss.
Proof.
  intros Hlen. rewrite sum_upto_S. f_equal.
  - apply sum_upto_ext. intros j Hj. apply app_nth1. lia.
  - rewrite app_nth2 by lia.
    replace (5 * q + c - length losses)%nat with 0%nat by lia. reflexivity.
Qed.

Lemma div_mod_next i :
  ((i mod 5 = 4 -> S i mod 5 = 0 /\ S i / 5 = S (i / 5)) /\
   (i mod 5 <> 4 -> S i mod 5 = S (i mod 5) /\ S i / 5 = i / 5))%nat.
Proof.
  pose proof (Nat.div_mod_eq i 5) as E.
  pose proof (Nat.mod_upper_bound i 5 ltac:(lia)) as Hlt.
  split; intros H.
  - assert (Q : (S i = 5 * S (i / 5) + 0)%nat) by lia.
    split.
    + symmetry. apply (Nat.mod_unique (S i) 5 (S (i / 5)) 0); [lia | exact Q].
    + symmetry. apply (Nat.div_unique (S i) 5 (S (i / 5)) 0); [lia | exact Q].
  - assert (Q : (S i = 5 * (i / 5) + S (i mod 5))%nat) by lia.
    split.
    + symmetry. apply (Nat.mod_unique (S i) 5 (i / 5) (S (i mod 5))); [lia | exact Q].
    + symmetry. apply (Nat.div_unique (S i) 5 (i / 5) (S (i mod 5))); [lia | exact Q].
Qed.

(** The rounds from batch [i] on, from a state that accounts for the
    losses of the first [i] batches. *)
Lemma train_loop_run (O : Type) loss_function
    (optimizer_step : O -> EncoderDecoder.t -> RandomDataset.dict -> rng
                      -> O * EncoderDecoder.t)
    h dk dff vs vt :
  (0 < vt)%nat ->
  (forall x t n c, shape x = [n; c] -> shape t = [n] ->
     (forall k, (k < n)%nat -> (0 <= get t [k] < Z.of_nat c)%Z) ->
     exists l, loss_function x t = Ok l) ->
  (forall o m b g, model_shape h dk dff vs vt 5000 m ->
     model_shape h dk dff vs vt 5000 (snd (optimizer_step o m b g))) ->
  forall data_loader i (st : Training.state O) g losses,
    Forall (is_batch vs vt) data_loader ->
    model_shape h dk dff vs vt 5000 (Training.model st) ->
    length losses = i ->
    Forall (fun l => exists x t, loss_function x t = Ok l) losses ->
    Training.counter st = Z.of_nat (i mod 5) ->
    Training.current_loss st
      = sum_upto (i mod 5) (fun j => nth (5 * (i / 5) + j) losses 0) ->
    Training.printed st = map (report losses) (seq 0 (i / 5)) ->
    exists st' g' losses',
      for_each (combine (seq i (length data_loader)) data_loader)
        (Training.train_body loss_function optimizer_step) st g = Ok (st', g') /\
      length losses' = (i + length data_loader)%nat /\
      Forall (fun l => exists x t, loss_function x t = Ok l) losses' /\
      Training.counter st' = Z.of_nat ((i + length data_loader) mod 5) /\
      Training.current_loss st'
        = sum_upto ((i + length data_loader) mod 5)
            (fun j => nth (5 * ((i + length data_loader) / 5) + j) losses' 0) /\
      Training.printed st'
        = map (report losses') (seq 0 ((i + length data_loader) / 5)).
Proof.
  intros Hvt Hloss Hstep data_loader.
  induction data_loader as [|batch rest IH];
    intros i st g losses Hb Hm Hlen Hls Hc Hcur Hp.
  - exists st, g, losses. cbn [length seq combine for_each].
    rewrite Nat.add_0_r. repeat split; assumption.
  - inversion Hb as [|? ? Hb1 Hb2]; subst.
    destruct (train_body_run O loss_function optimizer_step h dk dff vs vt
                (length losses) batch st g Hvt Hloss Hb1 Hm)
      as (loss & g1 & x & t & El & E1).
    set (i := length losses) in *.
    pose proof (Nat.div_mod_eq i 5) as Ediv.
    pose proof (Nat.mod_upper_bound i 5 ltac:(lia)) as Hlt.
    destruct (div_mod_next i) as [Hnext4 Hnext].
    assert (Hls' : Forall (fun l => exists x t, loss_function x t = Ok l)
                          (losses ++ [loss])).
    { apply Forall_app. split; [exact Hls|]. constructor; [|constructor]. eauto. }
    assert (Hlen' : length (losses ++ [loss]) = S i)
      by (rewrite length_app; cbn; fold i; lia).
    pose proof (Hstep (Training.optimizer st) (Training.model st) batch g Hm) as Hm'.
    destruct (optimizer_step (Training.optimizer st) (Training.model st) batch g)
      as [optimizer' model'].
    cbn [snd] in Hm'.
    cbn [length seq combine for_each].
    rewrite (bind_run _ _ _ _ _ E1).
    replace (i + S (length rest))%nat with (S i + length rest)%nat by lia.
    rewrite Hc.
    destruct (Nat.eq_dec (i mod 5) 4) as [H4|H4].
    + destruct (Hnext4 H4) as [Emod Equo].
      assert (((Z.of_nat (i mod 5) + 1) mod 5 =? 0)%Z = true) as ->
        by (rewrite H4; reflexivity).
      apply (IH (S i) _ g1 (losses ++ [loss])); try assumption.
      * rewrite Emod. reflexivity.
      * rewrite Emod. reflexivity.
      * cbn [Training.printed]. rewrite Equo, seq_S, map_app, Hp.
        cbn [map Nat.add]. f_equal.
        -- apply map_ext_in. intros k Hk. apply in_seq in Hk.
           symmetry. apply report_unchanged. fold i. lia.
        -- unfold report. f_equal. f_equal; [lia|].
           rewrite H4. change (IZR (Z.of_nat 4 + 1)) with 5. f_equal.
           rewrite Hcur, H4.
           symmetry. apply (sum_upto_last_loss losses loss 4 (i / 5)).
           fold i. lia.
    + destruct (Hnext H4) as [Emod Equo].
      assert (((Z.of_nat (i mod 5) + 1) mod 5 =? 0)%Z = false) as ->.
      { apply Z.eqb_neq. rewrite Z.mod_small by lia. lia. }
      apply (IH (S i) _ g1 (losses ++ [loss])); try assumption.
      * cbn [Training.counter]. rewrite Emod. lia.
      * cbn [Training.current_loss]. rewrite Emod, Equo, Hcur.
        symmetry. apply (sum_upto_last_loss losses loss (i mod 5) (i / 5)).
        fold i. lia.
      * cbn [Training.printed]. rewrite Equo, Hp.
        apply map_ext_in. intros k Hk. apply in_seq in Hk.
        symmetry. apply report_unchanged. fold i. lia.
Qed.


Lemma cross_entropy_defined (x : tensor R) (t : tensor Z) n c :
  shape x = [n; c] -> shape t = [n] ->
  (forall k, (k < n)%nat -> (0 <= get t [k] < Z.of_nat c)%Z) ->
  exists l, cross_entropy_loss x t = Ok l.
Proof.
  intros Hx Ht Hrange. unfold cross_entropy_loss.
  rewrite Hx, Ht, Nat.eqb_refl. cbn [negb].
  assert (forallb (fun i => (0 <=? get t [i])%Z && (get t [i] <? Z.of_nat c)%Z)
            (filter (fun i => negb (get t [i] =? -100)%Z) (seq 0 n)) = true) as ->.
  { apply forallb_forall. intros i Hi. apply filter_In in Hi as [Hi _].
    apply in_seq in Hi. specialize (Hrange i ltac:(lia)).
    apply andb_true_intro. split; [apply Z.leb_le | apply Z.ltb_lt]; lia. }
  eexists. reflexivity.
Qed.


(** ** Attention does not see the order of the keys *)

Lemma fold_right_Rplus_perm (l l' : list R) :
  Permutation l l' -> fold_right Rplus 0 l = fold_right Rplus 0 l'.
Proof.
  induction 1 as [|x l l' _ IH|x y l|l l' l'' _ IH1 _ IH2]; cbn [fold_right].
  - reflexivity.
  - now rewrite IH.
  - ring.
  - now rewrite IH1.
Qed.

Lemma sum_upto_perm n (sigma : nat -> nat) (f : nat -> R) :
  Permutation (map sigma (seq 0 n)) (seq 0 n) ->
  sum_upto n (fun j => f (sigma j)) = sum_upto n f.
Proof.
  intros H. unfold sum_upto. rewrite <- (map_map sigma f).
  apply fold_right_Rplus_perm. now apply Permutation_map.
Qed.

(** The entries of the weights and of the output, without mask and
    dropout, for query, key and value with the same leading dimensions. *)
Lemma attention_entries q k v p nq d nk dv g :
  shape q = p ++ [nq; d] -> shape k = p ++ [nk; d] -> shape v = p ++ [nk; dv] ->
  exists out w,
    attention q k v None None g = Ok ((out, w), g) /\
    shape out = p ++ [nq; dv] /\ shape w = p ++ [nq; nk] /\
    forall r i, Forall2 lt r p ->
      (forall j,
         get w (r ++ [i; j]) =
         exp (sum_upto d (fun c => get q (r ++ [i; c]) * get k (r ++ [j; c]))
              / sqrt (INR d))
         / sum_upto nk
             (fun j' =>
                exp (sum_upto d (fun c => get q (r ++ [i; c]) * get k (r ++ [j'; c]))
                     / sqrt (INR d)))) /\
      (forall c,
         get out (r ++ [i; c]) =
         sum_upto nk (fun j => get w (r ++ [i; j]) * get v (r ++ [j; c]))).
Proof.
  intros Hq Hk Hv.
  pose proof (transpose_last2_run k p nk d Hk) as Et.
  set (kt := Tensor (p ++ [d; nk])
                    (fun idx => get k (swap (length p) (S (length p)) idx))) in *.
  pose proof (matmul_run q kt p nq d p nk p Hq eq_refl (broadcast_shapes_refl p))
    as Em.
  set (qk := Tensor (p ++ [nq; nk]) (matmul_get q kt p p d)) in *.
  set (w := softmax (div_scalar qk (sqrt (INR d)))).
  pose proof (matmul_run w v p nq nk p dv p eq_refl Hv (broadcast_shapes_refl p))
    as Eo.
  exists (Tensor (p ++ [nq; dv]) (matmul_get w v p p nk)), w.
  split.
  { unfold attention.
    assert (size q (-1) = Ok d) as Es
      by (apply (size_last_run q (p ++ [nq])); now rewrite <- app_assoc).
    rewrite (bind_lift_Ok _ _ Es), (bind_lift_Ok _ _ Et), (bind_lift_Ok _ _ Em).
    unfold bind at 1. unfold ret at 1. unfold bind at 1. unfold ret at 1.
    fold w. rewrite (bind_lift_Ok _ _ Eo). reflexivity. }
  split; [reflexivity|]. split; [reflexivity|].
  intros r i Hr.
  assert (Hlen : length r = length p) by (eapply Forall2_length; exact Hr).
  assert (Hscore : forall j,
    get qk (r ++ [i; j])
    = sum_upto d (fun c => get q (r ++ [i; c]) * get k (r ++ [j; c]))).
  { intros j. unfold qk. cbn [get].
    rewrite matmul_get_at, (bcast_index_in_range p r Hr).
    apply sum_upto_ext. intros c _. f_equal. unfold kt. cbn [get].
    now rewrite <- Hlen, swap_last2. }
  split.
  - intros j. unfold w, softmax. cbn [get shape div_scalar tmap].
    change (shape qk) with (p ++ [nq; nk]).
    replace (p ++ [nq; nk]) with ((p ++ [nq]) ++ [nk]) by now rewrite <- app_assoc.
    rewrite last_dim_app, Hscore. f_equal.
    apply sum_upto_ext. intros j' _.
    replace (r ++ [i; j]) with ((r ++ [i]) ++ [j]) by now rewrite <- app_assoc.
    rewrite row_of_app, <- app_assoc. cbn [app]. now rewrite Hscore.
  - intros c. cbn [get].
    now rewrite matmul_get_at, (bcast_index_in_range p r Hr).
Qed.

(** X22: without mask and dropout, presenting the keys together with their
    values in another order changes nothing in the output of [attention];
    the weights follow the keys. *)
Theorem attention_key_order_irrelevant q k v k' v' p nq d nk dv
    (sigma : nat -> nat) g :
  shape q = p ++ [nq; d] -> shape k = p ++ [nk; d] -> shape v = p ++ [nk; dv] ->
  shape k' = shape k -> shape v' = shape v ->
  Permutation (map sigma (seq 0 nk)) (seq 0 nk) ->
  (forall r j c, Forall2 lt r p -> (j < nk)%nat ->
     get k' (r ++ [j; c]) = get k (r ++ [sigma j; c])) ->
  (forall r j c, Forall2 lt r p -> (j < nk)%nat ->
     get v' (r ++ [j; c]) = get v (r ++ [sigma j; c])) ->
  exists out w out' w',
    attention q k v None None g = Ok ((out, w), g) /\
    attention q k' v' None None g = Ok ((out', w'), g) /\
    shape out' = shape out /\
    forall r i, Forall2 lt r p ->
      (forall c, get out' (r ++ [i; c]) = get out (r ++ [i; c])) /\
      (forall j, (j < nk)%nat -> get w' (r ++ [i; j]) = get w (r ++ [i; sigma j])).
Proof.
  intros Hq Hk Hv Hk' Hv' Hperm Hkk Hvv.
  rewrite Hk in Hk'. rewrite Hv in Hv'.
  destruct (attention_entries q k v p nq d nk dv g Hq Hk Hv)
    as (out & w & E & So & Sw & Hent).
  destruct (attention_entries q k' v' p nq d nk dv g Hq Hk' Hv')
    as (out' & w' & E' & So' & Sw' & Hent').
  exists out, w, out', w'. split; [exact E|]. split; [exact E'|].
  split; [now rewrite So, So'|].
  intros r i Hr.
  destruct (Hent r i Hr) as [Hw Ho]. destruct (Hent' r i Hr) as [Hw' Ho'].
  assert (Hweights : forall j, (j < nk)%nat ->
            get w' (r ++ [i; j]) = get w (r ++ [i; sigma j])).
  { intros j Hj. rewrite Hw', Hw. f_equal.
    - f_equal. f_equal. apply sum_upto_ext. intros c _. now rewrite Hkk.
    - rewrite <- (sum_upto_perm nk sigma
                    (fun j' => exp (sum_upto d
                       (fun c => get q (r ++ [i; c]) * get k (r ++ [j'; c]))
                       / sqrt (INR d))) Hperm).
      apply sum_upto_ext. intros j' Hj'. f_equal. f_equal.
      apply sum_upto_ext. intros c _. now rewrite Hkk. }
  split; [|exact Hweights].
  intros c. rewrite Ho', Ho.
  rewrite <- (sum_upto_perm nk sigma
                (fun j => get w (r ++ [i; j]) * get v (r ++ [j; c])) Hperm).
  apply sum_upto_ext. intros j Hj. now rewrite Hweights, Hvv.
Qed.

Lemma attention_key_order_irrelevant_witness :
  let q := of_list2 0 [[1; 0]; [0; 1]] in
  let k := of_list2 0 [[1; 2]; [3; 4]; [5; 6]] in
  let v := of_list2 0 [[1; 0]; [0; 1]; [1; 1]] in
  let k' := of_list2 0 [[5; 6]; [1; 2]; [3; 4]] in
  let v' := of_list2 0 [[1; 1]; [1; 0]; [0; 1]] in
  let sigma := fun j => ((j + 2) mod 3)%nat in
  let g : rng := fun _ _ => true in
  exists out w out' w',
    attention q k v None None g = Ok ((out, w), g) /\
    attention q k' v' None None g = Ok ((out', w'), g) /\
    shape out' = shape out /\
    forall r i, Forall2 lt r [] ->
      (forall c, get out' (r ++ [i; c]) = get out (r ++ [i; c])) /\
      (forall j, (j < 3)%nat -> get w' (r ++ [i; j]) = get w (r ++ [i; sigma j])).
Proof.
  intros q k v k' v' sigma g.
  apply (attention_key_order_irrelevant q k v k' v' [] 2 2 3 2 sigma g).
  - reflexivity.
  - reflexivity.
  - reflexivity.
  - reflexivity.
  - reflexivity.
  - cbn. apply Permutation_sym.
    apply (Permutation_cons_app [2%nat] [1%nat] 0%nat).
    apply perm_swap.
  - intros r j c Hr Hj. inversion Hr; subst.
    destruct j as [|[|[|j]]]; [| | |lia];
      destruct c as [|[|c]]; reflexivity.
  - intros r j c Hr Hj. inversion Hr; subst.
    destruct j as [|[|[|j]]]; [| | |lia];
      destruct c as [|[|c]]; reflexivity.
Defined.

(** ** From the data set to the batches *)

Lemma mapM_const {A B} (f : A -> result B) (l : list A) b :
  (forall a, In a l -> f a = Ok b) -> mapM f l = Ok (repeat b (length l)).
Proof.
  induction l as [|a l IH]; intros H; [reflexivity|].
  cbn [mapM length repeat]. rewrite (H a (or_introl eq_refl)), IH; [reflexivity|].
  intros a' Ha'. apply H. now right.
Qed.

Lemma mapM_repeat {A B} (f : A -> result B) a b n :
  f a = Ok b -> mapM f (repeat a n) = Ok (repeat b n).
Proof.
  intros H. rewrite (mapM_const f (repeat a n) b), repeat_length; [reflexivity|].
  intros a' Ha'. apply repeat_spec in Ha'. now subst a'.
Qed.

Lemma mapM_Forall {A B} (f : A -> result B) (P : B -> Prop) (l : list A) :
  (forall a, In a l -> exists b, f a = Ok b /\ P b) ->
  exists bs, mapM f l = Ok bs /\ Forall P bs /\ length bs = length l.
Proof.
  induction l as [|a l IH]; intros H.
  - exists []. repeat split. constructor.
  - destruct (H a (or_introl eq_refl)) as (b & Eb & Pb).
    destruct IH as (bs & Ebs & Pbs & Hlen); [intros a' Ha'; apply H; now right|].
    exists (b :: bs). cbn [mapM]. rewrite Eb, Ebs.
    split; [reflexivity|]. split; [now constructor | cbn; now rewrite Hlen].
Qed.

Lemma stack_repeat {A} (t : tensor A) n :
  stack (repeat t (S n))
  = Ok (Tensor (S n :: shape t)
          (fun idx => get (nth (nth 0 idx 0%nat) (repeat t (S n)) t) (tl idx))).
Proof.
  unfold stack. cbn [repeat].
  assert (forallb (fun t' => list_eqb (shape t') (shape t)) (t :: repeat t n) = true)
    as ->.
  { apply forallb_forall. intros t' [<-|Hin]; [apply list_eqb_refl|].
    apply repeat_spec in Hin. subst t'. apply list_eqb_refl. }
  cbn [length]. now rewrite repeat_length.
Qed.

Lemma nth_repeat_same {A} (a : A) m n : nth n (repeat a m) a = a.
Proof.
  revert n. induction m as [|m IH]; intros [|n]; cbn; auto.
Qed.

(** The batch made of [B] references to one sample. *)
Lemma collate_repeat d B L tok (V : Z) vocab :
  (0 < B)%nat -> (1 <= L <= 5000)%nat ->
  map fst d = sample_keys -> RandomDataset.is_sample L tok d ->
  (forall i, (1 <= tok i < V)%Z) -> (V <= Z.of_nat vocab)%Z ->
  exists batch, collate (repeat d B) = Ok batch /\ is_batch vocab vocab batch.
Proof.
  intros HB HL Hkeys Hs Htok HV.
  destruct B as [|n]; [lia|].
  destruct d as [|[k1 v1] [|[k2 v2] [|[k3 v3] [|[k4 v4] [|[k5 v5] [|[k6 v6] [|]]]]]]];
    try discriminate.
  unfold sample_keys in Hkeys. cbn [map fst] in Hkeys.
  inversion Hkeys; subst k1 k2 k3 k4 k5 k6. clear Hkeys.
  destruct Hs as ((t0 & K0 & S0 & V0) & (t1 & K1 & S1 & V1) & (t2 & K2 & S2 & V2)
                  & (m0 & K3 & S3 & V3) & (m1 & K4 & S4 & V4) & K5).
  cbn in K0, K1, K2, K3, K4, K5.
  inversion K0; subst v1. inversion K1; subst v2. inversion K2; subst v3.
  inversion K3; subst v4. inversion K4; subst v5. inversion K5; subst v6.
  clear K0 K1 K2 K3 K4 K5.
  set (d := [("source"%string, RandomDataset.Tokens t0);
             ("target"%string, RandomDataset.Tokens t1);
             ("target_y"%string, RandomDataset.Tokens t2);
             ("source_mask"%string, RandomDataset.Mask m0);
             ("target_mask"%string, RandomDataset.Mask m1);
             ("tokens_count"%string, RandomDataset.Count (Z.of_nat (L - 1)))]).
  assert (Hkey : forall k v, RandomDataset.lookup d k = Some v ->
            mapM (fun d' => match RandomDataset.lookup d' k with
                            | Some v => Ok v
                            | None => Raise IndexError
                            end) (repeat d (S n)) = Ok (repeat v (S n))).
  { intros k v Hk. apply mapM_repeat. now rewrite Hk. }
  assert (Htokens : forall t,
            collate_values (repeat (RandomDataset.Tokens t) (S n))
            = Ok (RandomDataset.Tokens
                    (Tensor (S n :: shape t)
                       (fun idx => get (nth (nth 0 idx 0%nat) (repeat t (S n)) t)
                                       (tl idx))))).
  { intros t. unfold collate_values. cbn [repeat].
    change (RandomDataset.Tokens t :: repeat (RandomDataset.Tokens t) n)
      with (repeat (RandomDataset.Tokens t) (S n)).
    rewrite (mapM_repeat _ (RandomDataset.Tokens t) t (S n) eq_refl).
    cbn [rbind]. now rewrite stack_repeat. }
  assert (Hmasks : forall t,
            collate_values (repeat (RandomDataset.Mask t) (S n))
            = Ok (RandomDataset.Mask
                    (Tensor (S n :: shape t)
                       (fun idx => get (nth (nth 0 idx 0%nat) (repeat t (S n)) t)
                                       (tl idx))))).
  { intros t. unfold collate_values. cbn [repeat].
    change (RandomDataset.Mask t :: repeat (RandomDataset.Mask t) n)
      with (repeat (RandomDataset.Mask t) (S n)).
    rewrite (mapM_repeat _ (RandomDataset.Mask t) t (S n) eq_refl).
    cbn [rbind]. now rewrite stack_repeat. }
  assert (Hcount : forall c,
            exists t, collate_values (repeat (RandomDataset.Count c) (S n))
                      = Ok (RandomDataset.Tokens t)).
  { intros c. unfold collate_values. cbn [repeat].
    change (RandomDataset.Count c :: repeat (RandomDataset.Count c) n)
      with (repeat (RandomDataset.Count c) (S n)).
    rewrite (mapM_repeat _ (RandomDataset.Count c) c (S n) eq_refl).
    cbn [rbind]. eexists. reflexivity. }
  destruct (Hcount (Z.of_nat (L - 1))) as (tc & Etc).
  eexists. split.
  { change (repeat d (S n)) with (d :: repeat d n). unfold collate.
    change (d :: repeat d n) with (repeat d (S n)).
    set (batch := repeat d (S n)) in *.
    unfold d. cbn [mapM fst].
    rewrite (Hkey "source"%string _ eq_refl), (Hkey "target"%string _ eq_refl),
      (Hkey "target_y"%string _ eq_refl), (Hkey "source_mask"%string _ eq_refl),
      (Hkey "target_mask"%string _ eq_refl), (Hkey "tokens_count"%string _ eq_refl).
    cbn [rbind]. rewrite !Htokens, !Hmasks, Etc. cbn [rbind]. reflexivity. }
  assert (Hvoc : forall (t : tensor Z) (off : nat) (len : nat),
            shape t = [len] ->
            (forall i, (i < len)%nat -> get t [i] = tok (off + i)%nat) ->
            in_vocabulary vocab
              (Tensor (S n :: shape t)
                 (fun idx => get (nth (nth 0 idx 0%nat) (repeat t (S n)) t) (tl idx)))).
  { intros t off len St Vt idx Hin. cbn [shape] in Hin. rewrite St in Hin.
    inversion Hin as [|b ? ? ? Hb Hin1]; subst.
    inversion Hin1 as [|i ? ? ? Hi Hin2]; subst. inversion Hin2; subst.
    cbn [get nth tl]. rewrite nth_repeat_same, (Vt i Hi).
    specialize (Htok (off + i)%nat). lia. }
  unfold is_batch.
  do 5 eexists. exists (S n), L, (L - 1)%nat.
  split; [reflexivity|]. split; [reflexivity|]. split; [reflexivity|].
  split; [reflexivity|]. split; [reflexivity|].
  split; [lia|]. split; [lia|]. split; [lia|].
  split; [cbn [shape]; now rewrite S0|].
  split; [cbn [shape]; now rewrite S1|].
  split; [cbn [shape]; now rewrite S2|].
  split; [apply (Hvoc t0 0%nat L S0); intros i Hi; now apply V0|].
  split; [apply (Hvoc t1 0%nat (L - 1)%nat S1); intros i Hi; now apply V1|].
  split; [apply (Hvoc t2 1%nat (L - 1)%nat S2); intros i Hi; now apply V2|].
  split.
  - exists (S n), 1%nat, L. cbn [shape]. rewrite S3. repeat split; auto.
  - exists (S n), (L - 1)%nat, (L - 1)%nat. cbn [shape]. rewrite S4.
    repeat split; auto.
Qed.

(** The pieces of a list: none is empty, all come from the list, and their
    number is the length divided by the size, rounded up. *)
Lemma chunks_spec {A} (b : nat) :
  (0 < b)%nat ->
  forall fuel (l : list A), (length l <= fuel)%nat ->
    Forall (fun c => c <> [] /\ incl c l) (chunks fuel b l) /\
    length (chunks fuel b l) = ((length l + b - 1) / b)%nat.
Proof.
  intros Hb fuel. induction fuel as [|fuel IH]; intros l Hl.
  - destruct l; [|cbn in Hl; lia]. cbn [chunks length].
    split; [constructor|]. symmetry. apply Nat.div_small. lia.
  - destruct l as [|a l].
    + cbn [chunks length]. split; [constructor|].
      symmetry. apply Nat.div_small. lia.
    + cbn [chunks]. set (l0 := a :: l) in *.
      assert (Hl0 : length l0 = S (length l)) by reflexivity.
      assert (Hskip : (length (skipn b l0) <= fuel)%nat).
      { rewrite length_skipn. lia. }
      destruct (IH (skipn b l0) Hskip) as [HF Hlen].
      split.
      * constructor.
        -- split.
           ++ destruct b as [|b']; [lia|]. unfold l0. cbn [firstn]. discriminate.
           ++ intros x Hx. rewrite <- (firstn_skipn b l0).
              apply in_or_app. now left.
        -- revert HF. apply Forall_impl. intros c [Hc Hincl].
           split; [exact Hc|]. intros x Hx. rewrite <- (firstn_skipn b l0).
           apply in_or_app. right. now apply Hincl.
      * change (length (firstn b l0 :: chunks fuel b (skipn b l0)))
          with (S (length (chunks fuel b (skipn b l0)))).
        rewrite Hlen, length_skipn.
        assert (Hpos : (1 <= length l0)%nat) by lia.
        destruct (Nat.le_gt_cases b (length l0)) as [Hle|Hgt].
        -- replace (length l0 + b - 1)%nat with ((length l0 - b + b - 1) + 1 * b)%nat
             by lia.
           rewrite Nat.div_add by lia. lia.
        -- replace (length l0 - b)%nat with 0%nat by lia.
           rewrite (Nat.div_small (0 + b - 1) b) by lia.
           apply (Nat.div_unique (length l0 + b - 1) b 1 (length l0 - 1)); lia.
Qed.

(** The loader over a data set whose items all refer to one sample. *)
Lemma data_loader_run r0 (h : RandomDataset.heap) d total batch_size L tok
    (V : Z) vocab :
  (0 < batch_size)%nat -> (1 <= L <= 5000)%nat ->
  RandomDataset.deref h r0 = Ok d ->
  map fst d = sample_keys -> RandomDataset.is_sample L tok d ->
  (forall i, (1 <= tok i < V)%Z) -> (V <= Z.of_nat vocab)%Z ->
  exists batches,
    data_loader (RandomDataset.Make (repeat r0 total)) h batch_size = Ok batches /\
    Forall (is_batch vocab vocab) batches /\
    length batches = ((total + batch_size - 1) / batch_size)%nat.
Proof.
  intros Hb HL Hd Hkeys Hs Htok HV. unfold data_loader.
  assert ((batch_size =? 0)%nat = false) as -> by (apply Nat.eqb_neq; lia).
  unfold RandomDataset.len. cbn [RandomDataset.samples].
  rewrite repeat_length, Nat2Z.id.
  destruct (chunks_spec batch_size Hb total (seq 0 total)) as [HF Hlen];
    [now rewrite length_seq|].
  rewrite length_seq in Hlen.
  destruct (mapM_Forall
              (fun indices =>
                 rbind (mapM (fun i =>
                                rbind (RandomDataset.getitem
                                         (RandomDataset.Make (repeat r0 total))
                                         (Z.of_nat i))
                                      (fun r => RandomDataset.deref h r)) indices)
                       (fun samples => collate samples))
              (is_batch vocab vocab) (chunks total batch_size (seq 0 total)))
    as (batches & E & HB & Hl).
  - intros c Hc. rewrite Forall_forall in HF. destruct (HF c Hc) as [Hne Hincl].
    rewrite (mapM_const _ c d).
    + cbn [rbind]. apply (collate_repeat d (length c) L tok V vocab); try assumption.
      destruct c; [contradiction | cbn; lia].
    + intros i Hi. apply Hincl, in_seq in Hi.
      unfold RandomDataset.getitem. cbn [RandomDataset.samples].
      rewrite (proj1 (getitem_int_repeat r0 total (Z.of_nat i)))
        by (clear - Hi; lia).
      exact Hd.
  - exists batches. split; [exact E|]. split; [exact HB|]. now rewrite Hl, Hlen.
Qed.

(** X23: the notebook's own pipeline runs.  For a data set of [total]
    samples of length [L] (at least 1, at most 5000) over tokens below [V],
    a loader with a positive batch size, and a model built for a
    vocabulary of at least [V] with a positive number of heads, the loader
    yields [total / batch_size], rounded up, batches, the model accepts
    each of them, and [train_model] runs through them and prints one line
    for every five batches. *)
Theorem notebook_pipeline_trains (O : Type) loss_function
    (optimizer_step : O -> EncoderDecoder.t -> RandomDataset.dict -> rng
                      -> O * EncoderDecoder.t)
    theta xi (V vocab : Z) N d_model d_ff h dropout model (optimizer : O)
    (total L batch_size : nat) h0 (seed : RandomDataset.nprng) (g : rng) :
  build_model theta xi vocab vocab N d_model d_ff h dropout = Ok model ->
  (0 < h)%Z -> (1 < V <= vocab)%Z -> (1 <= L <= 5000)%nat ->
  (0 < total)%nat -> (0 < batch_size)%nat ->
  (forall x t n c, shape x = [n; c] -> shape t = [n] ->
     (forall k, (k < n)%nat -> (0 <= get t [k] < Z.of_nat c)%Z) ->
     exists l, loss_function x t = Ok l) ->
  (forall o m b g,
     model_shape (Z.to_nat h) (Z.to_nat (d_model / h)) (Z.to_nat d_ff)
       (Z.to_nat vocab) (Z.to_nat vocab) 5000 m ->
     model_shape (Z.to_nat h) (Z.to_nat (d_model / h)) (Z.to_nat d_ff)
       (Z.to_nat vocab) (Z.to_nat vocab) 5000 (snd (optimizer_step o m b g))) ->
  exists dataset heap seed' batches st g' losses,
    RandomDataset.init V (Z.of_nat total) (Z.of_nat L) h0 seed
      = Ok ((dataset, heap), seed') /\
    data_loader dataset heap batch_size = Ok batches /\
    length batches = ((total + batch_size - 1) / batch_size)%nat /\
    Forall (is_batch (Z.to_nat vocab) (Z.to_nat vocab)) batches /\
    Training.train_model loss_function optimizer_step model optimizer batches g
      = Ok (st, g') /\
    length losses = length batches /\
    Training.printed st = map (report losses) (seq 0 (length batches / 5)).
Proof.
  intros Hb Hh HV HL Ht Hbs Hloss Hstep.
  destruct (init_loop_run V L h0 ltac:(lia) ltac:(lia) total 0%nat []
              RandomDataset.empty_dict seed)
    as (d & seed' & Einit & _ & _ & Hp).
  destruct (Hp Ht) as [Hs Hk].
  destruct (data_loader_run (length h0) (h0 ++ [d]) d total batch_size L _ V
              (Z.to_nat vocab) Hbs HL (deref_last h0 d) (Hk (or_introl eq_refl)) Hs)
    as (batches & Eload & Hbatches & Hlen).
  { intros i. apply token_positive. lia. }
  { lia. }
  destruct (build_model_shape _ _ _ _ _ _ _ _ _ _ true Hb Hh) as [_ Hshape].
  assert (Hvt : (0 < Z.to_nat vocab)%nat) by lia.
  destruct (train_loop_run O loss_function optimizer_step _ _ _ _ _
              Hvt Hloss Hstep batches 0%nat
              (Training.State (EncoderDecoder.train true model) optimizer 0 0 [])
              g [] Hbatches Hshape eq_refl (Forall_nil _) eq_refl eq_refl eq_refl)
    as (st & g' & losses & E & Hll & _ & _ & _ & Hprinted).
  exists (RandomDataset.Make (repeat (length h0) total)), (h0 ++ [d]), seed',
    batches, st, g', losses.
  split.
  { unfold RandomDataset.init, RandomDataset.alloc, range. rewrite Nat2Z.id.
    now rewrite (bind_run _ _ _ _ _ Einit). }
  split; [exact Eload|]. split; [exact Hlen|]. split; [exact Hbatches|].
  split; [exact E|]. split; [exact Hll | exact Hprinted].
Qed.

Lemma notebook_pipeline_trains_witness :
  let theta : params := fun _ _ => 0 in
  let xi : params := fun _ _ => 0 in
  let g : rng := fun _ _ => true in
  let seed : RandomDataset.nprng := fun k => k in
  let step := fun (o : unit) (m : EncoderDecoder.t) (_ : RandomDataset.dict)
                  (_ : rng) => (o, m) in
  let total := Z.to_nat 10000 in
  exists model,
    build_model theta xi 11 11 2 512 2048 8 0.1 = Ok model /\
    exists dataset heap seed' batches st g' losses,
      RandomDataset.init 11 (Z.of_nat total) (Z.of_nat 10) [] seed
        = Ok ((dataset, heap), seed') /\
      data_loader dataset heap 50 = Ok batches /\
      length batches = ((total + 50 - 1) / 50)%nat /\
      Forall (is_batch (Z.to_nat 11) (Z.to_nat 11)) batches /\
      Training.train_model cross_entropy_loss step model tt batches g
        = Ok (st, g') /\
      length losses = length batches /\
      Training.printed st = map (report losses) (seq 0 (length batches / 5)).
Proof.
  intros theta xi g seed step total.
  destruct (build_model theta xi 11 11 2 512 2048 8 0.1) as [model|e] eqn:Hb.
  2:{ exfalso.
      assert (is_ok (build_model theta xi 11 11 2 512 2048 8 0.1) = true)
        by (vm_compute; reflexivity).
      rewrite Hb in H. discriminate. }
  exists model. split; [reflexivity|].
  apply (notebook_pipeline_trains unit cross_entropy_loss step theta xi 11 11 2
           512 2048 8 0.1 model tt total 10 50 [] seed g Hb).
  - lia.
  - lia.
  - lia.
  - unfold total. lia.
  - lia.
  - exact cross_entropy_defined.
  - intros o m b g0 Hm. exact Hm.
Defined.

